(** * Containor: an insertion-ordered key-value container and its sequence type

    A shallow embedding of [src/containor.ts], [src/containorArray.ts] and the
    type predicates of [is.ts], with the properties of the specification
    stated and proved over it.

    - JavaScript values are an inductive type; reference values carry the
      identity of their object next to its content, so structural equality of
      two values is SameValueZero, the equality the native [Map] and [Set]
      use on keys.
    - Numbers are the whole numbers, the finite numbers between two of them,
      [NaN] and the two infinities; their arithmetic is exact.
    - A native [Map] is the list of its entries in iteration order.
    - A method that mutates its receiver returns the receiver's new state next
      to its result; a method that can throw returns a [result]. *)

From Stdlib Require Import List ZArith Bool String Lia Permutation Sorted.
Import ListNotations.

Set Warnings "-register-all".

Local Open Scope Z_scope.
Local Open Scope list_scope.

(* ================================================================== *)
(** * JavaScript values and the predicates of [is.ts] *)

Module Js.

(** The numbers that are not finite. *)
Inductive nonfinite : Type := NaN | PosInfinity | NegInfinity.

(** A finite number: a whole one, or one that lies strictly between [whole]
    and [whole + 1].  [part] is what it has above [whole], by its binary
    digits after the point, the first digit outermost and the closing 1
    being [xH]: a half is [xH], a quarter [xO xH], three quarters [xI xH].
    Every double that is not whole is one such term and no other.  [+0] and
    [-0] are one key under SameValueZero and one number here. *)
Inductive finite : Type :=
| Whole (n : Z)
| Fraction (whole : Z) (part : positive).

(** A value of type [number]. *)
Inductive number : Type :=
| Finite (x : finite)
| NotFinite (x : nonfinite).

(** What [ToIntegerOrInfinity] makes of a number. *)
Inductive integer : Type :=
| Int (n : Z)
| PlusInfinity
| MinusInfinity.

(** SameValueZero on numbers. *)
Definition number_eqb (x y : number) : bool :=
  match x, y with
  | Finite (Whole n), Finite (Whole m) => Z.eqb n m
  | Finite (Fraction w p), Finite (Fraction v q) => Z.eqb w v && Pos.eqb p q
  | NotFinite NaN, NotFinite NaN => true
  | NotFinite PosInfinity, NotFinite PosInfinity => true
  | NotFinite NegInfinity, NotFinite NegInfinity => true
  | _, _ => false
  end.

Module Number.

(** The order of two parts. *)
Fixpoint part_compare (p q : positive) : comparison :=
  match p, q with
  | xH, xH => Eq
  | xH, xO _ => Gt
  | xH, xI _ => Lt
  | xO _, xH => Lt
  | xI _, xH => Gt
  | xO p, xO q => part_compare p q
  | xI p, xI q => part_compare p q
  | xO _, xI _ => Lt
  | xI _, xO _ => Gt
  end.

(** The order of two finite numbers. *)
Definition finite_compare (a b : finite) : comparison :=
  match a, b with
  | Whole n, Whole m => n ?= m
  | Whole n, Fraction w _ => if n <=? w then Lt else Gt
  | Fraction w _, Whole m => if w <? m then Lt else Gt
  | Fraction w p, Fraction v q =>
      match w ?= v with
      | Eq => part_compare p q
      | c => c
      end
  end.

(** [a < b], [a <= b] and [a === b] on finite numbers. *)
Definition ltb (a b : finite) : bool :=
  match finite_compare a b with Lt => true | _ => false end.

Definition leb (a b : finite) : bool :=
  match finite_compare a b with Gt => false | _ => true end.

Definition eqb (a b : finite) : bool :=
  match finite_compare a b with Eq => true | _ => false end.

(** The order of two numbers; [NaN] has none with any number. *)
Definition compare (x y : number) : option comparison :=
  match x, y with
  | NotFinite NaN, _ => None
  | _, NotFinite NaN => None
  | Finite a, Finite b => Some (finite_compare a b)
  | NotFinite PosInfinity, NotFinite PosInfinity => Some Eq
  | NotFinite NegInfinity, NotFinite NegInfinity => Some Eq
  | NotFinite NegInfinity, _ => Some Lt
  | _, NotFinite PosInfinity => Some Lt
  | NotFinite PosInfinity, _ => Some Gt
  | _, NotFinite NegInfinity => Some Gt
  end.

(** [x < y], [x > y] and [x >= y] on numbers: [false] with a [NaN]. *)
Definition lt (x y : number) : bool :=
  match compare x y with Some Lt => true | _ => false end.

Definition gt (x y : number) : bool :=
  match compare x y with Some Gt => true | _ => false end.

Definition ge (x y : number) : bool :=
  match compare x y with Some Gt | Some Eq => true | _ => false end.

(** What a part lacks to 1. *)
Fixpoint complement (p : positive) : positive :=
  match p with
  | xH => xH
  | xO p => xI (complement p)
  | xI p => xO (complement p)
  end.

(** [- x], and [n + x] and [n - x] for a whole [n].  The sum and the
    difference are the exact ones, which the code's are whenever the exact
    one is a double. *)
Definition opp (x : finite) : finite :=
  match x with
  | Whole n => Whole (- n)
  | Fraction w p => Fraction (- w - 1) (complement p)
  end.

Definition add (n : Z) (x : finite) : finite :=
  match x with
  | Whole m => Whole (n + m)
  | Fraction w p => Fraction (n + w) p
  end.

Definition sub (n : Z) (x : finite) : finite := add n (opp x).

(** The whole part of a finite number, toward zero. *)
Definition trunc (x : finite) : Z :=
  match x with
  | Whole n => n
  | Fraction w _ => if w <? 0 then w + 1 else w
  end.

(** [ToIntegerOrInfinity]: what [slice] and [splice] make of an argument. *)
Definition to_integer (x : number) : integer :=
  match x with
  | Finite x => Int (trunc x)
  | NotFinite NaN => Int 0
  | NotFinite PosInfinity => PlusInfinity
  | NotFinite NegInfinity => MinusInfinity
  end.

End Number.

Module Math.

(** [Math.floor] of a finite number, and [Math.ceil]: the number of whole
    numbers from 0 that are below it, when it is not negative. *)
Definition floor (x : finite) : Z :=
  match x with
  | Whole n => n
  | Fraction w _ => w
  end.

Definition ceil (x : finite) : Z :=
  match x with
  | Whole n => n
  | Fraction w _ => w + 1
  end.

(** [Math.min] of two finite numbers. *)
Definition min (a b : finite) : finite := if Number.ltb b a then b else a.

End Math.

(** A JavaScript value.  [VNum] is a whole number and [VFraction] a finite
    number that is not whole.  [id] is the identity of an object: two
    objects of equal content are different keys. *)
Inductive value : Type :=
| VUndefined
| VNull
| VBool (b : bool)
| VNum (n : Z)
| VFraction (whole : Z) (part : positive)
| VNonFinite (x : nonfinite)
| VString (s : string)
| VStringObject (id : nat) (s : string)
| VFunction (id : nat)
| VArray (id : nat) (items : list value)
| VObject (id : nat) (props : list (string * value))
| VMap (id : nat) (entries : list (value * value))
| VOther (id : nat).

(** A whole number as a number. *)
Definition whole (n : Z) : number := Finite (Whole n).

(** The finite number a value is, when it is one. *)
Definition as_finite (v : value) : option finite :=
  match v with
  | VNum n => Some (Whole n)
  | VFraction w p => Some (Fraction w p)
  | _ => None
  end.

Definition nonfinite_eqb (x y : nonfinite) : bool :=
  match x, y with
  | NaN, NaN | PosInfinity, PosInfinity | NegInfinity, NegInfinity => true
  | _, _ => false
  end.

(** SameValueZero, as structural equality. *)
Fixpoint value_eqb (a b : value) {struct a} : bool :=
  match a, b with
  | VUndefined, VUndefined => true
  | VNull, VNull => true
  | VBool x, VBool y => Bool.eqb x y
  | VNum x, VNum y => Z.eqb x y
  | VFraction w p, VFraction v q => Z.eqb w v && Pos.eqb p q
  | VNonFinite x, VNonFinite y => nonfinite_eqb x y
  | VString x, VString y => String.eqb x y
  | VStringObject i x, VStringObject j y => Nat.eqb i j && String.eqb x y
  | VFunction i, VFunction j => Nat.eqb i j
  | VArray i xs, VArray j ys =>
      Nat.eqb i j &&
      (fix items_eqb (xs ys : list value) {struct xs} : bool :=
         match xs, ys with
         | [], [] => true
         | x :: xs', y :: ys' => value_eqb x y && items_eqb xs' ys'
         | _, _ => false
         end) xs ys
  | VObject i xs, VObject j ys =>
      Nat.eqb i j &&
      (fix props_eqb (xs ys : list (string * value)) {struct xs} : bool :=
         match xs, ys with
         | [], [] => true
         | (k, x) :: xs', (l, y) :: ys' =>
             String.eqb k l && value_eqb x y && props_eqb xs' ys'
         | _, _ => false
         end) xs ys
  | VMap i xs, VMap j ys =>
      Nat.eqb i j &&
      (fix entries_eqb (xs ys : list (value * value)) {struct xs} : bool :=
         match xs, ys with
         | [], [] => true
         | (k, x) :: xs', (l, y) :: ys' =>
             value_eqb k l && value_eqb x y && entries_eqb xs' ys'
         | _, _ => false
         end) xs ys
  | VOther i, VOther j => Nat.eqb i j
  | _, _ => false
  end.

(** [is.string]: [typeof v === 'string' || v instanceof String]. *)
Definition is_string (v : value) : bool :=
  match v with VString _ | VStringObject _ _ => true | _ => false end.

(** [is.number]: [typeof v === 'number' && isFinite(v)]. *)
Definition is_number (v : value) : bool :=
  match v with VNum _ | VFraction _ _ => true | _ => false end.

(** [is.function]. *)
Definition is_function (v : value) : bool :=
  match v with VFunction _ => true | _ => false end.

(** [is.undefined]. *)
Definition is_undefined (v : value) : bool :=
  match v with VUndefined => true | _ => false end.

(** [is.null]. *)
Definition is_null (v : value) : bool :=
  match v with VNull => true | _ => false end.

(** [is.array]. *)
Definition is_array (v : value) : bool :=
  match v with VArray _ _ => true | _ => false end.

(** [is.map]: [v instanceof Map], which a Containor is too. *)
Definition is_map (v : value) : bool :=
  match v with VMap _ _ => true | _ => false end.

(** [name in v] on an object written as a literal, for a name that
    [Object.prototype] does not have. *)
Definition has_prop (name : string) (props : list (string * value)) : bool :=
  existsb (fun p => String.eqb (fst p) name) props.

(** [v.name] on such an object, whose properties are listed in the order of
    [Object.entries]; a property that is not there reads [undefined]. *)
Fixpoint get_prop (name : string) (props : list (string * value)) : value :=
  match props with
  | [] => VUndefined
  | (k, x) :: rest => if String.eqb k name then x else get_prop name rest
  end.

(** The function [Object], whose identity is 0. *)
Definition Object : value := VFunction 0.

(** [v.constructor] on an object written as a literal: its own property of
    that name, else the one it inherits, [Object]. *)
Definition constructor_of (props : list (string * value)) : value :=
  if has_prop "constructor" props then get_prop "constructor" props
  else Object.

(** [is.plainObject]: a non-null object whose constructor is [Object]. *)
Definition is_plainObject (v : value) : bool :=
  match v with
  | VObject _ props => value_eqb (constructor_of props) Object
  | _ => false
  end.

(** The errors the library throws, one per [throw] site. *)
Inductive exn : Type :=
| KeyUndefined                 (* 'Key cannot be undefined.' *)
| NotAFunction                 (* 'Provided argument is not a function.' *)
| IndexOutOfBounds (index : number)
                               (* 'The index ... is out of bounds for the array.' *)
| GeneratorNotAFunction        (* 'Value generator must be a function.' *)
| TypeError                    (* the engine's, on reading an element of [undefined] *)
| RangeError                   (* the engine's 'Invalid array length' *).

(** How a call ends: with a value, or with a thrown error. *)
Inductive result (A : Type) : Type :=
| Returns (a : A)
| Throws (e : exn).
Arguments Returns {A} a.
Arguments Throws {A} e.

End Js.
Import Js.

(* ================================================================== *)
(** * The native [Map]: entries in insertion order, keys compared by
      SameValueZero *)

Module NativeMap.

Definition entry : Type := (value * value)%type.
Definition t : Type := list entry.

Definition key_is (k : value) (e : entry) : bool := value_eqb (fst e) k.

(** [Map.prototype.has]. *)
Definition has (k : value) (m : t) : bool := existsb (key_is k) m.

(** [Map.prototype.get]: [undefined] when the key is absent. *)
Definition get (k : value) (m : t) : value :=
  match find (key_is k) m with
  | Some e => snd e
  | None => VUndefined
  end.

(** [Map.prototype.set]: an existing key keeps its place and takes the new
    value, a new key goes to the end. *)
Fixpoint set (k v : value) (m : t) : t :=
  match m with
  | [] => [(k, v)]
  | e :: rest => if key_is k e then (fst e, v) :: rest else e :: set k v rest
  end.

(** [Map.prototype.delete]: the map without the key, and whether the key
    was there. *)
Definition delete (k : value) (m : t) : t * bool :=
  (filter (fun e => negb (key_is k e)) m, has k m).

(** [Map.prototype.keys] and [Map.prototype.values], in iteration order. *)
Definition keys (m : t) : list value := map fst m.
Definition values (m : t) : list value := map snd m.

(** [Map.prototype.clear]. *)
Definition clear (m : t) : t := [].

(** No key twice: what every native map satisfies. *)
Definition wf (m : t) : Prop := NoDup (map fst m).

End NativeMap.

(* ================================================================== *)
(** * The native [Array] and [Set] operations the code calls *)

Module NativeArray.

Section Elements.
Context {A : Type}.

(** A relative index of [slice] and [splice], clamped into [0, len]:
    negative counts from the end. *)
Definition clamp (len i : Z) : Z :=
  if i <? 0 then Z.max (len + i) 0 else Z.min i len.

(** [Array.prototype.slice(start, end)]; an omitted bound is [None]. *)
Definition slice (start end_ : option Z) (l : list A) : list A :=
  let len := Z.of_nat (List.length l) in
  let k := clamp len (match start with Some i => i | None => 0 end) in
  let final := match end_ with Some i => clamp len i | None => len end in
  firstn (Z.to_nat (final - k)) (skipn (Z.to_nat k) l).

(** [Array.prototype.splice(start, deleteCount, ...items)], on what
    [ToIntegerOrInfinity] made of its first two arguments: the removed
    elements and the array afterwards. *)
Definition splice (start deleteCount : integer) (items l : list A)
  : list A * list A :=
  let len := Z.of_nat (List.length l) in
  let k :=
    match start with
    | Int i => clamp len i
    | PlusInfinity => len
    | MinusInfinity => 0
    end in
  let d :=
    match deleteCount with
    | Int d => Z.min (Z.max d 0) (len - k)
    | PlusInfinity => len - k
    | MinusInfinity => 0
    end in
  (firstn (Z.to_nat d) (skipn (Z.to_nat k) l),
   firstn (Z.to_nat k) l ++ items ++ skipn (Z.to_nat (k + d)) l).

(** [Array.prototype.filter] with the index the callback also gets, on an
    array given by its slots, [None] being a hole: the callback is called
    for the elements there are, and the array returned has no hole. *)
Fixpoint filter_from (idx : Z) (keep : A -> Z -> bool) (l : list (option A))
  : list A :=
  match l with
  | [] => []
  | None :: rest => filter_from (idx + 1) keep rest
  | Some x :: rest =>
      if keep x idx then x :: filter_from (idx + 1) keep rest
      else filter_from (idx + 1) keep rest
  end.

Definition filteri (keep : A -> Z -> bool) (l : list (option A)) : list A :=
  filter_from 0 keep l.

(** [Array.prototype.sort(compare)] is the engine's.  ECMAScript fixes its
    result for a consistent comparator only, where it is the stable sort;
    for the others the order is left to the engine.  The model is the
    insertion of each element in turn into the sorted prefix before it,
    behind the elements it does not precede: the stable sort, the engine's
    result for every consistent comparator.  For a comparator that is not
    consistent an engine may leave the elements in another order. *)
Fixpoint insert (compare : A -> A -> Z) (x : A) (sorted : list A) : list A :=
  match sorted with
  | [] => [x]
  | y :: rest =>
      if compare x y <? 0 then x :: y :: rest
      else y :: insert compare x rest
  end.

Definition sort (compare : A -> A -> Z) (l : list A) : list A :=
  fold_left (fun sorted x => insert compare x sorted) l [].

End Elements.

End NativeArray.

Module NativeSet.

Section Elements.
Context {A : Type} (eqb : A -> A -> bool).

(** [set.has(x)] and [array.includes(x)]. *)
Definition has (x : A) (s : list A) : bool := existsb (eqb x) s.

(** [new Set(items)], in insertion order: the first occurrence of each
    element. *)
Definition of_list (items : list A) : list A :=
  fold_left (fun s x => if has x s then s else s ++ [x]) items [].

End Elements.

End NativeSet.

(* ================================================================== *)
(** * [ContainorArray]: the sequence of [containorArray.ts] *)

Module ContainorArray.

(** The state of a ContainorArray is the list of its elements. *)
Definition containorArray : Type := list value.

(** What the constructor makes: an array of the given elements, or one of a
    given length that has no element at all. *)
Inductive built : Type :=
| Elements (items : containorArray)
| EmptySlots (length : Z).

(** [new ContainorArray(...v)] (lines 8-10): [super(...v)] is the [Array]
    constructor, for which a single argument that is a number is the length
    of the array to make, and has to be one. *)
Definition construct (v : list value) : result built :=
  match v with
  | [VNum n] =>
      if (0 <=? n) && (n <? 2 ^ 32) then Returns (EmptySlots n)
      else Throws RangeError
  | [VFraction _ _] => Throws RangeError
  | [VNonFinite _] => Throws RangeError
  | _ => Returns (Elements v)
  end.

(** [ContainorArray.from(items)] without [mapFn] (lines 172-179), on the
    elements [Array.from(items)] collects. *)
Definition from (items : list value) : result built := construct items.

(** An array by its slots: an element, or [None] where the array has a
    hole, an index below its length that holds nothing. *)
Definition slots : Type := list (option value).

(** The slots of an array that has no hole. *)
Definition dense (items : containorArray) : slots := map Some items.

(** [deleteAt(...removeArr)] (lines 59-70): the receiver afterwards, and
    how the call ended.  [Set] and [includes] compare by SameValueZero. *)
Definition deleteAt (removeArr : list number) (this : slots)
  : slots * result unit :=
  match removeArr with
  | [] => (this, Returns tt)
  | _ =>
      let uniqueIndices := NativeSet.of_list number_eqb removeArr in
      match
        find (fun index =>
                Number.lt index (whole 0)
                || Number.ge index (whole (Z.of_nat (List.length this))))
             uniqueIndices
      with
      | Some index => (this, Throws (IndexOutOfBounds index))
      | None =>
          let items :=
            NativeArray.filteri
              (fun _ idx => negb (NativeSet.has number_eqb (whole idx) uniqueIndices))
              this in
          (dense items, Returns tt)
      end
  end.

(** The first argument of [removeDuplicates]: left out, the receiver
    itself, or another array. *)
Inductive source : Type :=
| Omitted
| This
| Another (items : list value).

(** The loop of lines 86-91: the elements pushed and the set [seen]. *)
Fixpoint keep_first (ignore : list value) (items : list value)
    (st : containorArray * list value) : containorArray * list value :=
  match items with
  | [] => st
  | item :: rest =>
      let (this, seen) := st in
      if NativeSet.has value_eqb item ignore
         || negb (NativeSet.has value_eqb item seen)
      then
        let seen :=
          if negb (NativeSet.has value_eqb item seen) then seen ++ [item]
          else seen in
        keep_first ignore rest (this ++ [item], seen)
      else keep_first ignore rest (this, seen)
  end.

(** [removeDuplicates(arrayDefault, ...ignore)] (lines 81-93).  The
    parameter defaults to a new empty array; when it is the receiver, the
    assignment [this.length = 0] has emptied it before the loop reads it. *)
Definition removeDuplicates (arrayDefault : source) (ignore : list value)
    (this : containorArray) : containorArray :=
  if Z.of_nat (List.length this) <=? 1 then this
  else
    let this := @nil value in
    let arrayDefault :=
      match arrayDefault with
      | Omitted => []
      | This => this
      | Another items => items
      end in
    fst (keep_first ignore arrayDefault (this, [])).

(** [first()] (lines 19-21). *)
Definition first (this : containorArray) : value :=
  match this with
  | [] => VUndefined
  | x :: _ => x
  end.

(** [last()] (lines 30-32): [this.at(-1)] of an array that is not empty. *)
Definition last (this : containorArray) : value :=
  if (0 <? List.length this)%nat
  then nth (List.length this - 1) this VUndefined
  else VUndefined.

(** [delete(...removeArr)] (lines 42-49): the receiver afterwards, which is
    also what the call returns. *)
Definition delete (removeArr : list value) (this : containorArray)
  : containorArray :=
  match removeArr with
  | [] => this
  | _ =>
      let removeSet := NativeSet.of_list value_eqb removeArr in
      let items :=
        List.filter (fun item => negb (NativeSet.has value_eqb item removeSet)) this in
      items
  end.



(** [clone()] (lines 166-168). *)
Definition clone (this : containorArray) : result built := from this.

End ContainorArray.

(* ================================================================== *)
(** * [Containor]: the container of [containor.ts] *)

Module Containor.

(** The state of a Containor is the state of the [Map] it extends. *)
Definition containor : Type := NativeMap.t.

(** [get length()]: [super.size]. *)
Definition length (this : containor) : Z := Z.of_nat (List.length this).

(** [set(key, value)] (lines 502-510).  With a key that is neither a string
    nor a number and no value, the key is merged as a source of entries:
    the branches below are [addMap(key)] without a reducer, each of whose
    entries is written with [set] again.  The receiver's state at the end
    comes first, also when the call throws half way through a merge. *)
Fixpoint set (key val : value) (this : containor) {struct key}
  : containor * result unit :=
  if is_undefined key then (this, Throws KeyUndefined)
  else if negb (is_string key) && negb (is_number key) && is_undefined val
  then
    match key with
    | VMap _ entries =>
        (fix each (es : list (value * value)) (this : containor)
           : containor * result unit :=
           match es with
           | [] => (this, Returns tt)
           | (k, v) :: rest =>
               match set k v this with
               | (this', Returns _) => each rest this'
               | thrown => thrown
               end
           end) entries this
    | VArray _ items =>
        (fix each (es : list value) (this : containor)
           : containor * result unit :=
           match es with
           | [] => (this, Returns tt)
           | VArray _ (k :: v :: _) :: rest =>
               match set k v this with
               | (this', Returns _) => each rest this'
               | thrown => thrown
               end
           | _ :: rest => each rest this
           end) items this
    | VObject _ props =>
        if is_plainObject key then
          (fold_left (fun m p => NativeMap.set (VString (fst p)) (snd p) m)
             props this, Returns tt)
        else (this, Returns tt)
    | _ => (this, Returns tt)
    end
  else (NativeMap.set key val this, Returns tt).

(** [get(search)] (lines 580-583): [super.get(search) ?? null]. *)
Definition get (search : value) (this : containor) : value :=
  match NativeMap.get search this with
  | VUndefined | VNull => VNull
  | result => result
  end.

(** The reducer of [addMap]: [(incoming, existing, key, containor)]. *)
Definition reducer : Type := value -> value -> value -> containor -> value.

(** A [for ... of] loop over a list, whose body changes a state and may
    throw, which ends the loop. *)
Fixpoint for_each {S A : Type} (body : A -> S -> S * result unit)
    (items : list A) (st : S) : S * result unit :=
  match items with
  | [] => (st, Returns tt)
  | x :: rest =>
      match body x st with
      | (st', Returns _) => for_each body rest st'
      | thrown => thrown
      end
  end.

(** [addMap(mapCombine, func)] (lines 452-476); [func] is [None] when the
    argument is not a function. *)
Definition addMap (mapCombine : value) (func : option reducer)
    (this : containor) : containor * result unit :=
  let transform : reducer :=
    match func with Some f => f | None => fun v _ _ _ => v end in
  match mapCombine with
  | VMap _ entries =>
      for_each (fun e this =>
                  set (fst e) (transform (snd e) (get (fst e) this) (fst e) this) this)
               entries this
  | VArray _ items =>
      for_each (fun entry this =>
                  match entry with
                  | VArray _ (k :: v :: _) =>
                      set k (transform v (get k this) k this) this
                  | _ => (this, Returns tt)
                  end)
               items this
  | VObject _ props =>
      if is_plainObject mapCombine then
        for_each (fun p this =>
                    let k := VString (fst p) in
                    set k (transform (snd p) (get k this) k this) this)
                 props this
      else (this, Returns tt)
  | _ => (this, Returns tt)
  end.

(** What [has] returns: a boolean for at most one key, else the sequence of
    per-key booleans with its two flags. *)
Inductive has_result : Type :=
| HasBool (b : bool)
| HasArray (results : list bool) (hasAll hasAny : bool).

(** [has(...keys)] (lines 604-613). *)
Definition has (keys : list value) (this : containor) : has_result :=
  match keys with
  | [] => HasBool false
  | [key] => HasBool (NativeMap.has key this)
  | _ =>
      let results := map (fun key => NativeMap.has key this) keys in
      HasArray results (forallb (fun b => b) results) (existsb (fun b => b) results)
  end.

(** The generator of [ensure]: [(key, containor)]. *)
Definition generator : Type := value -> containor -> value.

(** [ensure(key, valueGenerator, setDefault)] (lines 53-63);
    [valueGenerator] is [None] when the argument is not a function. *)
Definition ensure (key : value) (valueGenerator : option generator)
    (setDefault : bool) (this : containor) : containor * result value :=
  match has [key] this with
  | HasBool true => (this, Returns (get key this))
  | _ =>
      match valueGenerator with
      | None => (this, Throws GeneratorNotAFunction)
      | Some valueGenerator =>
          let generator := valueGenerator key this in
          if setDefault then
            let this := NativeMap.set key generator this in
            (this, Returns (get key this))
          else
            match set key generator this with
            | (this, Returns _) => (this, Returns (get key this))
            | (this, Throws e) => (this, Throws e)
            end
      end
  end.

(** [keys()] without a transform (line 643). *)
Definition keys (this : containor) : result ContainorArray.built :=
  ContainorArray.from (NativeMap.keys this).

(** [values()] without a transform (line 667). *)
Definition values (this : containor) : result ContainorArray.built :=
  ContainorArray.from (NativeMap.values this).

(** ** [delete] *)

(** The predicate of [delete], by the truth of what it returns:
    [(value, key, containor, deletedCount)]. *)
Definition predicate : Type := value -> value -> containor -> Z -> bool.

(** One call of the predicate: the arguments it was given. *)
Record predicate_call : Type := Call {
  call_value : value;
  call_key : value;
  call_containor : containor;
  call_deleted : Z
}.

Definition holds (func : predicate) (c : predicate_call) : bool :=
  func (call_value c) (call_key c) (call_containor c) (call_deleted c).

(** The loop of lines 544-549 over the entries of the map.  The body
    removes the entry the iterator is on and no other, so the entries still
    to come are those of the map when the loop began; the state is the live
    map, the count, and the calls made so far (kept for the proofs). *)
Fixpoint delete_where (func : predicate) (entries : list NativeMap.entry)
    (st : containor * Z * list predicate_call)
  : containor * Z * list predicate_call :=
  match entries with
  | [] => st
  | (key, val) :: rest =>
      let '(this, deleted, calls) := st in
      let calls := calls ++ [Call val key this deleted] in
      if func val key this deleted
      then delete_where func rest
             (fst (NativeMap.delete key this), deleted + 1, calls)
      else delete_where func rest (this, deleted, calls)
  end.

(** The loop of lines 551-556 over literal keys. *)
Fixpoint delete_keys (keys : list value) (st : containor * Z) : containor * Z :=
  match keys with
  | [] => st
  | key :: rest =>
      let (this, deleted) := st in
      if NativeMap.has key this
      then delete_keys rest (fst (NativeMap.delete key this), deleted + 1)
      else delete_keys rest (this, deleted)
  end.

Section Delete.

(** What the function object of a given identity does when it is called
    as the predicate of [delete]. *)
Variable behaviour : nat -> predicate.

(** [delete(...args)] (lines 529-560): the receiver afterwards and the
    value returned. *)
Definition delete (args : list value) (this : containor) : containor * value :=
  let first := nth 0 args VUndefined in
  if (List.length args =? 1)%nat && negb (is_function first) then
    let (this', result) := NativeMap.delete first this in
    (this', VBool result)
  else
    match first with
    | VFunction f =>
        let '(this', deleted, _) :=
          delete_where (behaviour f) this (this, 0, []) in
        (this', VNum deleted)
    | _ =>
        let (this', deleted) := delete_keys args (this, 0) in
        (this', VNum deleted)
    end.

(** The calls [delete] makes to its predicate. *)
Definition delete_calls (args : list value) (this : containor)
  : list predicate_call :=
  match args with
  | VFunction f :: _ => snd (delete_where (behaviour f) this (this, 0, []))
  | _ => []
  end.

End Delete.

(** ** [Containor.from] on an array of entries *)

(** The body of the loop of lines 742-747, without [mapFn]. *)
Definition from_entry (e : NativeMap.entry) (target : containor)
  : containor * result unit :=
  let (key, value) := e in
  match value with
  | VObject _ props =>
      if is_plainObject value && has_prop "key" props && has_prop "value" props
      then set (get_prop "key" props) (get_prop "value" props) target
      else set key value target
  | _ => set key value target
  end.

(** [Containor.from(source)] for [source] an array of [[key, value]] arrays
    and no [mapFn] (lines 738-749): what the new container holds. *)
Definition from_entries (source : list NativeMap.entry) : result containor :=
  match for_each from_entry source [] with
  | (target, Returns _) => Returns target
  | (_, Throws e) => Throws e
  end.

(** ** [first] and [last] *)

(** What [first] and [last] return: a [{key, value}] pair, [undefined], or
    a new container. *)
Inductive selection : Type :=
| Pair (key value : value)
| Nothing
| Several (c : containor).

(** [first(amount)] (lines 74-82); an omitted amount is [undefined]. *)
Definition first (amount : value) (this : containor) : result selection :=
  let entries := this in
  let amount : finite :=
    match as_finite amount with
    | Some amount => if Number.leb amount (Whole 0) then Whole 1 else amount
    | None => Whole 1
    end in
  let amount := Math.min (Whole (length this)) amount in
  let selected := NativeArray.slice (Some 0) (Some (Number.trunc amount)) entries in
  if Number.leb amount (Whole 1) then
    if Number.eqb amount (Whole 1) then
      match selected with
      | e :: _ => Returns (Pair (fst e) (snd e))
      | [] => Throws TypeError
      end
    else Returns Nothing
  else
    match from_entries selected with
    | Returns c => Returns (Several c)
    | Throws e => Throws e
    end.

(** [last(amount)] (lines 125-133). *)
Definition last (amount : value) (this : containor) : result selection :=
  let entries := this in
  let amount : finite :=
    match as_finite amount with
    | Some amount => if Number.leb amount (Whole 0) then Whole 1 else amount
    | None => Whole 1
    end in
  let amount := Math.min (Whole (length this)) amount in
  let selected :=
    NativeArray.slice (Some (Number.trunc (Number.opp amount))) None entries in
  if Number.leb amount (Whole 1) then
    if Number.eqb amount (Whole 1) then
      match selected with
      | e :: _ => Returns (Pair (fst e) (snd e))
      | [] => Throws TypeError
      end
    else Returns Nothing
  else
    match from_entries selected with
    | Returns c => Returns (Several c)
    | Throws e => Throws e
    end.

(** ** [sort] and [splice] *)

(** The loop [for (const [k, v] of entries) super.set(k, v)]. *)
Definition rebuild (entries : list NativeMap.entry) (this : containor) : containor :=
  fold_left (fun m e => NativeMap.set (fst e) (snd e) m) entries this.

(** The comparator of [sort], by the number it returns:
    [(a, b, keyA, keyB)]. *)
Definition comparator : Type := value -> value -> value -> value -> Z.

Definition compare_entries (func : comparator) (a b : NativeMap.entry) : Z :=
  func (snd a) (snd b) (fst a) (fst b).

(** [sort(func)] (lines 357-368); [func] is [None] when the argument is not
    a function. *)
Definition sort (func : option comparator) (this : containor)
  : containor * result unit :=
  match func with
  | None => (this, Throws NotAFunction)
  | Some func =>
      let entries := NativeArray.sort (compare_entries func) this in
      (rebuild entries (NativeMap.clear this), Returns tt)
  end.

(** [sort(func)] over an engine whose [Array.prototype.sort] is [arrange]:
    the same lines, with the engine left open. *)
Definition sort_with
    (arrange : (NativeMap.entry -> NativeMap.entry -> Z) ->
               list NativeMap.entry -> list NativeMap.entry)
    (func : option comparator) (this : containor)
  : containor * result unit :=
  match func with
  | None => (this, Throws NotAFunction)
  | Some func =>
      let entries := arrange (compare_entries func) this in
      (rebuild entries (NativeMap.clear this), Returns tt)
  end.

(** [splice(start, deleteCount, ...items)] (lines 399-412): the receiver
    afterwards and the container returned. *)
Definition splice (start : value) (deleteCount : option number)
    (items : list NativeMap.entry) (this : containor)
  : containor * result containor :=
  let entries := this in
  let size := length this in
  let start : finite :=
    match as_finite start with Some start => start | None => Whole 0 end in
  let start := if Number.ltb start (Whole 0) then Number.add size start else start in
  let start := if Number.ltb start (Whole 0) then Whole 0 else start in
  let start := if Number.ltb (Whole size) start then Whole size else start in
  let deleteCount : number :=
    match deleteCount with
    | None => Finite (Number.sub size start)
    | Some d =>
        if Number.gt d (Finite (Number.sub size start))
        then Finite (Number.sub size start)
        else d
    end in
  let (removedEntries, entries) :=
    NativeArray.splice (Number.to_integer (Finite start)) (Number.to_integer deleteCount)
      items entries in
  (rebuild entries (NativeMap.clear this), from_entries removedEntries).

(** ** The methods that build new containers, over the store of objects *)

(** The Containor objects alive, by address. *)
Definition store : Type := list containor.
Definition address : Type := nat.

Definition load (a : address) (s : store) : containor := nth a s [].

Definition write (a : address) (c : containor) (s : store) : store :=
  firstn a s ++ c :: skipn (S a) s.

(** [new Containor()]. *)
Definition alloc (s : store) : address * store := (List.length s, s ++ [[]]).

(** A method call on the object at an address. *)
Definition on {A : Type} (a : address)
    (method : containor -> containor * result A) (s : store)
  : store * result A :=
  let (c, r) := method (load a s) in (write a c s, r).

(** The callback of [filter] and [partition], by the truth of what it
    returns: [(value, key, containor)]. *)
Definition callback : Type := value -> value -> containor -> bool.

(** [filter(func)] (lines 252-259). *)
Definition filter (func : option callback) (this : address) (s : store)
  : store * result address :=
  match func with
  | None => (s, Throws NotAFunction)
  | Some func =>
      let (results, s) := alloc s in
      match
        for_each (fun e s =>
                    if func (snd e) (fst e) (load this s)
                    then on results (set (fst e) (snd e)) s
                    else (s, Returns tt))
                 (load this s) s
      with
      | (s, Returns _) => (s, Returns results)
      | (s, Throws e) => (s, Throws e)
      end
  end.

(** [partition(func)] (lines 270-281): the addresses of the two containers
    of the array returned. *)
Definition partition (func : option callback) (this : address) (s : store)
  : store * result (address * address) :=
  match func with
  | None => (s, Throws NotAFunction)
  | Some func =>
      let (results0, s) := alloc s in
      let (results1, s) := alloc s in
      match
        for_each (fun e s =>
                    if func (snd e) (fst e) (load this s)
                    then on results0 (set (fst e) (snd e)) s
                    else on results1 (set (fst e) (snd e)) s)
                 (load this s) s
      with
      | (s, Returns _) => (s, Returns (results0, results1))
      | (s, Throws e) => (s, Throws e)
      end
  end.

(** [Containor.from(source)] on an array of entries, as an allocation. *)
Definition from (source : list NativeMap.entry) (s : store)
  : store * result address :=
  let (target, s) := alloc s in
  match for_each (fun e s => on target (from_entry e) s) source s with
  | (s, Returns _) => (s, Returns target)
  | (s, Throws e) => (s, Throws e)
  end.

(** [slice(start, end)] (lines 381-384). *)
Definition slice (start end_ : option Z) (this : address) (s : store)
  : store * result address :=
  let entries := load this s in
  from (NativeArray.slice start end_ entries) s.

(** ** The queries over the entries *)

(** The loop of [find] (lines 237-239). *)
Fixpoint find_from (func : callback) (this : containor)
    (entries : list NativeMap.entry) : selection :=
  match entries with
  | [] => Nothing
  | (key, value) :: rest =>
      if func value key this then Pair key value
      else find_from func this rest
  end.

(** [find(func)] (lines 231-240); [func] is [None] when the argument is not
    a function. *)
Definition find (func : option callback) (this : containor) : result selection :=
  match func with
  | None => Throws NotAFunction
  | Some func => Returns (find_from func this this)
  end.

(** The loop of [some] (line 321). *)
Fixpoint some_from (func : callback) (this : containor)
    (entries : list NativeMap.entry) : bool :=
  match entries with
  | [] => false
  | (key, value) :: rest =>
      if func value key this then true else some_from func this rest
  end.

(** [some(func)] (lines 318-323). *)
Definition some (func : option callback) (this : containor) : result bool :=
  match func with
  | None => Throws NotAFunction
  | Some func => Returns (some_from func this this)
  end.

(** The loop of [every] (line 338). *)
Fixpoint every_from (func : callback) (this : containor)
    (entries : list NativeMap.entry) : bool :=
  match entries with
  | [] => true
  | (key, value) :: rest =>
      if negb (func value key this) then false else every_from func this rest
  end.

(** [every(func)] (lines 335-340). *)
Definition every (func : option callback) (this : containor) : result bool :=
  match func with
  | None => Throws NotAFunction
  | Some func => Returns (every_from func this this)
  end.

(** The function of [map]: [(value, key, containor)]. *)
Definition transform : Type := value -> value -> containor -> value.

(** [map(func)] (lines 298-306): [Array.from] calls the function once per
    entry, in order, and [ContainorArray.from] makes the sequence of what it
    returned. *)
Definition map (func : option transform) (this : containor)
  : result ContainorArray.built :=
  match func with
  | None => Throws NotAFunction
  | Some func =>
      ContainorArray.from (List.map (fun e => func (snd e) (fst e) this) this)
  end.

(** [Array.prototype.at(index)]: a negative index counts from the end. *)
Definition array_at {A : Type} (index : Z) (l : list A) : option A :=
  let len := Z.of_nat (List.length l) in
  let k := if 0 <=? index then index else len + index in
  if (k <? 0) || (len <=? k) then None else nth_error l (Z.to_nat k).

(** What [at] returns, or that it threw 'Index must be a number.' *)
Inductive at_result : Type :=
| At (s : selection)
| IndexNotANumber.

(** [at(index)] (lines 178-186). *)
Definition at_ (index : value) (this : containor) : at_result :=
  match as_finite index with
  | Some index =>
      let index := Z.min (length this - 1) (Math.floor index) in
      let index := Z.max (- length this) index in
      let entries := this in
      match array_at index entries with
      | None => At Nothing
      | Some at_ => At (Pair (fst at_) (snd at_))
      end
  | None => IndexNotANumber
  end.

(** [firstKeys(amount)] (lines 93-98). *)
Definition firstKeys (amount : value) (this : containor)
  : result ContainorArray.built :=
  let keys := NativeMap.keys this in
  let amount : finite :=
    match as_finite amount with
    | Some amount => if Number.leb amount (Whole 0) then Whole 1 else amount
    | None => Whole 1
    end in
  let amount := Math.min (Whole (length this)) amount in
  ContainorArray.from (NativeArray.slice (Some 0) (Some (Number.trunc amount)) keys).

(** [firstValues(amount)] (lines 109-114). *)
Definition firstValues (amount : value) (this : containor)
  : result ContainorArray.built :=
  let values := NativeMap.values this in
  let amount : finite :=
    match as_finite amount with
    | Some amount => if Number.leb amount (Whole 0) then Whole 1 else amount
    | None => Whole 1
    end in
  let amount := Math.min (Whole (length this)) amount in
  ContainorArray.from (NativeArray.slice (Some 0) (Some (Number.trunc amount)) values).

(** [lastKeys(amount)] (lines 144-149). *)
Definition lastKeys (amount : value) (this : containor)
  : result ContainorArray.built :=
  let keys := NativeMap.keys this in
  let amount : finite :=
    match as_finite amount with
    | Some amount => if Number.leb amount (Whole 0) then Whole 1 else amount
    | None => Whole 1
    end in
  let amount := Math.min (Whole (length this)) amount in
  ContainorArray.from
    (NativeArray.slice (Some (Number.trunc (Number.opp amount))) None keys).

(** [lastValues(amount)] (lines 161-166). *)
Definition lastValues (amount : value) (this : containor)
  : result ContainorArray.built :=
  let values := NativeMap.values this in
  let amount : finite :=
    match as_finite amount with
    | Some amount => if Number.leb amount (Whole 0) then Whole 1 else amount
    | None => Whole 1
    end in
  let amount := Math.min (Whole (length this)) amount in
  ContainorArray.from
    (NativeArray.slice (Some (Number.trunc (Number.opp amount))) None values).

(** ** The constructor, [clone] and [Containor.from] *)

(** What [!value] negates: the truth of a value. *)
Definition truthy (v : value) : bool :=
  match v with
  | VUndefined | VNull | VBool false | VNum 0 | VNonFinite NaN => false
  | VString s => negb (String.eqb s "")
  | _ => true
  end.

(** The result of a call on a new container: the container, unless the call
    threw. *)
Definition built_by (run : containor * result unit) : result containor :=
  match run with
  | (c, Returns _) => Returns c
  | (_, Throws e) => Throws e
  end.

(** [new Containor(value)] (lines 25-30).  ['containor' in value] throws the
    engine's [TypeError] on a primitive; of the objects, only a plain one
    can have the property. *)
Definition construct (value : value) : result containor :=
  if negb (truthy value) then Returns []
  else
    match value with
    | VObject _ props =>
        built_by (addMap (if has_prop "containor" props
                          then get_prop "containor" props
                          else value) None [])
    | VArray _ _ | VMap _ _ | VFunction _ | VStringObject _ _ | VOther _ =>
        built_by (addMap value None [])
    | _ => Throws TypeError
    end.

(** [clone()] (lines 685-687): [new Containor(this)], [id] being the
    identity of the receiver. *)
Definition clone (id : nat) (this : containor) : result containor :=
  construct (VMap id this).

(** The entries [source.map((v, i) => [i, v])] makes of bare values. *)
Fixpoint indexed (i : Z) (items : list value) : list NativeMap.entry :=
  match items with
  | [] => []
  | v :: rest => (VNum i, v) :: indexed (i + 1) rest
  end.

(** [[key, value]] taken out of an array. *)
Definition destructure (entry : value) : NativeMap.entry :=
  match entry with
  | VArray _ xs => (nth 0 xs VUndefined, nth 1 xs VUndefined)
  | _ => (VUndefined, VUndefined)
  end.

(** [Containor.from(source)] without [mapFn] (lines 733-777).  The loop of
    lines 759-764 runs over the whole numbers from 0 that are below
    [source.length], which are [Math.ceil] of it many. *)
Definition from_source (source : value) : result containor :=
  match source with
  | VUndefined | VNull => Returns []
  | VArray _ items =>
      let source :=
        if negb (forallb is_array items) then indexed 0 items
        else List.map destructure items in
      from_entries source
  | VMap _ entries =>
      built_by (for_each (fun e => set (fst e) (snd e)) entries [])
  | VObject _ props =>
      if is_plainObject source then
        match as_finite (get_prop "length" props) with
        | Some length =>
            built_by
              (for_each (fun i => set (VNum i) (VNum i))
                 (List.map Z.of_nat (seq 0 (Z.to_nat (Math.ceil length)))) [])
        | None =>
            built_by
              (for_each (fun p => set (VString (fst p)) (snd p)) props [])
        end
      else Throws TypeError
  | _ => Throws TypeError
  end.

End Containor.


(* ================================================================== *)
(** * The vocabulary of the specification *)

Module Spec.

(** The positions of a sequence, from 0. *)
Definition positions {A : Type} (l : list A) : list Z :=
  map Z.of_nat (seq 0 (List.length l)).

(** The elements of an array given by its slots, but for those at the given
    positions: the holes are gone as well. *)
Definition remove_positions {A : Type} (removed : list Z) (l : list (option A))
  : list A :=
  flat_map
    (fun p =>
       match snd p with
       | Some x => if existsb (Z.eqb (fst p)) removed then [] else [x]
       | None => []
       end)
    (combine (positions l) l).

(** The whole numbers among the numbers given. *)
Definition wholes (indices : list number) : list Z :=
  flat_map (fun x => match x with Finite (Whole n) => [n] | _ => [] end) indices.

(** An index that is out of the bounds of an array of length [len]: a
    number below 0, or one that is [len] or more.  [NaN] is neither. *)
Definition out_of_bounds (len : Z) (index : number) : bool :=
  match index with
  | Finite (Whole n) => (n <? 0) || (len <=? n)
  | Finite (Fraction w _) => (w <? 0) || (len <=? w)
  | NotFinite NaN => false
  | NotFinite _ => true
  end.

(** The entries of a map whose key is none of the given keys. *)
Definition without_keys (keys : list value) (m : NativeMap.t) : NativeMap.t :=
  List.filter (fun e => negb (existsb (value_eqb (fst e)) keys)) m.

(** The entry a call of the predicate of [delete] was made for. *)
Definition entry_of (c : Containor.predicate_call) : NativeMap.entry :=
  (Containor.call_key c, Containor.call_value c).

(** The calls for which the predicate held, and the others. *)
Definition accepted (func : Containor.predicate)
    (calls : list Containor.predicate_call) : list Containor.predicate_call :=
  List.filter (Containor.holds func) calls.

Definition rejected (func : Containor.predicate)
    (calls : list Containor.predicate_call) : list Containor.predicate_call :=
  List.filter (fun c => negb (Containor.holds func c)) calls.

(** A call [set(key, value)] that writes the one entry [key -> value]: the
    key is defined, and it is a string or a number or comes with a value. *)
Definition writes_entry (call : value * value) : bool :=
  negb (is_undefined (fst call))
  && (is_string (fst call) || is_number (fst call) || negb (is_undefined (snd call))).

(** A sequence of [set] calls, each given as its [(key, value)] arguments,
    up to the first that throws. *)
Definition set_all (calls : list (value * value)) (this : Containor.containor)
  : Containor.containor * result unit :=
  Containor.for_each (fun call => Containor.set (fst call) (snd call)) calls this.

(** The keys of a sequence that are not among [seen], each at its first
    occurrence. *)
Fixpoint first_occurrences (seen : list value) (keys : list value) : list value :=
  match keys with
  | [] => []
  | k :: rest =>
      if existsb (value_eqb k) seen then first_occurrences seen rest
      else k :: first_occurrences (k :: seen) rest
  end.

(** [l] is [l'] with some elements left out: the same relative order. *)
Inductive subsequence {A : Type} : list A -> list A -> Prop :=
| subsequence_nil : subsequence [] []
| subsequence_keep (x : A) (l l' : list A) :
    subsequence l l' -> subsequence (x :: l) (x :: l')
| subsequence_drop (x : A) (l l' : list A) :
    subsequence l l' -> subsequence l (x :: l').

(** [m'] has the keys of [m] where they were, and maybe more behind them. *)
Definition extends (m m' : NativeMap.t) : Prop :=
  exists added, map fst m' = map fst m ++ added.

(** An entry that [Containor.from] copies as it is: [set] writes it, and its
    value is not a plain object with a [key] and a [value] property, which
    [from] would take for the entry to write. *)
Definition copied_as_is (e : NativeMap.entry) : bool :=
  writes_entry e
  && negb match snd e with
          | VObject _ props =>
              is_plainObject (snd e)
              && has_prop "key" props && has_prop "value" props
          | _ => false
          end.

(** What [first] and [last] return when [Containor.from] builds their
    result from the entries selected. *)
Definition built_from (selected : list NativeMap.entry)
  : result Containor.selection :=
  match Containor.from_entries selected with
  | Returns c => Returns (Containor.Several c)
  | Throws e => Throws e
  end.

(** The [{key, value}] pair of the first entry, and of the last; [undefined]
    when there is none. *)
Definition single_first (this : Containor.containor) : Containor.selection :=
  match this with
  | [] => Containor.Nothing
  | e :: _ => Containor.Pair (fst e) (snd e)
  end.

Definition single_last (this : Containor.containor) : Containor.selection :=
  match rev this with
  | [] => Containor.Nothing
  | e :: _ => Containor.Pair (fst e) (snd e)
  end.

(** The amount [first] and [last] work with, before it is capped by the
    size. *)
Definition requested (amount : value) : finite :=
  match amount with
  | VNum n => if n <=? 0 then Whole 1 else Whole n
  | VFraction w p => if w <? 0 then Whole 1 else Fraction w p
  | _ => Whole 1
  end.




(** A consistent comparator, as [Array.prototype.sort] wants it: one of two
    elements comes before the other exactly when the other comes after it,
    and not coming after is transitive. *)
Definition consistent {A : Type} (compare : A -> A -> Z) : Prop :=
  (forall a b, compare a b < 0 <-> compare b a > 0) /\
  (forall a b c, compare a b <= 0 -> compare b c <= 0 -> compare a c <= 0).

(** A list in the order of a comparator: no element comes after one that
    follows it. *)
Definition ordered {A : Type} (compare : A -> A -> Z) (l : list A) : Prop :=
  StronglySorted (fun a b => compare a b <= 0) l.

(** A store that has what [s] had below address [n], and objects up to
    address [m]. *)
Definition keeps (n m : nat) (s s' : Containor.store) : Prop :=
  (m <= List.length s')%nat /\
  forall a, (a < n)%nat -> Containor.load a s' = Containor.load a s.

(** The position [at] reads: an index from 0 on is capped at the last
    position, a negative one counts from the end and stops at the first. *)
Definition at_position (index size : Z) : Z :=
  if 0 <=? index then Z.min index (size - 1) else Z.max (size + index) 0.

(** The [{key, value}] pair of an entry that may not be there. *)
Definition pair_of (e : option NativeMap.entry) : Containor.selection :=
  match e with
  | Some e => Containor.Pair (fst e) (snd e)
  | None => Containor.Nothing
  end.

(** A value that [Containor.from] takes for the entry to write: a plain
    object with a [key] and a [value] property. *)
Definition names_entry (v : value) : bool :=
  match v with
  | VObject _ props =>
      is_plainObject v && has_prop "key" props && has_prop "value" props
  | _ => false
  end.

(** Whether an entry goes to the container at address [r], when [dest]
    tells where each entry goes. *)
Definition goes_to (dest : NativeMap.entry -> option Containor.address)
    (r : Containor.address) (e : NativeMap.entry) : bool :=
  match dest e with
  | Some r' => Nat.eqb r' r
  | None => false
  end.


(** A sequence without its repeats: an element stays where it is when it is
    one to ignore, or when it occurs nowhere before that place. *)
Definition without_repeats (ignore items : list value) : list value :=
  map snd
    (List.filter
       (fun p => existsb (value_eqb (snd p)) ignore
                 || negb (existsb (value_eqb (snd p)) (firstn (fst p) items)))
       (combine (seq 0 (List.length items)) items)).


End Spec.

(** Well-formedness of a map that is written out. *)
Ltac solve_wf :=
  unfold NativeMap.wf; simpl;
  repeat (apply NoDup_cons; [ simpl; intuition discriminate | ]);
  apply NoDup_nil.

(* ================================================================== *)
(** * Facts about values *)

Section ValueInduction.

Variable P : value -> Prop.

Hypothesis base :
  forall v, (forall id items, v <> VArray id items) ->
            (forall id props, v <> VObject id props) ->
            (forall id entries, v <> VMap id entries) -> P v.
Hypothesis array_case :
  forall id items, Forall P items -> P (VArray id items).
Hypothesis object_case :
  forall id props, Forall (fun p => P (snd p)) props -> P (VObject id props).
Hypothesis map_case :
  forall id entries, Forall (fun e => P (fst e) /\ P (snd e)) entries ->
                     P (VMap id entries).

(** Induction over a value and the values inside it. *)
Fixpoint value_nested_ind (v : value) : P v.
Proof.
  destruct v as [ | | b | n | w p | x | s | id s | id | id items | id props
                | id entries | id ].
  1-9, 13: apply base; discriminate.
  - apply array_case. induction items as [ | x items IH ]; constructor.
    + apply value_nested_ind.
    + exact IH.
  - apply object_case. induction props as [ | [k x] props IH ]; constructor.
    + apply value_nested_ind.
    + exact IH.
  - apply map_case. induction entries as [ | [k x] entries IH ]; constructor.
    + split; apply value_nested_ind.
    + exact IH.
Defined.

End ValueInduction.

Lemma nonfinite_eqb_eq (x y : nonfinite) : nonfinite_eqb x y = true <-> x = y.
Proof. destruct x, y; simpl; split; congruence. Qed.

(** [value_eqb] decides equality. *)
Lemma value_eqb_eq (a b : value) : value_eqb a b = true <-> a = b.
Proof.
  revert b. induction a as [ a Ha Ho Hm | id items IH | id props IH | id entries IH ]
    using value_nested_ind; intros b.
  - destruct a;
      try (exfalso; first [ eapply Ha; reflexivity | eapply Ho; reflexivity
                          | eapply Hm; reflexivity ]);
      destruct b; simpl; try (split; congruence).
    + rewrite Bool.eqb_true_iff. split; congruence.
    + rewrite Z.eqb_eq. split; congruence.
    + rewrite andb_true_iff, Z.eqb_eq, Pos.eqb_eq.
      split; [ intros [-> ->]; reflexivity | intros [= -> ->]; auto ].
    + rewrite nonfinite_eqb_eq. split; congruence.
    + rewrite String.eqb_eq. split; congruence.
    + rewrite andb_true_iff, Nat.eqb_eq, String.eqb_eq.
      split; [ intros [-> ->]; reflexivity | intros [= -> ->]; auto ].
    + rewrite Nat.eqb_eq. split; congruence.
    + rewrite Nat.eqb_eq. split; congruence.
  - destruct b; simpl; try (split; congruence).
    rewrite andb_true_iff, Nat.eqb_eq.
    enough (E : forall ys,
      (fix items_eqb (xs ys : list value) {struct xs} : bool :=
         match xs, ys with
         | [], [] => true
         | x :: xs', y :: ys' => value_eqb x y && items_eqb xs' ys'
         | _, _ => false
         end) items ys = true <-> items = ys).
    { rewrite E. split; [ intros [-> ->]; reflexivity | intros [= -> ->]; auto ]. }
    induction IH as [ | x xs Hx _ IHxs ]; intros [ | y ys ]; try (split; congruence).
    rewrite andb_true_iff, Hx, IHxs.
    split; [ intros [-> ->]; reflexivity | intros [= -> ->]; auto ].
  - destruct b; simpl; try (split; congruence).
    rewrite andb_true_iff, Nat.eqb_eq.
    enough (E : forall ys,
      (fix props_eqb (xs ys : list (string * value)) {struct xs} : bool :=
         match xs, ys with
         | [], [] => true
         | (k, x) :: xs', (l, y) :: ys' =>
             String.eqb k l && value_eqb x y && props_eqb xs' ys'
         | _, _ => false
         end) props ys = true <-> props = ys).
    { rewrite E. split; [ intros [-> ->]; reflexivity | intros [= -> ->]; auto ]. }
    induction IH as [ | [k x] xs Hx _ IHxs ]; intros [ | [l y] ys ];
      try (split; congruence).
    simpl in Hx.
    rewrite !andb_true_iff, String.eqb_eq, Hx, IHxs.
    split; [ intros [[-> ->] ->]; reflexivity | intros [= -> -> ->]; auto ].
  - destruct b; simpl; try (split; congruence).
    rewrite andb_true_iff, Nat.eqb_eq.
    enough (E : forall ys,
      (fix entries_eqb (xs ys : list (value * value)) {struct xs} : bool :=
         match xs, ys with
         | [], [] => true
         | (k, x) :: xs', (l, y) :: ys' =>
             value_eqb k l && value_eqb x y && entries_eqb xs' ys'
         | _, _ => false
         end) entries ys = true <-> entries = ys).
    { rewrite E. split; [ intros [-> ->]; reflexivity | intros [= -> ->]; auto ]. }
    induction IH as [ | [k x] xs [Hk Hx] _ IHxs ]; intros [ | [l y] ys ];
      try (split; congruence).
    simpl in Hk, Hx.
    rewrite !andb_true_iff, Hk, Hx, IHxs.
    split; [ intros [[-> ->] ->]; reflexivity | intros [= -> -> ->]; auto ].
Qed.

Lemma value_eqb_refl (a : value) : value_eqb a a = true.
Proof. apply value_eqb_eq. reflexivity. Qed.

Lemma value_eqb_neq (a b : value) : value_eqb a b = false <-> a <> b.
Proof.
  rewrite <- value_eqb_eq. destruct (value_eqb a b); split; congruence.
Qed.

Lemma value_eq_dec (a b : value) : {a = b} + {a <> b}.
Proof.
  destruct (value_eqb a b) eqn:E.
  - left. apply value_eqb_eq, E.
  - right. apply value_eqb_neq, E.
Defined.

(* ================================================================== *)
(** * Facts about the native map *)

Lemma key_is_true (k : value) (e : NativeMap.entry) :
  NativeMap.key_is k e = true <-> fst e = k.
Proof. unfold NativeMap.key_is. apply value_eqb_eq. Qed.

Lemma key_is_false (k : value) (e : NativeMap.entry) :
  NativeMap.key_is k e = false <-> fst e <> k.
Proof. unfold NativeMap.key_is. apply value_eqb_neq. Qed.

Lemma has_In (k : value) (m : NativeMap.t) :
  NativeMap.has k m = true <-> In k (map fst m).
Proof.
  unfold NativeMap.has. rewrite existsb_exists, in_map_iff.
  split; intros [e [H1 H2]]; exists e.
  - apply key_is_true in H2. auto.
  - split; [ exact H2 | apply key_is_true, H1 ].
Qed.

Lemma has_not_In (k : value) (m : NativeMap.t) :
  NativeMap.has k m = false <-> ~ In k (map fst m).
Proof.
  rewrite <- has_In. destruct (NativeMap.has k m); split; congruence.
Qed.

Lemma has_cons (k : value) (e : NativeMap.entry) (m : NativeMap.t) :
  NativeMap.has k (e :: m) = NativeMap.key_is k e || NativeMap.has k m.
Proof. reflexivity. Qed.

Lemma has_app (k : value) (m1 m2 : NativeMap.t) :
  NativeMap.has k (m1 ++ m2) = NativeMap.has k m1 || NativeMap.has k m2.
Proof. unfold NativeMap.has. apply existsb_app. Qed.

(** A new key goes to the end. *)
Lemma set_absent (k v : value) (m : NativeMap.t) :
  NativeMap.has k m = false -> NativeMap.set k v m = m ++ [(k, v)].
Proof.
  induction m as [ | e m IH ]; intros H; simpl; [ reflexivity | ].
  rewrite has_cons in H. apply orb_false_iff in H as [H1 H2].
  rewrite H1, IH by exact H2. reflexivity.
Qed.

(** A key that is there keeps its place: the keys do not change. *)
Lemma keys_set_present (k v : value) (m : NativeMap.t) :
  NativeMap.has k m = true -> map fst (NativeMap.set k v m) = map fst m.
Proof.
  induction m as [ | e m IH ]; intros H; simpl; [ discriminate | ].
  destruct (NativeMap.key_is k e) eqn:E; simpl.
  - reflexivity.
  - f_equal. apply IH. rewrite has_cons, E in H. exact H.
Qed.

Lemma keys_set (k v : value) (m : NativeMap.t) :
  map fst (NativeMap.set k v m) =
  if NativeMap.has k m then map fst m else map fst m ++ [k].
Proof.
  destruct (NativeMap.has k m) eqn:E.
  - apply keys_set_present, E.
  - rewrite set_absent by exact E. rewrite map_app. reflexivity.
Qed.

Lemma length_set (k v : value) (m : NativeMap.t) :
  List.length (NativeMap.set k v m) =
  if NativeMap.has k m then List.length m else S (List.length m).
Proof.
  destruct (NativeMap.has k m) eqn:E.
  - pose proof (keys_set_present k v m E) as H.
    apply (f_equal (@List.length value)) in H. rewrite !length_map in H. exact H.
  - rewrite set_absent by exact E. rewrite length_app. simpl. lia.
Qed.

Lemma has_set_same (k v : value) (m : NativeMap.t) :
  NativeMap.has k (NativeMap.set k v m) = true.
Proof.
  apply has_In. rewrite keys_set. destruct (NativeMap.has k m) eqn:E.
  - apply has_In, E.
  - apply in_or_app. right. left. reflexivity.
Qed.

Lemma get_set_same (k v : value) (m : NativeMap.t) :
  NativeMap.get k (NativeMap.set k v m) = v.
Proof.
  unfold NativeMap.get. induction m as [ | e m IH ]; simpl.
  - unfold NativeMap.key_is. simpl. rewrite value_eqb_refl. reflexivity.
  - destruct (NativeMap.key_is k e) eqn:E; simpl.
    + apply key_is_true in E. unfold NativeMap.key_is at 1. simpl.
      rewrite E, value_eqb_refl. reflexivity.
    + rewrite E. exact IH.
Qed.

Lemma get_absent (k : value) (m : NativeMap.t) :
  NativeMap.has k m = false -> NativeMap.get k m = VUndefined.
Proof.
  unfold NativeMap.get, NativeMap.has. induction m as [ | e m IH ]; simpl.
  - reflexivity.
  - intros H. apply orb_false_iff in H as [H1 H2]. rewrite H1. apply IH, H2.
Qed.

Lemma wf_set (k v : value) (m : NativeMap.t) :
  NativeMap.wf m -> NativeMap.wf (NativeMap.set k v m).
Proof.
  unfold NativeMap.wf. intros H. rewrite keys_set.
  destruct (NativeMap.has k m) eqn:E; [ exact H | ].
  apply has_not_In in E.
  apply NoDup_app; [ exact H | repeat constructor; intros [] | ].
  intros x Hx [<- | []]. exact (E Hx).
Qed.

Lemma delete_absent (k : value) (m : NativeMap.t) :
  NativeMap.has k m = false -> NativeMap.delete k m = (m, false).
Proof.
  unfold NativeMap.delete. intros H. rewrite H. f_equal.
  induction m as [ | e m IH ]; simpl; [ reflexivity | ].
  rewrite has_cons in H. apply orb_false_iff in H as [H1 H2].
  rewrite H1. simpl. f_equal. apply IH, H2.
Qed.

(** Deleting a key of a well-formed map takes out one entry, that of the
    key, and leaves the others where they are. *)
Lemma delete_present (k : value) (m : NativeMap.t) :
  NativeMap.wf m -> NativeMap.has k m = true ->
  exists m1 v m2,
    m = m1 ++ (k, v) :: m2 /\ NativeMap.delete k m = (m1 ++ m2, true).
Proof.
  unfold NativeMap.delete, NativeMap.wf. intros Hwf H. rewrite H.
  induction m as [ | [k' v'] m IH ]; [ discriminate | ].
  simpl in Hwf. apply NoDup_cons_iff in Hwf as [Hk' Hwf].
  rewrite has_cons in H. simpl.
  destruct (NativeMap.key_is k (k', v')) eqn:E; simpl.
  - apply key_is_true in E. simpl in E. subst k'.
    exists [], v', m. split; [ reflexivity | ]. simpl. f_equal.
    apply has_not_In, delete_absent in Hk'. unfold NativeMap.delete in Hk'.
    injection Hk' as Hf _. exact Hf.
  - destruct (IH Hwf H) as (m1 & v & m2 & -> & Hd).
    exists ((k', v') :: m1), v, m2. split; [ reflexivity | ].
    simpl. injection Hd as Hd. rewrite Hd. reflexivity.
Qed.

Lemma keys_delete (k : value) (m : NativeMap.t) :
  map fst (fst (NativeMap.delete k m)) =
  List.filter (fun x => negb (value_eqb x k)) (map fst m).
Proof.
  unfold NativeMap.delete. simpl. induction m as [ | e m IH ]; simpl.
  - reflexivity.
  - unfold NativeMap.key_is at 1. destruct (value_eqb (fst e) k); simpl; congruence.
Qed.

Lemma wf_filter (f : NativeMap.entry -> bool) (m : NativeMap.t) :
  NativeMap.wf m -> NativeMap.wf (List.filter f m).
Proof.
  unfold NativeMap.wf. induction m as [ | e m IH ]; simpl; intros H.
  - constructor.
  - apply NoDup_cons_iff in H as [H1 H2]. destruct (f e); simpl; auto.
    constructor; auto. intros Hin. apply H1.
    apply in_map_iff in Hin as [x [Hx Hin]]. apply filter_In in Hin as [Hin _].
    apply in_map_iff. exists x. auto.
Qed.

Lemma wf_delete (k : value) (m : NativeMap.t) :
  NativeMap.wf m -> NativeMap.wf (fst (NativeMap.delete k m)).
Proof. apply wf_filter. Qed.

Lemma has_delete_same (k : value) (m : NativeMap.t) :
  NativeMap.has k (fst (NativeMap.delete k m)) = false.
Proof.
  apply has_not_In. rewrite keys_delete. intros H.
  apply filter_In in H as [_ H]. rewrite value_eqb_refl in H. discriminate.
Qed.

Lemma has_delete_other (k k' : value) (m : NativeMap.t) :
  k' <> k ->
  NativeMap.has k' (fst (NativeMap.delete k m)) = NativeMap.has k' m.
Proof.
  intros Hne. apply eq_true_iff_eq. rewrite !has_In, keys_delete, filter_In.
  split; [ tauto | ]. intros H. split; [ exact H | ].
  apply negb_true_iff, value_eqb_neq, Hne.
Qed.

(* ================================================================== *)
(** * [set], [get] and [has] *)

(** With a key and a value that are both defined, [set] is the native one. *)
Lemma set_defined (k v : value) (this : Containor.containor) :
  k <> VUndefined -> v <> VUndefined ->
  Containor.set k v this = (NativeMap.set k v this, Returns tt).
Proof.
  intros Hk Hv. destruct k; try congruence; destruct v; try congruence; reflexivity.
Qed.

Lemma get_never_undefined (search : value) (this : Containor.containor) :
  Containor.get search this <> VUndefined.
Proof.
  unfold Containor.get. destruct (NativeMap.get search this); discriminate.
Qed.

(** C3 (as amended).  For every key [k] that is not in the container,
    [has(k)] is [false] and [get(k)] is [null].  When neither [k] nor [v] is
    [undefined], [set(k, v)] returns normally, and afterwards [has(k)] is
    [true] and [get(k)] is [v].  [get] never returns [undefined]; a key whose
    stored value is [null] or [undefined] reads [null], as an absent key
    does. *)
Theorem get_after_set (this : Containor.containor) (k v : value) :
  ~ In k (NativeMap.keys this) ->
  Containor.has [k] this = Containor.HasBool false /\
  Containor.get k this = VNull /\
  (k <> VUndefined -> v <> VUndefined ->
   exists this',
     Containor.set k v this = (this', Returns tt) /\
     Containor.has [k] this' = Containor.HasBool true /\
     Containor.get k this' = v) /\
  (forall search, Containor.get search this <> VUndefined) /\
  (forall stored,
      NativeMap.get stored this = VNull \/ NativeMap.get stored this = VUndefined ->
      Containor.get stored this = Containor.get k this).
Proof.
  intros Hin. apply has_not_In in Hin.
  assert (Hget : Containor.get k this = VNull).
  { unfold Containor.get. rewrite get_absent by exact Hin. reflexivity. }
  split; [ simpl; rewrite Hin; reflexivity | ].
  split; [ exact Hget | ].
  split; [ | split ].
  - intros Hk Hv.
    exists (NativeMap.set k v this). split; [ apply set_defined; assumption | ].
    split.
    + simpl. rewrite has_set_same. reflexivity.
    + unfold Containor.get. rewrite get_set_same. destruct v; congruence.
  - intros search. apply get_never_undefined.
  - intros stored [H | H]; rewrite Hget; unfold Containor.get; rewrite H; reflexivity.
Qed.

Lemma get_after_set_witness :
  let this := [(VString "a", VNum 1)] in
  exists this',
    Containor.set (VString "b") (VNum 2) this = (this', Returns tt) /\
    Containor.has [VString "b"] this' = Containor.HasBool true /\
    Containor.get (VString "b") this' = VNum 2.
Proof.
  refine (proj1 (proj2 (proj2
    (get_after_set [(VString "a", VNum 1)] (VString "b") (VNum 2) _))) _ _).
  - simpl. intros [H | []]. discriminate H.
  - discriminate.
  - discriminate.
Defined.

(** C3 as stated fails: a key that stores [null] and a key that is absent
    read the same, and a stored [undefined] is not read back. *)
Lemma get_conflates_stored_null :
  let this := fst (Containor.set (VString "a") VNull []) in
  let other := fst (Containor.set (VString "a") VUndefined []) in
  In (VString "a") (NativeMap.keys this) /\
  ~ In (VString "b") (NativeMap.keys this) /\
  Containor.get (VString "a") this = Containor.get (VString "b") this /\
  Containor.has [VString "a"] other = Containor.HasBool true /\
  Containor.get (VString "a") other <> VUndefined.
Proof.
  simpl. repeat split.
  - left. reflexivity.
  - intros [H | []]. discriminate H.
  - discriminate.
Qed.

(** C9.  [has()] with no key returns [false]: it neither throws nor returns
    a sequence of booleans. *)
Theorem has_no_key (this : Containor.containor) :
  Containor.has [] this = Containor.HasBool false.
Proof. reflexivity. Qed.

(* ================================================================== *)
(** * The sequence: [deleteAt] and [removeDuplicates] *)

Lemma number_eqb_eq (x y : number) : number_eqb x y = true <-> x = y.
Proof.
  destruct x as [ [ n | w p ] | [ | | ] ], y as [ [ m | v q ] | [ | | ] ]; simpl;
    try (split; congruence).
  - rewrite Z.eqb_eq. split; congruence.
  - rewrite andb_true_iff, Z.eqb_eq, Pos.eqb_eq.
    split; [ intros [-> ->]; reflexivity | intros [= -> ->]; auto ].
Qed.

Lemma find_app_none {A : Type} (f : A -> bool) (l1 l2 : list A) :
  find f l1 = None -> find f (l1 ++ l2) = find f l2.
Proof.
  induction l1 as [ | x l1 IH ]; simpl; [ reflexivity | ].
  destruct (f x); [ discriminate | exact IH ].
Qed.

Section SetOfList.

Context {A : Type} (eqb : A -> A -> bool).
Hypothesis eqb_eq : forall x y, eqb x y = true <-> x = y.

Lemma set_has_In (x : A) (s : list A) : NativeSet.has eqb x s = true <-> In x s.
Proof.
  unfold NativeSet.has. rewrite existsb_exists. split.
  - intros [y [Hy E]]. apply eqb_eq in E. subst. exact Hy.
  - intros H. exists x. split; [ exact H | apply eqb_eq; reflexivity ].
Qed.

Lemma of_list_acc (l acc : list A) :
  NoDup acc ->
  let s := fold_left (fun s x => if NativeSet.has eqb x s then s else s ++ [x]) l acc in
  NoDup s /\ (forall x, In x s <-> In x acc \/ In x l).
Proof.
  revert acc. induction l as [ | y l IH ]; intros acc Hacc; simpl.
  - split; [ exact Hacc | intros x; tauto ].
  - destruct (NativeSet.has eqb y acc) eqn:E.
    + destruct (IH acc Hacc) as [H1 H2]. split; [ exact H1 | ].
      intros x. rewrite H2. apply set_has_In in E.
      split; [ tauto | ]. intros [H | [<- | H]]; auto.
    + assert (Hy : ~ In y acc).
      { intros H. apply set_has_In in H. congruence. }
      assert (Hacc' : NoDup (acc ++ [y])).
      { apply NoDup_app; [ exact Hacc | repeat constructor; intros [] | ].
        intros x Hx [<- | []]. exact (Hy Hx). }
      destruct (IH _ Hacc') as [H1 H2]. split; [ exact H1 | ].
      intros x. rewrite H2, in_app_iff. simpl. tauto.
Qed.

(** [new Set(items)] holds the elements of [items], each once. *)
Lemma of_list_spec (l : list A) :
  NoDup (NativeSet.of_list eqb l) /\
  (forall x, In x (NativeSet.of_list eqb l) <-> In x l).
Proof.
  destruct (of_list_acc l [] (NoDup_nil _)) as [H1 H2]. split; [ exact H1 | ].
  intros x. unfold NativeSet.of_list. rewrite H2. simpl. tauto.
Qed.

(** The set keeps its elements in the order they first came in: the first
    element that satisfies a test is the first of the items that does. *)
Lemma find_of_list_acc (f : A -> bool) (l acc : list A) :
  find f acc = None ->
  find f (fold_left (fun s x => if NativeSet.has eqb x s then s else s ++ [x]) l acc)
  = find f l.
Proof.
  revert acc. induction l as [ | y l IH ]; intros acc Hacc; simpl.
  - exact Hacc.
  - destruct (NativeSet.has eqb y acc) eqn:E.
    + apply set_has_In in E. rewrite (find_none _ _ Hacc y E). apply IH, Hacc.
    + destruct (f y) eqn:Ey.
      * clear IH.
        assert (Hpre : forall l acc', find f acc' = Some y ->
                  find f (fold_left
                            (fun s x => if NativeSet.has eqb x s then s else s ++ [x])
                            l acc') = Some y).
        { clear. induction l as [ | z l IH ]; intros acc' H; simpl; [ exact H | ].
          apply IH. destruct (NativeSet.has eqb z acc'); [ exact H | ].
          clear IH. induction acc' as [ | a acc' IHa ]; simpl in *; [ discriminate | ].
          destruct (f a); [ exact H | apply IHa, H ]. }
        apply Hpre. rewrite find_app_none by exact Hacc. simpl. rewrite Ey.
        reflexivity.
      * apply IH. rewrite find_app_none by exact Hacc. simpl. rewrite Ey.
        reflexivity.
Qed.

Lemma find_of_list (f : A -> bool) (l : list A) :
  find f (NativeSet.of_list eqb l) = find f l.
Proof. apply find_of_list_acc. reflexivity. Qed.

End SetOfList.

(** Cases on the comparisons of whole numbers in a goal. *)
Ltac compare_cases :=
  repeat match goal with
         | |- context [?a ?= ?b] => destruct (Z.compare_spec a b)
         | |- context [?a <? ?b] => destruct (Z.ltb_spec a b)
         | |- context [?a <=? ?b] => destruct (Z.leb_spec a b)
         | |- context [?a =? ?b] => destruct (Z.eqb_spec a b)
         end;
  simpl; try reflexivity; try lia.

(** The test of the loop of [deleteAt] is that of the specification. *)
Lemma bounds_check (len : Z) (index : number) :
  Number.lt index (whole 0) || Number.ge index (whole len)
  = Spec.out_of_bounds len index.
Proof.
  destruct index as [ [ n | w p ] | [ | | ] ]; try reflexivity;
    unfold Number.lt, Number.ge, whole, Spec.out_of_bounds; simpl; compare_cases.
Qed.

Lemma In_wholes (n : Z) (indices : list number) :
  In n (Spec.wholes indices) <-> In (whole n) indices.
Proof.
  unfold Spec.wholes. rewrite in_flat_map. split.
  - intros [x [Hx Hn]]. destruct x as [ [ m | w p ] | x ]; simpl in Hn;
      try contradiction.
    destruct Hn as [<- | []]. exact Hx.
  - intros H. exists (whole n). split; [ exact H | left; reflexivity ].
Qed.

Lemma filter_from_spec {A : Type} (keep : A -> Z -> bool) (l : list (option A))
    (n : nat) :
  NativeArray.filter_from (Z.of_nat n) keep l =
  flat_map
    (fun p => match snd p with
              | Some x => if keep x (fst p) then [x] else []
              | None => []
              end)
    (combine (map Z.of_nat (seq n (List.length l))) l).
Proof.
  revert n. induction l as [ | [ x | ] l IH ]; intros n; simpl; [ reflexivity | | ];
    replace (Z.of_nat n + 1) with (Z.of_nat (S n)) by lia; rewrite IH.
  - destruct (keep x (Z.of_nat n)); reflexivity.
  - reflexivity.
Qed.

(** The elements kept by [deleteAt] are those the specification keeps. *)
Lemma filteri_remove_positions (removeArr : list number)
    (this : ContainorArray.slots) :
  NativeArray.filteri
    (fun _ idx =>
       negb (NativeSet.has number_eqb (whole idx)
               (NativeSet.of_list number_eqb removeArr)))
    this
  = Spec.remove_positions (Spec.wholes removeArr) this.
Proof.
  unfold NativeArray.filteri, Spec.remove_positions, Spec.positions.
  rewrite (filter_from_spec _ this 0). apply flat_map_ext.
  intros [i [ x | ]]; simpl; [ | reflexivity ].
  replace (NativeSet.has number_eqb (whole i) (NativeSet.of_list number_eqb removeArr))
    with (existsb (Z.eqb i) (Spec.wholes removeArr)).
  - destruct (existsb (Z.eqb i) (Spec.wholes removeArr)); reflexivity.
  - apply eq_true_iff_eq.
    rewrite (set_has_In number_eqb number_eqb_eq),
      (proj2 (of_list_spec number_eqb number_eqb_eq removeArr)),
      existsb_exists, <- In_wholes.
    split.
    + intros [j [Hj E]]. apply Z.eqb_eq in E. subst. exact Hj.
    + intros H. exists i. split; [ exact H | apply Z.eqb_refl ].
Qed.

Lemma In_positions {A : Type} (l : list A) (i : Z) :
  In i (Spec.positions l) <-> 0 <= i < Z.of_nat (List.length l).
Proof.
  unfold Spec.positions. rewrite in_map_iff. split.
  - intros [n [<- Hn]]. apply in_seq in Hn. lia.
  - intros H. exists (Z.to_nat i). split; [ lia | apply in_seq; lia ].
Qed.

Lemma NoDup_positions {A : Type} (l : list A) : NoDup (Spec.positions l).
Proof.
  unfold Spec.positions. apply Finite.Injective_map_NoDup.
  - intros x y H. lia.
  - apply seq_NoDup.
Qed.

Lemma length_filter_combine {A B : Type} (f : A -> bool) (xs : list A) (ys : list B) :
  List.length xs = List.length ys ->
  List.length (List.filter (fun p => f (fst p)) (combine xs ys)) =
  List.length (List.filter f xs).
Proof.
  revert ys. induction xs as [ | x xs IH ]; intros [ | y ys ] H; simpl in *;
    try reflexivity; try discriminate.
  destruct (f x); simpl; rewrite IH by lia; reflexivity.
Qed.

(** On an array without holes, the elements left are those at the other
    positions. *)
Lemma remove_positions_dense (removed : list Z) (items : list value) :
  Spec.remove_positions removed (ContainorArray.dense items)
  = map snd
      (List.filter (fun p => negb (existsb (Z.eqb (fst p)) removed))
         (combine (Spec.positions items) items)).
Proof.
  unfold Spec.remove_positions, Spec.positions, ContainorArray.dense.
  rewrite length_map. generalize (map Z.of_nat (seq 0 (List.length items))).
  induction items as [ | x items IH ]; intros [ | i indices ]; simpl;
    try reflexivity.
  rewrite IH. destruct (existsb (Z.eqb i) removed); reflexivity.
Qed.

(** Removing positions that are all in range from an array without holes
    takes out as many elements as there are distinct positions. *)
Lemma length_remove_positions (removed : list Z) (items : list value) :
  Forall (fun i => 0 <= i < Z.of_nat (List.length items)) removed ->
  (List.length (Spec.remove_positions removed (ContainorArray.dense items))
   + List.length (nodup Z.eq_dec removed) = List.length items)%nat.
Proof.
  intros Hrange. rewrite remove_positions_dense.
  set (mem := fun i : Z => existsb (Z.eqb i) removed).
  assert (Hpos : List.length (Spec.positions items) = List.length items).
  { unfold Spec.positions. rewrite length_map, length_seq. reflexivity. }
  rewrite length_map.
  pose proof (length_filter_combine (fun i => negb (mem i)) (Spec.positions items)
                items Hpos) as Hcomb.
  unfold mem in Hcomb at 1. cbv beta in Hcomb. rewrite Hcomb. clear Hcomb.
  assert (Hperm : Permutation (List.filter mem (Spec.positions items))
                              (nodup Z.eq_dec removed)).
  { apply NoDup_Permutation.
    - apply NoDup_filter, NoDup_positions.
    - apply NoDup_nodup.
    - intros i. rewrite filter_In, nodup_In, In_positions. unfold mem.
      rewrite existsb_exists. split.
      + intros [_ [j [Hj E]]]. apply Z.eqb_eq in E. subst. exact Hj.
      + intros H. split.
        * rewrite Forall_forall in Hrange. apply Hrange, H.
        * exists i. split; [ exact H | apply Z.eqb_refl ]. }
  rewrite <- (Permutation_length Hperm).
  pose proof (filter_length mem (Spec.positions items)) as Hlen.
  lia.
Qed.

(** The first index that is out of bounds, in the order given. *)
Lemma find_first {A : Type} (f : A -> bool) (before after : list A) (x : A) :
  Forall (fun i => f i = false) before -> f x = true ->
  find f (before ++ x :: after) = Some x.
Proof.
  intros Hbefore Hx. rewrite find_app_none.
  - simpl. rewrite Hx. reflexivity.
  - induction Hbefore as [ | i before Hi _ IH ]; simpl; [ reflexivity | ].
    rewrite Hi. exact IH.
Qed.

Lemma find_none_Forall {A : Type} (f : A -> bool) (l : list A) :
  Forall (fun i => f i = false) l -> find f l = None.
Proof.
  induction 1 as [ | i l Hi _ IH ]; simpl; [ reflexivity | ].
  rewrite Hi. exact IH.
Qed.

(** C8 (as amended).  An index is refused when it is a number below 0 or
    one that is the length or more: for a whole number, when it is outside
    [[0, length)]; [NaN] is not refused.  With a refused index among those
    given, [deleteAt] throws the out-of-bounds error for the first such
    index and the sequence is what it was.  With indices none of which is
    refused, it returns normally and the sequence holds the elements it
    had but for those at the whole numbers among the indices, each position
    taken out once however often it is given; an index that is [NaN] or a
    fraction takes out nothing, and the empty slots of the sequence are
    gone.  On a sequence without empty slots the result is shorter by the
    number of distinct whole indices.  With no index at all the sequence is
    left as it is. *)
Theorem deleteAt_all_or_nothing (removeArr : list number)
    (this : ContainorArray.slots) :
  let len := Z.of_nat (List.length this) in
  let refused := Spec.out_of_bounds len in
  (forall n, refused (whole n) = true <-> ~ 0 <= n < len) /\
  (forall w p, refused (Finite (Fraction w p)) = true <-> ~ 0 <= w < len) /\
  refused (NotFinite NaN) = false /\
  (forall before index after,
     removeArr = before ++ index :: after ->
     Forall (fun i => refused i = false) before ->
     refused index = true ->
     ContainorArray.deleteAt removeArr this
       = (this, Throws (IndexOutOfBounds index))) /\
  (removeArr <> [] ->
   Forall (fun i => refused i = false) removeArr ->
   ContainorArray.deleteAt removeArr this
     = (ContainorArray.dense
          (Spec.remove_positions (Spec.wholes removeArr) this),
        Returns tt) /\
   forall items,
     this = ContainorArray.dense items ->
     (List.length (Spec.remove_positions (Spec.wholes removeArr) this)
      + List.length (nodup Z.eq_dec (Spec.wholes removeArr))
      = List.length items)%nat) /\
  ContainorArray.deleteAt [] this = (this, Returns tt).
Proof.
  intros len refused.
  assert (Hwhole : forall n, refused (whole n) = true <-> ~ 0 <= n < len).
  { intros n. unfold refused, Spec.out_of_bounds, whole.
    rewrite orb_true_iff, Z.ltb_lt, Z.leb_le. lia. }
  assert (Hfind :
    find (fun index =>
            Number.lt index (whole 0)
            || Number.ge index (whole (Z.of_nat (List.length this))))
         (NativeSet.of_list number_eqb removeArr)
    = find refused removeArr).
  { rewrite (find_of_list number_eqb number_eqb_eq).
    clear. induction removeArr as [ | i rest IH ]; simpl; [ reflexivity | ].
    rewrite bounds_check, IH. reflexivity. }
  split; [ exact Hwhole | ].
  split.
  { intros w p. unfold refused, Spec.out_of_bounds.
    rewrite orb_true_iff, Z.ltb_lt, Z.leb_le. lia. }
  split; [ reflexivity | ].
  split; [ | split; [ | reflexivity ] ].
  - intros before index after Hsplit Hbefore Hindex.
    unfold ContainorArray.deleteAt.
    destruct removeArr as [ | i rest ];
      [ destruct before; discriminate Hsplit | ].
    rewrite Hfind, Hsplit, (find_first refused before after index Hbefore Hindex).
    reflexivity.
  - intros Hsome Hall. split.
    + unfold ContainorArray.deleteAt.
      destruct removeArr as [ | i rest ]; [ contradiction Hsome; reflexivity | ].
      rewrite Hfind, (find_none_Forall refused _ Hall).
      rewrite filteri_remove_positions. reflexivity.
    + intros items ->. apply length_remove_positions.
      apply Forall_forall. intros n Hn. apply In_wholes in Hn.
      rewrite Forall_forall in Hall. specialize (Hall _ Hn).
      unfold len, ContainorArray.dense in Hwhole. rewrite length_map in Hwhole.
      destruct (Z_lt_dec n 0) as [Hneg | Hpos];
        [ | destruct (Z_lt_dec n (Z.of_nat (List.length items))) as [Hin | Hout];
            [ lia | ] ];
        exfalso; assert (Hr : refused (whole n) = true) by (apply Hwhole; lia);
        congruence.
Qed.

Lemma deleteAt_all_or_nothing_witness :
  let this :=
    ContainorArray.dense [VString "a"; VString "b"; VString "c"; VString "d"] in
  ContainorArray.deleteAt [whole 1; whole 1; whole 3] this
    = (ContainorArray.dense [VString "a"; VString "c"], Returns tt) /\
  ContainorArray.deleteAt [whole 0; whole 7; whole (-1)] this
    = (this, Throws (IndexOutOfBounds (whole 7))).
Proof.
  split.
  - refine (proj1 (proj1 (proj2 (proj2 (proj2 (proj2
      (deleteAt_all_or_nothing [whole 1; whole 1; whole 3]
         (ContainorArray.dense
            [VString "a"; VString "b"; VString "c"; VString "d"])))))) _ _)).
    + discriminate.
    + repeat constructor.
  - refine (proj1 (proj2 (proj2 (proj2
      (deleteAt_all_or_nothing [whole 0; whole 7; whole (-1)]
         (ContainorArray.dense
            [VString "a"; VString "b"; VString "c"; VString "d"])))))
      [whole 0] (whole 7) [whole (-1)] eq_refl _ eq_refl).
    repeat constructor.
Defined.

(** C8 as stated fails for an index that is no position and is not refused
    either: with [NaN], and with a fraction inside the bounds, [deleteAt]
    does not throw, and it removes nothing.  It also fails on a sequence
    with empty slots, which go with the element removed. *)
Lemma deleteAt_of_no_position :
  let this := ContainorArray.dense [VString "a"; VString "b"] in
  ContainorArray.deleteAt [NotFinite NaN] this = (this, Returns tt) /\
  ContainorArray.deleteAt [Finite (Fraction 0 1)] this = (this, Returns tt) /\
  ContainorArray.deleteAt [whole 1]
    [Some (VString "a"); Some (VString "b"); None; Some (VString "c")]
  = (ContainorArray.dense [VString "a"; VString "c"], Returns tt).
Proof. repeat split. Qed.

(** C4, at the input of the claim.  Called with no argument,
    [removeDuplicates] reads the default source, a new empty array, and
    leaves the sequence [1, 2, 2, 3, 1] empty. *)
Theorem removeDuplicates_without_source :
  ContainorArray.removeDuplicates ContainorArray.Omitted []
    [VNum 1; VNum 2; VNum 2; VNum 3; VNum 1] = [].
Proof. reflexivity. Qed.

(** The same with the receiver given as its own source, and what the call
    makes of a copy of it. *)
Lemma removeDuplicates_of_itself :
  let this := [VNum 1; VNum 2; VNum 2; VNum 3; VNum 1] in
  ContainorArray.removeDuplicates ContainorArray.This [] this = [] /\
  ContainorArray.removeDuplicates (ContainorArray.Another this) [] this
    = [VNum 1; VNum 2; VNum 3] /\
  ContainorArray.removeDuplicates (ContainorArray.Another this) [VNum 2] this
    = [VNum 1; VNum 2; VNum 2; VNum 3].
Proof. repeat split. Qed.

(** Whatever the sequence, two elements or more and no source leave it
    empty. *)
Lemma removeDuplicates_default_empties (ignore : list value)
    (this : ContainorArray.containorArray) :
  (2 <= List.length this)%nat ->
  ContainorArray.removeDuplicates ContainorArray.Omitted ignore this = [].
Proof.
  intros H. unfold ContainorArray.removeDuplicates.
  destruct (Z.of_nat (List.length this) <=? 1) eqn:E; [ lia | reflexivity ].
Qed.

(* ================================================================== *)
(** * [delete] *)

Lemma filter_id {A : Type} (f : A -> bool) (l : list A) :
  (forall x, In x l -> f x = true) -> List.filter f l = l.
Proof.
  induction l as [ | x l IH ]; intros H; simpl; [ reflexivity | ].
  rewrite (H x (or_introl eq_refl)). f_equal. apply IH.
  intros y Hy. apply H. right. exact Hy.
Qed.

(** In a well-formed map, deleting the key of an entry takes out that entry
    and nothing else. *)
Lemma delete_middle (kept rest : NativeMap.t) (key val : value) :
  NativeMap.wf (kept ++ (key, val) :: rest) ->
  fst (NativeMap.delete key (kept ++ (key, val) :: rest)) = kept ++ rest.
Proof.
  unfold NativeMap.wf, NativeMap.delete. simpl. intros H.
  rewrite map_app in H. simpl in H. apply NoDup_remove_2 in H.
  rewrite filter_app. simpl. unfold NativeMap.key_is at 2. simpl.
  rewrite value_eqb_refl. simpl.
  rewrite !filter_id; [ reflexivity | | ];
    intros e He; apply negb_true_iff, key_is_false; intros E; apply H;
    apply in_or_app; [ right | left ]; rewrite <- E; apply in_map, He.
Qed.

Lemma wf_app_cons_move (kept rest : NativeMap.t) (e : NativeMap.entry) :
  (kept ++ [e]) ++ rest = kept ++ e :: rest.
Proof. rewrite <- app_assoc. reflexivity. Qed.

Lemma wf_remove_middle (kept rest : NativeMap.t) (e : NativeMap.entry) :
  NativeMap.wf (kept ++ e :: rest) -> NativeMap.wf (kept ++ rest).
Proof.
  unfold NativeMap.wf. rewrite !map_app. simpl. apply NoDup_remove_1.
Qed.

(** The loop of [delete] with a predicate: the invariant it keeps. *)
Lemma delete_where_spec (func : Containor.predicate) (todo : NativeMap.t) :
  forall (kept : NativeMap.t) (d : Z) (calls : list Containor.predicate_call),
    NativeMap.wf (kept ++ todo) ->
    exists made,
      Containor.delete_where func todo (kept ++ todo, d, calls)
        = (kept ++ map Spec.entry_of (Spec.rejected func made),
           d + Z.of_nat (List.length (Spec.accepted func made)),
           calls ++ made) /\
      map Spec.entry_of made = todo /\
      (forall pre c post,
          made = pre ++ c :: post ->
          Containor.call_deleted c
            = d + Z.of_nat (List.length (Spec.accepted func pre)) /\
          Containor.call_containor c
            = kept ++ map Spec.entry_of (Spec.rejected func pre)
                   ++ map Spec.entry_of (c :: post)).
Proof.
  induction todo as [ | [key val] rest IH ]; intros kept d calls Hwf.
  - exists []. simpl. rewrite Z.add_0_r, !app_nil_r.
    split; [ reflexivity | split; [ reflexivity | ] ].
    intros [ | ? ? ] c post H; discriminate H.
  - set (c0 := Containor.Call val key (kept ++ (key, val) :: rest) d).
    assert (Hc0 : Containor.holds func c0
                  = func val key (kept ++ (key, val) :: rest) d) by reflexivity.
    cbn [Containor.delete_where]. fold c0.
    match goal with
    | |- context [if ?b then _ else _] => change b with (Containor.holds func c0)
    end.
    clear Hc0.
    destruct (Containor.holds func c0) eqn:E.
    + rewrite delete_middle by exact Hwf.
      destruct (IH kept (d + 1) (calls ++ [c0]) (wf_remove_middle _ _ _ Hwf))
        as (made & Hrun & Hmade & Hcalls).
      exists (c0 :: made). unfold Spec.accepted, Spec.rejected in *.
      cbn [List.filter]. rewrite E. cbn [negb map List.length].
      split; [ | split ].
      * etransitivity; [ exact Hrun | ].
        rewrite <- app_assoc. cbn [app]. f_equal. f_equal. lia.
      * unfold Spec.entry_of at 1. simpl. rewrite Hmade. reflexivity.
      * intros [ | c' pre ] c post H; injection H as <- H.
        -- simpl. split; [ lia | ]. subst made.
           change (map Spec.entry_of (c0 :: post))
             with ((key, val) :: map Spec.entry_of post).
           rewrite <- Hmade at 1. reflexivity.
        -- destruct (Hcalls pre c post H) as [H1 H2].
           cbn [List.filter]. rewrite E. cbn [negb List.length].
           split; [ rewrite H1; lia | exact H2 ].
    + rewrite <- wf_app_cons_move in Hwf |- *.
      destruct (IH (kept ++ [(key, val)]) d (calls ++ [c0]) Hwf)
        as (made & Hrun & Hmade & Hcalls).
      rewrite wf_app_cons_move in Hrun |- *.
      exists (c0 :: made). unfold Spec.accepted, Spec.rejected in *.
      cbn [List.filter]. rewrite E. cbn [negb map List.length].
      split; [ | split ].
      * etransitivity; [ exact Hrun | ].
        rewrite <- !app_assoc. reflexivity.
      * unfold Spec.entry_of at 1. simpl. rewrite Hmade. reflexivity.
      * intros [ | c' pre ] c post H; injection H as <- H.
        -- simpl. split; [ lia | ]. subst made.
           change (map Spec.entry_of (c0 :: post))
             with ((key, val) :: map Spec.entry_of post).
           rewrite <- Hmade at 1. reflexivity.
        -- destruct (Hcalls pre c post H) as [H1 H2].
           cbn [List.filter]. rewrite E. cbn [negb map List.length].
           split; [ exact H1 | ].
           rewrite H2, <- !app_assoc. reflexivity.
Qed.

Lemma without_keys_cons (key : value) (keys : list value) (m : NativeMap.t) :
  Spec.without_keys (key :: keys) m
  = Spec.without_keys keys (fst (NativeMap.delete key m)).
Proof.
  unfold Spec.without_keys, NativeMap.delete, NativeMap.key_is. cbn [fst].
  induction m as [ | e m IH ]; [ reflexivity | ].
  simpl in *. destruct (value_eqb (fst e) key); simpl.
  - exact IH.
  - destruct (existsb (value_eqb (fst e)) keys); simpl; rewrite IH; reflexivity.
Qed.

(** The loop of [delete] over literal keys. *)
Lemma delete_keys_spec (keys : list value) :
  forall (this : Containor.containor) (d : Z),
    NativeMap.wf this ->
    Containor.delete_keys keys (this, d)
    = (Spec.without_keys keys this,
       d + (Containor.length this - Containor.length (Spec.without_keys keys this))).
Proof.
  induction keys as [ | key keys IH ]; intros this d Hwf.
  - cbn [Containor.delete_keys]. unfold Spec.without_keys. cbn [existsb negb].
    rewrite filter_id by reflexivity. f_equal. lia.
  - cbn [Containor.delete_keys]. rewrite without_keys_cons.
    destruct (NativeMap.has key this) eqn:E.
    + rewrite IH by (apply wf_delete, Hwf). f_equal.
      destruct (delete_present key this Hwf E) as (m1 & v & m2 & -> & Hd).
      rewrite Hd. cbn [fst]. unfold Containor.length.
      rewrite !length_app. cbn [List.length]. lia.
    + rewrite delete_absent by exact E. cbn [fst]. apply IH, Hwf.
Qed.

(** C1 (as amended).  On a container [this]:
    - [delete(k)] with one key that is not a function removes the entry of
      [k] and returns [true] when [k] is present, the length going down by
      exactly 1, and returns [false] leaving the container as it is when [k]
      is absent;
    - [delete(...keys)] with no key, or with two keys or more the first of
      which is not a function, removes each given key that is present and
      returns the count of removed entries;
    - [delete(predicate)] calls the predicate once per entry, in iteration
      order, with the count of removals made so far as fourth argument and
      the container as it is by then as third, removes the entries for which
      it held, and returns how many these were. *)
Theorem delete_removes (behaviour : nat -> Containor.predicate)
    (this : Containor.containor) :
  NativeMap.wf this ->
  (forall k, is_function k = false ->
     (In k (NativeMap.keys this) ->
      exists before v after,
        this = before ++ (k, v) :: after /\
        Containor.delete behaviour [k] this = (before ++ after, VBool true) /\
        Containor.length (before ++ after) = Containor.length this - 1) /\
     (~ In k (NativeMap.keys this) ->
      Containor.delete behaviour [k] this = (this, VBool false))) /\
  (forall args,
     List.length args <> 1%nat -> is_function (nth 0 args VUndefined) = false ->
     Containor.delete behaviour args this
     = (Spec.without_keys args this,
        VNum (Containor.length this
              - Containor.length (Spec.without_keys args this)))) /\
  (forall f rest,
     let calls := Containor.delete_calls behaviour (VFunction f :: rest) this in
     map Spec.entry_of calls = this /\
     (forall pre c post,
        calls = pre ++ c :: post ->
        Containor.call_deleted c
          = Z.of_nat (List.length (Spec.accepted (behaviour f) pre)) /\
        Containor.call_containor c
          = map Spec.entry_of (Spec.rejected (behaviour f) pre)
              ++ map Spec.entry_of (c :: post)) /\
     Containor.delete behaviour (VFunction f :: rest) this
     = (map Spec.entry_of (Spec.rejected (behaviour f) calls),
        VNum (Z.of_nat (List.length (Spec.accepted (behaviour f) calls))))).
Proof.
  intros Hwf. split; [ | split ].
  - intros k Hk. split.
    + intros Hin. apply has_In in Hin.
      destruct (delete_present k this Hwf Hin) as (m1 & v & m2 & -> & Hd).
      exists m1, v, m2. split; [ reflexivity | ]. split.
      * unfold Containor.delete. cbn [List.length nth Nat.eqb].
        rewrite Hk. cbn [negb andb]. rewrite Hd. reflexivity.
      * unfold Containor.length. rewrite !length_app. cbn [List.length]. lia.
    + intros Hin. apply has_not_In in Hin.
      unfold Containor.delete. cbn [List.length nth Nat.eqb].
      rewrite Hk. cbn [negb andb]. rewrite delete_absent by exact Hin. reflexivity.
  - intros args Hlen Hfirst. unfold Containor.delete.
    apply Nat.eqb_neq in Hlen. rewrite Hlen. cbn [andb].
    rewrite (delete_keys_spec args this 0 Hwf).
    destruct (nth 0 args VUndefined); try discriminate Hfirst; reflexivity.
  - intros f rest calls.
    destruct (delete_where_spec (behaviour f) this [] 0 [] Hwf)
      as (made & Hrun & Hmade & Hcalls).
    cbn [app] in Hrun, Hcalls.
    assert (Hc : calls = made).
    { exact (f_equal snd Hrun). }
    rewrite Hc. split; [ exact Hmade | split ].
    + intros pre c post H. destruct (Hcalls pre c post H) as [H1 H2].
      split; [ rewrite H1; lia | exact H2 ].
    + unfold Containor.delete. cbn [nth is_function negb andb].
      rewrite andb_false_r.
      match goal with
      | |- context [Containor.delete_where ?p ?todo ?st] =>
          replace (Containor.delete_where p todo st) with
            (map Spec.entry_of (Spec.rejected (behaviour f) made),
             0 + Z.of_nat (List.length (Spec.accepted (behaviour f) made)),
             made) by (symmetry; exact Hrun)
      end.
      reflexivity.
Qed.

Lemma delete_removes_witness :
  let this := [(VString "a", VNum 1); (VString "b", VNum 2); (VString "c", VNum 3)] in
  let behaviour : nat -> Containor.predicate := fun _ _ _ _ d => d <? 1 in
  NativeMap.wf this /\
  Containor.delete behaviour [VString "a"; VString "z"; VString "c"] this
    = ([(VString "b", VNum 2)], VNum 2) /\
  Containor.delete behaviour [VFunction 0] this
    = ([(VString "b", VNum 2); (VString "c", VNum 3)], VNum 1).
Proof.
  intros this behaviour.
  assert (Hwf : NativeMap.wf this) by solve_wf.
  split; [ exact Hwf | ]. split.
  - refine (proj1 (proj2 (delete_removes behaviour this Hwf))
              [VString "a"; VString "z"; VString "c"] _ _).
    + simpl. lia.
    + reflexivity.
  - exact (proj2 (proj2 (proj2 (proj2 (delete_removes behaviour this Hwf)) 0%nat []))).
Defined.

(** C1 as stated fails for one literal key: the call returns a boolean, not
    the count of removed entries. *)
Lemma delete_one_key_returns_boolean :
  let this := [(VString "a", VNum 1)] in
  let behaviour : nat -> Containor.predicate := fun _ _ _ _ _ => false in
  Containor.delete behaviour [VString "a"] this = ([], VBool true) /\
  snd (Containor.delete behaviour [VString "a"] this) <> VNum 1 /\
  Containor.delete behaviour [VString "b"] this = (this, VBool false) /\
  snd (Containor.delete behaviour [VString "b"] this) <> VNum 0.
Proof. simpl. repeat split; discriminate. Qed.

(* ================================================================== *)
(** * [set] and the order of insertion *)

Lemma for_each_total {S A : Type} (f : A -> S -> S) (l : list A) (st : S) :
  Containor.for_each (fun x st => (f x st, Returns tt)) l st
  = (fold_left (fun st x => f x st) l st, Returns tt).
Proof.
  revert st. induction l as [ | x l IH ]; intros st; simpl; [ reflexivity | apply IH ].
Qed.

Lemma for_each_ext {S A : Type} (f g : A -> S -> S * result unit) (l : list A) (st : S) :
  (forall x st, In x l -> f x st = g x st) ->
  Containor.for_each f l st = Containor.for_each g l st.
Proof.
  revert st. induction l as [ | x l IH ]; intros st H; simpl; [ reflexivity | ].
  rewrite (H x st (or_introl eq_refl)).
  destruct (g x st) as [st' [ [] | e ]]; [ | reflexivity ].
  apply IH. intros y st'' Hy. apply H. right. exact Hy.
Qed.

Lemma for_each_app {S A : Type} (f : A -> S -> S * result unit)
    (l1 l2 : list A) (st : S) :
  Containor.for_each f (l1 ++ l2) st
  = match Containor.for_each f l1 st with
    | (st', Returns _) => Containor.for_each f l2 st'
    | thrown => thrown
    end.
Proof.
  revert st. induction l1 as [ | x l1 IH ]; intros st; simpl; [ reflexivity | ].
  destruct (f x st) as [st' [ [] | e ]]; [ apply IH | reflexivity ].
Qed.

(** The merge branch of [set] is [addMap] without a reducer. *)
Lemma set_unfold (key val : value) (this : Containor.containor) :
  Containor.set key val this
  = if is_undefined key then (this, Throws KeyUndefined)
    else if negb (is_string key) && negb (is_number key) && is_undefined val
         then Containor.addMap key None this
         else (NativeMap.set key val this, Returns tt).
Proof.
  destruct key; try reflexivity; destruct val; try reflexivity.
  - (* an array *)
    cbn [Containor.set is_undefined is_string is_number negb andb Containor.addMap].
    revert this. induction items as [ | entry items IH ]; intros this; [ reflexivity | ].
    cbn [Containor.for_each].
    destruct entry as [ | | | | | | | | | id' [ | k [ | v rest ] ] | | | ];
      try apply IH.
    destruct (Containor.set k v this) as [this' [ [] | e ]]; [ apply IH | reflexivity ].
  - (* an object *)
    cbn [Containor.set is_undefined is_string is_number negb andb Containor.addMap].
    destruct (is_plainObject (VObject id props)); [ | reflexivity ].
    rewrite <- (for_each_total (fun p m => NativeMap.set (VString (fst p)) (snd p) m)).
    apply for_each_ext. intros [k v] st _. reflexivity.
  - (* a map *)
    cbn [Containor.set is_undefined is_string is_number negb andb Containor.addMap].
    revert this. induction entries as [ | [k v] entries IH ]; intros this;
      [ reflexivity | ].
    cbn [Containor.for_each fst snd].
    destruct (Containor.set k v this) as [this' [ [] | e ]]; [ apply IH | reflexivity ].
Qed.

Lemma set_writes_entry (key val : value) (this : Containor.containor) :
  Spec.writes_entry (key, val) = true ->
  Containor.set key val this = (NativeMap.set key val this, Returns tt).
Proof.
  unfold Spec.writes_entry. cbn [fst snd]. intros H. rewrite set_unfold.
  apply andb_true_iff in H as [H1 H2]. apply negb_true_iff in H1. rewrite H1.
  destruct (is_string key), (is_number key), (is_undefined val);
    try discriminate; reflexivity.
Qed.

Lemma extends_refl (m : NativeMap.t) : Spec.extends m m.
Proof. exists []. rewrite app_nil_r. reflexivity. Qed.

Lemma extends_trans (m1 m2 m3 : NativeMap.t) :
  Spec.extends m1 m2 -> Spec.extends m2 m3 -> Spec.extends m1 m3.
Proof.
  intros [a H1] [b H2]. exists (a ++ b). rewrite H2, H1, app_assoc. reflexivity.
Qed.

Lemma extends_native_set (k v : value) (m : NativeMap.t) :
  Spec.extends m (NativeMap.set k v m).
Proof.
  unfold Spec.extends. rewrite keys_set. destruct (NativeMap.has k m).
  - exists []. rewrite app_nil_r. reflexivity.
  - exists [k]. reflexivity.
Qed.

Lemma for_each_extends {A : Type}
    (body : A -> Containor.containor -> Containor.containor * result unit)
    (l : list A) :
  (forall x st, In x l -> Spec.extends st (fst (body x st))) ->
  forall st, Spec.extends st (fst (Containor.for_each body l st)).
Proof.
  induction l as [ | x l IH ]; intros H st; simpl; [ apply extends_refl | ].
  pose proof (H x st (or_introl eq_refl)) as Hx.
  destruct (body x st) as [st' [ [] | e ]]; simpl in Hx; [ | exact Hx ].
  apply (extends_trans _ _ _ Hx). apply IH.
  intros y st'' Hy. apply H. right. exact Hy.
Qed.

(** Whatever its arguments, and also when it throws, [set] leaves the keys
    that were there where they were. *)
Lemma set_extends (key : value) :
  forall (val : value) (this : Containor.containor),
    Spec.extends this (fst (Containor.set key val this)).
Proof.
  set (P := fun key => forall val this,
                Spec.extends this (fst (Containor.set key val this))).
  enough (H : P key /\ match key with
                       | VArray _ (k :: _ :: _) => P k
                       | _ => True
                       end) by exact (proj1 H).
  induction key as [ key Ha Ho Hm | id items IH | id props IH | id entries IH ]
    using value_nested_ind.
  - split.
    + intros val this. rewrite set_unfold.
      destruct (is_undefined key); [ apply extends_refl | ].
      destruct (negb (is_string key) && negb (is_number key) && is_undefined val);
        [ | apply extends_native_set ].
      destruct key; try apply extends_refl; exfalso;
        first [ eapply Ha; reflexivity | eapply Ho; reflexivity
              | eapply Hm; reflexivity ].
    + destruct key; try exact I. exfalso. eapply Ha. reflexivity.
  - split.
    + intros val this. rewrite set_unfold.
      cbn [is_undefined is_string is_number negb andb].
      destruct (is_undefined val); [ | apply extends_native_set ].
      cbn [Containor.addMap]. apply for_each_extends.
      intros entry st Hin. rewrite Forall_forall in IH.
      destruct (IH entry Hin) as [_ Hentry].
      destruct entry as [ | | | | | | | | | id' [ | k [ | v rest ] ] | | | ];
        try apply extends_refl.
      apply Hentry.
    + destruct items as [ | k [ | v rest ] ]; try exact I.
      apply Forall_inv in IH. exact (proj1 IH).
  - split; [ | exact I ].
    intros val this. rewrite set_unfold. cbn [is_undefined is_string is_number negb andb].
    destruct (is_undefined val); [ | apply extends_native_set ].
    cbn [Containor.addMap].
    destruct (is_plainObject (VObject id props)); [ | apply extends_refl ].
    apply for_each_extends.
    intros [k v] st _. cbn [fst snd]. apply extends_native_set.
  - split; [ | exact I ].
    intros val this. rewrite set_unfold. cbn [is_undefined is_string is_number negb andb].
    destruct (is_undefined val); [ | apply extends_native_set ].
    cbn [Containor.addMap]. apply for_each_extends.
    intros e st Hin. rewrite Forall_forall in IH.
    destruct (IH e Hin) as [[He _] _]. apply He.
Qed.

Lemma existsb_keys (k : value) (m : NativeMap.t) :
  existsb (value_eqb k) (map fst m) = NativeMap.has k m.
Proof.
  apply eq_true_iff_eq. rewrite has_In, existsb_exists. split.
  - intros [x [Hx E]]. apply value_eqb_eq in E. subst. exact Hx.
  - intros H. exists k. split; [ exact H | apply value_eqb_refl ].
Qed.

Lemma first_occurrences_ext (seen seen' keys : list value) :
  (forall x, In x seen <-> In x seen') ->
  Spec.first_occurrences seen keys = Spec.first_occurrences seen' keys.
Proof.
  revert seen seen'. induction keys as [ | k keys IH ]; intros seen seen' H; simpl.
  - reflexivity.
  - assert (E : existsb (value_eqb k) seen = existsb (value_eqb k) seen').
    { apply eq_true_iff_eq. rewrite !existsb_exists.
      split; intros [x [Hx Ex]]; exists x; split; try exact Ex; apply H, Hx. }
    rewrite E. destruct (existsb (value_eqb k) seen').
    + apply IH, H.
    + f_equal. apply IH. intros x. simpl. rewrite H. tauto.
Qed.

(** Writing entries one after the other: the keys that were there stay, the
    new ones follow in the order of their first writing. *)
Lemma keys_rebuild (entries : list NativeMap.entry) :
  forall this : Containor.containor,
    map fst (Containor.rebuild entries this)
    = map fst this ++ Spec.first_occurrences (map fst this) (map fst entries).
Proof.
  unfold Containor.rebuild.
  induction entries as [ | [k v] entries IH ]; intros this; simpl.
  - rewrite app_nil_r. reflexivity.
  - rewrite IH, keys_set, existsb_keys. destruct (NativeMap.has k this).
    + reflexivity.
    + rewrite <- app_assoc. simpl. do 2 f_equal.
      apply first_occurrences_ext. intros x. rewrite in_app_iff. simpl. tauto.
Qed.

Lemma set_all_writes (calls : list (value * value)) (this : Containor.containor) :
  forallb Spec.writes_entry calls = true ->
  Spec.set_all calls this = (Containor.rebuild calls this, Returns tt).
Proof.
  intros H. unfold Spec.set_all, Containor.rebuild.
  rewrite <- (for_each_total (fun e m => NativeMap.set (fst e) (snd e) m)).
  apply for_each_ext. intros [k v] st Hin. cbn [fst snd].
  apply set_writes_entry. rewrite forallb_forall in H. apply H, Hin.
Qed.

Lemma subsequence_refl {A : Type} (l : list A) : Spec.subsequence l l.
Proof. induction l; constructor; assumption. Qed.

Lemma subsequence_filter {A : Type} (f : A -> bool) (l : list A) :
  Spec.subsequence (List.filter f l) l.
Proof.
  induction l as [ | x l IH ]; simpl; [ constructor | ].
  destruct (f x); constructor; exact IH.
Qed.

Lemma subsequence_map {A B : Type} (f : A -> B) (l l' : list A) :
  Spec.subsequence l l' -> Spec.subsequence (map f l) (map f l').
Proof. induction 1; simpl; constructor; assumption. Qed.

(** [delete] leaves the entries it keeps in the order they were in. *)
Lemma delete_subsequence (behaviour : nat -> Containor.predicate)
    (args : list value) (this : Containor.containor) :
  NativeMap.wf this ->
  Spec.subsequence (fst (Containor.delete behaviour args this)) this.
Proof.
  intros Hwf. unfold Containor.delete.
  destruct ((List.length args =? 1)%nat && negb (is_function (nth 0 args VUndefined)))
    eqn:E.
  - unfold NativeMap.delete. cbn [fst]. apply subsequence_filter.
  - destruct (nth 0 args VUndefined) eqn:Efirst;
      try (rewrite (delete_keys_spec args this 0 Hwf); cbn [fst];
           apply subsequence_filter).
    destruct args as [ | first rest ]; [ discriminate Efirst | ].
    cbn [nth] in Efirst. subst first.
    destruct (delete_where_spec (behaviour id) this [] 0 [] Hwf)
      as (made & Hrun & Hmade & _).
    cbn [app] in Hrun.
    match goal with
    | |- context [Containor.delete_where ?p ?todo ?st] =>
        replace (Containor.delete_where p todo st) with
          (map Spec.entry_of (Spec.rejected (behaviour id) made),
           0 + Z.of_nat (List.length (Spec.accepted (behaviour id) made)),
           made) by (symmetry; exact Hrun)
    end.
    cbn [fst]. rewrite <- Hmade. apply subsequence_map, subsequence_filter.
Qed.

Lemma addMap_extends (mapCombine : value) (func : option Containor.reducer)
    (this : Containor.containor) :
  Spec.extends this (fst (Containor.addMap mapCombine func this)).
Proof.
  unfold Containor.addMap. destruct mapCombine; try apply extends_refl;
    try (destruct (is_plainObject _); [ | apply extends_refl ]);
    apply for_each_extends; intros x st _.
  - destruct x as [ | | | | | | | | | id' [ | k [ | v rest ] ] | | | ];
      try apply extends_refl.
    apply set_extends.
  - apply set_extends.
  - apply set_extends.
Qed.

Lemma ensure_extends (key : value) (valueGenerator : option Containor.generator)
    (setDefault : bool) (this : Containor.containor) :
  Spec.extends this (fst (Containor.ensure key valueGenerator setDefault this)).
Proof.
  unfold Containor.ensure. cbn [Containor.has].
  destruct (NativeMap.has key this); [ apply extends_refl | ].
  destruct valueGenerator as [ g | ]; [ | apply extends_refl ].
  destruct setDefault; cbn [fst]; [ apply extends_native_set | ].
  pose proof (set_extends key (g key this) this) as H.
  destruct (Containor.set key (g key this) this) as [this' [ [] | e ]]; exact H.
Qed.

(** The order of the map under a container.  Along any sequence of [set]
    calls, whatever their arguments and also when one throws, the keys a
    container has at some point are still at the same positions later, the
    keys inserted since coming behind them.  When every call writes its one
    entry, the sequence runs to its end and the keys are those of the start
    followed by the new keys, each at its first insertion.  The other
    methods that change a container, [sort] and [splice] apart, do not
    re-order it either: [delete] leaves the entries it keeps in the order
    they were in, and [addMap] and [ensure] leave the keys where they
    were. *)
Lemma insertion_order (this : Containor.containor) :
  (forall done rest,
     Spec.extends (fst (Spec.set_all done this))
                  (fst (Spec.set_all (done ++ rest) this))) /\
  (forall calls,
     forallb Spec.writes_entry calls = true ->
     exists this',
       Spec.set_all calls this = (this', Returns tt) /\
       NativeMap.keys this'
       = NativeMap.keys this
           ++ Spec.first_occurrences (NativeMap.keys this) (map fst calls)) /\
  (forall behaviour args,
     NativeMap.wf this ->
     Spec.subsequence
       (NativeMap.keys (fst (Containor.delete behaviour args this)))
       (NativeMap.keys this)) /\
  (forall mapCombine func,
     Spec.extends this (fst (Containor.addMap mapCombine func this))) /\
  (forall key valueGenerator setDefault,
     Spec.extends this
       (fst (Containor.ensure key valueGenerator setDefault this))).
Proof.
  split; [ | split; [ | split; [ | split ] ] ].
  4: { intros mapCombine func. apply addMap_extends. }
  4: { intros key valueGenerator setDefault. apply ensure_extends. }
  - intros done rest. unfold Spec.set_all. rewrite for_each_app.
    destruct (Containor.for_each _ done this) as [st [ [] | e ]]; cbn [fst].
    + apply for_each_extends. intros call st' _. apply set_extends.
    + apply extends_refl.
  - intros calls H. exists (Containor.rebuild calls this).
    split; [ apply set_all_writes, H | apply keys_rebuild ].
  - intros behaviour args Hwf. apply subsequence_map, delete_subsequence, Hwf.
Qed.

Lemma insertion_order_example :
  let this := [(VString "a", VNum 1); (VString "b", VNum 2)] in
  let calls := [(VString "c", VNum 3); (VString "a", VNum 9);
                (VString "d", VNull); (VString "c", VNum 4)] in
  forallb Spec.writes_entry calls = true /\
  NativeMap.wf this /\
  (exists this',
      Spec.set_all calls this = (this', Returns tt) /\
      NativeMap.keys this'
      = [VString "a"; VString "b"; VString "c"; VString "d"]) /\
  Spec.subsequence
    (NativeMap.keys
       (fst (Containor.delete (fun _ _ _ _ _ => true) [VString "a"] this)))
    (NativeMap.keys this).
Proof.
  intros this calls.
  assert (Hwf : NativeMap.wf this) by solve_wf.
  split; [ reflexivity | ]. split; [ exact Hwf | ]. split.
  - exact (proj1 (proj2 (insertion_order this)) calls eq_refl).
  - exact (proj1 (proj2 (proj2 (insertion_order this))) (fun _ _ _ _ _ => true)
             [VString "a"] Hwf).
Defined.

(** [keys()] hands these keys to [ContainorArray.from], which returns them
    as they are unless they are one number and nothing else. *)
Lemma keys_in_insertion_order (this : Containor.containor) :
  (forall n, NativeMap.keys this <> [VNum n]) ->
  (forall w p, NativeMap.keys this <> [VFraction w p]) ->
  (forall x, NativeMap.keys this <> [VNonFinite x]) ->
  Containor.keys this = Returns (ContainorArray.Elements (NativeMap.keys this)).
Proof.
  unfold Containor.keys, ContainorArray.from, ContainorArray.construct.
  intros Hnum Hfraction Hnonfinite.
  destruct (NativeMap.keys this) as [ | k rest ]; [ reflexivity | ].
  destruct k; try reflexivity; destruct rest; try reflexivity; exfalso.
  - eapply Hnum. reflexivity.
  - eapply Hfraction. reflexivity.
  - eapply Hnonfinite. reflexivity.
Qed.

Lemma keys_in_insertion_order_example :
  let this := fst (Spec.set_all [(VString "b", VNum 1); (VNum 3, VNum 2);
                                 (VString "b", VNum 5)] []) in
  Containor.keys this = Returns (ContainorArray.Elements [VString "b"; VNum 3]).
Proof.
  apply (keys_in_insertion_order
           (fst (Spec.set_all [(VString "b", VNum 1); (VNum 3, VNum 2);
                               (VString "b", VNum 5)] []))); discriminate.
Defined.

(** C2, where the code departs from it.  After [set(3, 'x')] on an empty
    container the only key is the number 3, and [keys()] is an array of
    length 3 that holds no element, not the array of that key; after
    [set(-1, 'x')] it throws. *)
Theorem keys_of_one_numeric_key :
  let this := fst (Containor.set (VNum 3) (VString "x") []) in
  let other := fst (Containor.set (VNum (-1)) (VString "x") []) in
  NativeMap.keys this = [VNum 3] /\
  Containor.keys this = Returns (ContainorArray.EmptySlots 3) /\
  NativeMap.keys other = [VNum (-1)] /\
  Containor.keys other = Throws RangeError.
Proof. repeat split. Qed.

(* ================================================================== *)
(** * [Containor.from], [first] and [last] *)

Lemma from_entry_copied (e : NativeMap.entry) (target : Containor.containor) :
  Spec.copied_as_is e = true ->
  Containor.from_entry e target = (NativeMap.set (fst e) (snd e) target, Returns tt).
Proof.
  unfold Spec.copied_as_is. intros H. apply andb_true_iff in H as [H1 H2].
  destruct e as [k v]. cbn [fst snd] in *. unfold Containor.from_entry.
  destruct v; try (apply set_writes_entry; exact H1).
  apply negb_true_iff in H2. rewrite <- andb_assoc in H2 |- *. rewrite H2.
  apply set_writes_entry. exact H1.
Qed.

(** Writing entries of distinct new keys behind a map. *)
Lemma rebuild_app (entries : list NativeMap.entry) :
  forall this : Containor.containor,
    NativeMap.wf (this ++ entries) ->
    Containor.rebuild entries this = this ++ entries.
Proof.
  unfold Containor.rebuild, NativeMap.wf.
  induction entries as [ | [k v] entries IH ]; intros this Hwf; simpl.
  - rewrite app_nil_r. reflexivity.
  - rewrite set_absent.
    + rewrite IH; rewrite <- app_assoc; [ reflexivity | exact Hwf ].
    + apply has_not_In. rewrite map_app in Hwf. simpl in Hwf.
      apply NoDup_remove_2 in Hwf. intros Hin. apply Hwf, in_or_app. left. exact Hin.
Qed.

Lemma rebuild_wf (entries : list NativeMap.entry) :
  NativeMap.wf entries ->
  Containor.rebuild entries (NativeMap.clear entries) = entries.
Proof. intros H. apply (rebuild_app entries []), H. Qed.

(** [Containor.from] on entries of distinct keys that it copies as they
    are: the new container holds them, in their order. *)
Lemma from_entries_copied (source : list NativeMap.entry) :
  NativeMap.wf source -> forallb Spec.copied_as_is source = true ->
  Containor.from_entries source = Returns source.
Proof.
  intros Hwf H. unfold Containor.from_entries.
  rewrite (for_each_ext _ (fun e m => (NativeMap.set (fst e) (snd e) m, Returns tt))).
  - rewrite for_each_total. f_equal. apply (rebuild_app source []), Hwf.
  - intros e st Hin. apply from_entry_copied.
    rewrite forallb_forall in H. apply H, Hin.
Qed.

Lemma wf_firstn (n : nat) (m : NativeMap.t) : NativeMap.wf m -> NativeMap.wf (firstn n m).
Proof.
  unfold NativeMap.wf. intros H. rewrite <- (firstn_skipn n m), map_app in H.
  apply NoDup_app_remove_r in H. exact H.
Qed.

Lemma wf_skipn (n : nat) (m : NativeMap.t) : NativeMap.wf m -> NativeMap.wf (skipn n m).
Proof.
  unfold NativeMap.wf. intros H. rewrite <- (firstn_skipn n m), map_app in H.
  apply NoDup_app_remove_l in H. exact H.
Qed.

Lemma forallb_firstn {A : Type} (f : A -> bool) (n : nat) (l : list A) :
  forallb f l = true -> forallb f (firstn n l) = true.
Proof.
  rewrite !forallb_forall. intros H x Hx. apply H.
  rewrite <- (firstn_skipn n l). apply in_or_app. left. exact Hx.
Qed.

Lemma forallb_skipn {A : Type} (f : A -> bool) (n : nat) (l : list A) :
  forallb f l = true -> forallb f (skipn n l) = true.
Proof.
  rewrite !forallb_forall. intros H x Hx. apply H.
  rewrite <- (firstn_skipn n l). apply in_or_app. right. exact Hx.
Qed.

Lemma slice_first {A : Type} (n : Z) (l : list A) :
  0 <= n <= Z.of_nat (List.length l) ->
  NativeArray.slice (Some 0) (Some n) l = firstn (Z.to_nat n) l.
Proof.
  intros H. unfold NativeArray.slice, NativeArray.clamp.
  destruct (n <? 0) eqn:E; [ lia | ]. cbn [Z.ltb Z.compare].
  rewrite (Z.min_l 0) by lia. rewrite (Z.min_l n) by lia.
  rewrite Z.sub_0_r. reflexivity.
Qed.

Lemma slice_last {A : Type} (n : Z) (l : list A) :
  1 <= n <= Z.of_nat (List.length l) ->
  NativeArray.slice (Some (- n)) None l
  = skipn (Z.to_nat (Z.of_nat (List.length l) - n)) l.
Proof.
  intros H. unfold NativeArray.slice, NativeArray.clamp.
  destruct (- n <? 0) eqn:E; [ | lia ].
  rewrite Z.max_l by lia. apply firstn_all2. rewrite length_skipn. lia.
Qed.

(** The comparisons of a finite number with a whole one. *)
Lemma ltb_whole (n m : Z) : Number.ltb (Whole n) (Whole m) = (n <? m).
Proof. unfold Number.ltb. simpl. compare_cases. Qed.

Lemma ltb_fraction_whole (w : Z) (p : positive) (m : Z) :
  Number.ltb (Fraction w p) (Whole m) = (w <? m).
Proof. unfold Number.ltb. simpl. compare_cases. Qed.


Lemma leb_whole (n m : Z) : Number.leb (Whole n) (Whole m) = (n <=? m).
Proof. unfold Number.leb. simpl. compare_cases. Qed.

Lemma leb_fraction_whole (w : Z) (p : positive) (m : Z) :
  Number.leb (Fraction w p) (Whole m) = (w <? m).
Proof. unfold Number.leb. simpl. compare_cases. Qed.

Lemma eqb_whole (n m : Z) : Number.eqb (Whole n) (Whole m) = (n =? m).
Proof. unfold Number.eqb. simpl. compare_cases. Qed.

Lemma eqb_fraction_whole (w : Z) (p : positive) (m : Z) :
  Number.eqb (Fraction w p) (Whole m) = false.
Proof. unfold Number.eqb. simpl. compare_cases. Qed.

(** The first line of [first] and [last] makes the amount the one of the
    specification. *)
Lemma requested_eq (amount : value) :
  match as_finite amount with
  | Some amount => if Number.leb amount (Whole 0) then Whole 1 else amount
  | None => Whole 1
  end = Spec.requested amount.
Proof.
  destruct amount; try reflexivity. cbn [as_finite Spec.requested].
  rewrite leb_fraction_whole. destruct (whole0 <? 0); reflexivity.
Qed.

Lemma requested_positive (amount : value) :
  match Spec.requested amount with
  | Whole n => 1 <= n
  | Fraction w _ => 0 <= w
  end.
Proof.
  unfold Spec.requested. destruct amount; try lia.
  - destruct (Z.leb_spec n 0); lia.
  - destruct (Z.ltb_spec whole0 0); lia.
Qed.

(** [first] and [last] by the amount they end up with. *)
Lemma first_by_amount (amount : value) (this : Containor.containor) :
  Containor.first amount this
  = let size := Containor.length this in
    match Spec.requested amount with
    | Whole n =>
        let m := Z.min size n in
        if m <=? 1 then Returns (Spec.single_first this)
        else Spec.built_from (firstn (Z.to_nat m) this)
    | Fraction w _ =>
        if w <? size then
          if w <? 1 then Returns Containor.Nothing
          else Spec.built_from (firstn (Z.to_nat w) this)
        else if size <=? 1 then Returns (Spec.single_first this)
             else Spec.built_from (firstn (Z.to_nat size) this)
    end.
Proof.
  unfold Containor.first. rewrite requested_eq. cbv zeta.
  pose proof (requested_positive amount) as Hr.
  assert (Hwhole : forall m,
    0 <= m <= Containor.length this -> (m = 0 -> this = []) ->
    (let selected := NativeArray.slice (Some 0) (Some (Number.trunc (Whole m))) this in
     if Number.leb (Whole m) (Whole 1)
     then if Number.eqb (Whole m) (Whole 1)
          then match selected with
               | e :: _ => Returns (Containor.Pair (fst e) (snd e))
               | [] => Throws TypeError
               end
          else Returns Containor.Nothing
     else match Containor.from_entries selected with
          | Returns c => Returns (Containor.Several c)
          | Throws e => Throws e
          end)
    = if m <=? 1 then Returns (Spec.single_first this)
      else Spec.built_from (firstn (Z.to_nat m) this)).
  { intros m Hm Hempty. cbv zeta. cbn [Number.trunc].
    rewrite leb_whole, eqb_whole. unfold Containor.length in Hm.
    rewrite slice_first by lia.
    destruct (Z.leb_spec m 1); [ | reflexivity ].
    destruct (Z.eqb_spec m 1) as [-> | Hne].
    - destruct this as [ | e rest ]; [ cbn [List.length] in Hm; lia | reflexivity ].
    - rewrite Hempty by lia. reflexivity. }
  assert (Hsize : 0 <= Containor.length this)
    by (unfold Containor.length; lia).
  assert (Hnil : Containor.length this = 0 -> this = []).
  { unfold Containor.length. destruct this; [ reflexivity | cbn [List.length]; lia ]. }
  destruct (Spec.requested amount) as [ n | w p ]; unfold Math.min.
  - rewrite ltb_whole.
    destruct (Z.ltb_spec n (Containor.length this)).
    + rewrite Z.min_r by lia. apply Hwhole; lia.
    + rewrite Z.min_l by lia. apply Hwhole; [ lia | ]. exact Hnil.
  - rewrite ltb_fraction_whole.
    destruct (Z.ltb_spec w (Containor.length this)).
    + rewrite leb_fraction_whole, eqb_fraction_whole. cbn [Number.trunc].
      destruct (Z.ltb_spec w 0); [ lia | ].
      unfold Containor.length in *. rewrite slice_first by lia.
      destruct (w <? 1); reflexivity.
    + apply Hwhole; [ lia | exact Hnil ].
Qed.

Lemma last_by_amount (amount : value) (this : Containor.containor) :
  Containor.last amount this
  = let size := Containor.length this in
    match Spec.requested amount with
    | Whole n =>
        let m := Z.min size n in
        if m <=? 1 then Returns (Spec.single_last this)
        else Spec.built_from (skipn (Z.to_nat (size - m)) this)
    | Fraction w _ =>
        if w <? size then
          if w <? 1 then Returns Containor.Nothing
          else Spec.built_from (skipn (Z.to_nat (size - w)) this)
        else if size <=? 1 then Returns (Spec.single_last this)
             else Spec.built_from (skipn (Z.to_nat (size - size)) this)
    end.
Proof.
  unfold Containor.last. rewrite requested_eq. cbv zeta.
  pose proof (requested_positive amount) as Hr.
  assert (Hwhole : forall m,
    0 <= m <= Containor.length this -> (m = 0 -> this = []) ->
    (let selected :=
       NativeArray.slice (Some (Number.trunc (Number.opp (Whole m)))) None this in
     if Number.leb (Whole m) (Whole 1)
     then if Number.eqb (Whole m) (Whole 1)
          then match selected with
               | e :: _ => Returns (Containor.Pair (fst e) (snd e))
               | [] => Throws TypeError
               end
          else Returns Containor.Nothing
     else match Containor.from_entries selected with
          | Returns c => Returns (Containor.Several c)
          | Throws e => Throws e
          end)
    = if m <=? 1 then Returns (Spec.single_last this)
      else Spec.built_from (skipn (Z.to_nat (Containor.length this - m)) this)).
  { intros m Hm Hempty. cbv zeta. cbn [Number.trunc Number.opp].
    rewrite leb_whole, eqb_whole. unfold Containor.length in *.
    destruct (Z.leb_spec m 1).
    - destruct (Z.eqb_spec m 1) as [-> | Hne].
      + rewrite slice_last by lia. unfold Spec.single_last. clear Hempty. revert Hm.
        destruct this as [ | e rest _ ] using rev_ind; intros Hm;
          [ cbn [List.length] in Hm; lia | ].
        rewrite rev_unit, length_app. cbn [List.length].
        replace (Z.to_nat (Z.of_nat (List.length rest + 1) - 1))
          with (List.length rest) by lia.
        rewrite skipn_app, skipn_all, Nat.sub_diag. reflexivity.
      + rewrite Hempty by lia. reflexivity.
    - rewrite slice_last by lia. reflexivity. }
  assert (Hsize : 0 <= Containor.length this)
    by (unfold Containor.length; lia).
  assert (Hnil : Containor.length this = 0 -> this = []).
  { unfold Containor.length. destruct this; [ reflexivity | cbn [List.length]; lia ]. }
  destruct (Spec.requested amount) as [ n | w p ]; unfold Math.min.
  - rewrite ltb_whole.
    destruct (Z.ltb_spec n (Containor.length this)).
    + rewrite Z.min_r by lia. apply Hwhole; lia.
    + rewrite Z.min_l by lia. apply Hwhole; [ lia | ]. exact Hnil.
  - rewrite ltb_fraction_whole.
    destruct (Z.ltb_spec w (Containor.length this)).
    + rewrite leb_fraction_whole, eqb_fraction_whole. cbn [Number.trunc Number.opp].
      destruct (Z.ltb_spec (- w - 1) 0); [ | lia ].
      replace (- w - 1 + 1) with (- w) by lia.
      destruct (Z.ltb_spec w 1); [ reflexivity | ].
      unfold Containor.length in *. rewrite slice_last by lia. reflexivity.
    + apply Hwhole; [ lia | exact Hnil ].
Qed.

Lemma built_from_copied (selected : list NativeMap.entry) :
  NativeMap.wf selected -> forallb Spec.copied_as_is selected = true ->
  Spec.built_from selected = Returns (Containor.Several selected).
Proof.
  intros Hwf H. unfold Spec.built_from. rewrite from_entries_copied by assumption.
  reflexivity.
Qed.




(* ================================================================== *)
(** * [splice] *)





Lemma length_rebuild (entries : list NativeMap.entry) :
  forall this : Containor.containor,
    (List.length (Containor.rebuild entries this)
     <= List.length this + List.length entries)%nat.
Proof.
  unfold Containor.rebuild.
  induction entries as [ | e entries IH ]; intros this; simpl; [ lia | ].
  specialize (IH (NativeMap.set (fst e) (snd e) this)).
  rewrite length_set in IH. destruct (NativeMap.has (fst e) this); lia.
Qed.








(* ================================================================== *)
(** * [sort] *)

Section Sorting.

Context {A : Type} (compare : A -> A -> Z).
Hypothesis compare_consistent : Spec.consistent compare.

Lemma insert_permutation (x : A) (l : list A) :
  Permutation (NativeArray.insert compare x l) (x :: l).
Proof.
  induction l as [ | y l IH ]; simpl; [ reflexivity | ].
  destruct (compare x y <? 0); [ reflexivity | ].
  rewrite IH. apply perm_swap.
Qed.

Lemma sort_from_permutation (l sorted : list A) :
  Permutation
    (fold_left (fun sorted x => NativeArray.insert compare x sorted) l sorted)
    (sorted ++ l).
Proof.
  revert sorted. induction l as [ | x l IH ]; intros sorted; simpl.
  - rewrite app_nil_r. reflexivity.
  - rewrite IH, insert_permutation. apply Permutation_middle.
Qed.

Lemma sort_permutation (l : list A) : Permutation (NativeArray.sort compare l) l.
Proof. apply (sort_from_permutation l []). Qed.

Lemma insert_ordered (x : A) (l : list A) :
  Spec.ordered compare l -> Spec.ordered compare (NativeArray.insert compare x l).
Proof.
  destruct compare_consistent as [Hanti Htrans]. unfold Spec.ordered.
  induction l as [ | y l IH ]; intros H; simpl.
  - repeat constructor.
  - apply StronglySorted_inv in H as [Hl Hy].
    destruct (compare x y <? 0) eqn:E.
    + constructor; [ constructor; assumption | ].
      constructor; [ lia | ].
      rewrite Forall_forall in Hy |- *. intros z Hz.
      apply (Htrans x y z); [ lia | apply Hy, Hz ].
    + constructor; [ apply IH, Hl | ].
      rewrite Forall_forall in Hy |- *. intros z Hz.
      apply (Permutation_in _ (insert_permutation x l)) in Hz.
      destruct Hz as [<- | Hz]; [ | apply Hy, Hz ].
      pose proof (Hanti x y). pose proof (Hanti y x). lia.
Qed.

Lemma sort_from_ordered (l sorted : list A) :
  Spec.ordered compare sorted ->
  Spec.ordered compare
    (fold_left (fun sorted x => NativeArray.insert compare x sorted) l sorted).
Proof.
  revert sorted. induction l as [ | x l IH ]; intros sorted H; simpl.
  - exact H.
  - apply IH, insert_ordered, H.
Qed.

Lemma sort_ordered (l : list A) : Spec.ordered compare (NativeArray.sort compare l).
Proof. apply sort_from_ordered. constructor. Qed.

(** An element that comes after none of a list goes behind it. *)
Lemma insert_last (x : A) (l : list A) :
  Forall (fun a => compare a x <= 0) l -> NativeArray.insert compare x l = l ++ [x].
Proof.
  destruct compare_consistent as [Hanti _].
  induction l as [ | y l IH ]; intros H; simpl; [ reflexivity | ].
  apply Forall_cons_iff in H as [Hy Hl].
  destruct (compare x y <? 0) eqn:E.
  - pose proof (Hanti x y). lia.
  - rewrite IH by exact Hl. reflexivity.
Qed.

Lemma ordered_app_last (l : list A) (x : A) (rest : list A) :
  Spec.ordered compare (l ++ x :: rest) -> Forall (fun a => compare a x <= 0) l.
Proof.
  unfold Spec.ordered. induction l as [ | y l IH ]; simpl; intros H.
  - constructor.
  - apply StronglySorted_inv in H as [Hl Hy]. constructor.
    + rewrite Forall_forall in Hy. apply Hy, in_or_app. right. left. reflexivity.
    + apply IH, Hl.
Qed.

Lemma sort_from_of_ordered (l sorted : list A) :
  Spec.ordered compare (sorted ++ l) ->
  fold_left (fun sorted x => NativeArray.insert compare x sorted) l sorted
  = sorted ++ l.
Proof.
  revert sorted. induction l as [ | x l IH ]; intros sorted H; simpl.
  - rewrite app_nil_r. reflexivity.
  - rewrite insert_last by (eapply ordered_app_last; exact H).
    rewrite IH; rewrite <- app_assoc; [ reflexivity | exact H ].
Qed.

(** Sorting a list that is in order leaves it as it is. *)
Lemma sort_of_ordered (l : list A) :
  Spec.ordered compare l -> NativeArray.sort compare l = l.
Proof. intros H. apply (sort_from_of_ordered l []), H. Qed.

End Sorting.

Lemma wf_permutation (m m' : NativeMap.t) :
  Permutation m m' -> NativeMap.wf m' -> NativeMap.wf m.
Proof.
  unfold NativeMap.wf. intros Hp H.
  apply (Permutation_NoDup (l := map fst m')); [ | exact H ].
  apply Permutation_map, Permutation_sym, Hp.
Qed.

(** C7 (as amended).  With a consistent comparator, [sort] returns normally
    and leaves in the container the entries it had, in the order of the
    comparator over [(valueA, valueB, keyA, keyB)]; sorting once more with
    the same comparator does not change that order. *)
Theorem sort_idempotent (func : Containor.comparator) (this : Containor.containor) :
  NativeMap.wf this ->
  Spec.consistent (Containor.compare_entries func) ->
  exists sorted,
    Containor.sort (Some func) this = (sorted, Returns tt) /\
    Permutation sorted this /\
    Spec.ordered (Containor.compare_entries func) sorted /\
    Containor.sort (Some func) sorted = (sorted, Returns tt).
Proof.
  intros Hwf Hcons.
  set (compare := Containor.compare_entries func) in *.
  pose proof (sort_permutation compare this) as Hperm.
  pose proof (sort_ordered compare Hcons this) as Hord.
  assert (Hwf' : NativeMap.wf (NativeArray.sort compare this))
    by (eapply wf_permutation; eassumption).
  exists (NativeArray.sort compare this).
  unfold Containor.sort. fold compare.
  rewrite (rebuild_app _ []) by exact Hwf'.
  split; [ reflexivity | ]. split; [ exact Hperm | ]. split; [ exact Hord | ].
  rewrite (sort_of_ordered compare Hcons) by exact Hord.
  rewrite (rebuild_app _ []) by exact Hwf'. reflexivity.
Qed.

Lemma sort_idempotent_witness :
  let rank := fun v => match v with VNum n => n | _ => 0 end in
  let func := fun (a b _ _ : value) => rank a - rank b in
  let this := [(VString "a", VNum 3); (VString "b", VNum 1); (VString "c", VNum 2)] in
  NativeMap.wf this /\
  Spec.consistent (Containor.compare_entries func) /\
  exists sorted,
    Containor.sort (Some func) this = (sorted, Returns tt) /\
    Permutation sorted this /\
    Spec.ordered (Containor.compare_entries func) sorted /\
    Containor.sort (Some func) sorted = (sorted, Returns tt).
Proof.
  intros rank func this.
  assert (Hwf : NativeMap.wf this) by solve_wf.
  assert (Hcons : Spec.consistent (Containor.compare_entries func)).
  { unfold Spec.consistent, Containor.compare_entries, func.
    split; intros; lia. }
  split; [ exact Hwf | ]. split; [ exact Hcons | ].
  exact (sort_idempotent func this Hwf Hcons).
Defined.

(** C7 as stated fails for a comparator that is not consistent: with the one
    that always answers [-1], each [sort] reverses the entries. *)
Lemma sort_twice_reverses_twice :
  let func := fun (_ _ _ _ : value) => -1 in
  let this := [(VString "a", VNum 1); (VString "b", VNum 2)] in
  let once := fst (Containor.sort (Some func) this) in
  let twice := fst (Containor.sort (Some func) once) in
  once = [(VString "b", VNum 2); (VString "a", VNum 1)] /\
  twice = [(VString "a", VNum 1); (VString "b", VNum 2)] /\
  twice <> once.
Proof. repeat split. discriminate. Qed.

(* ================================================================== *)
(** * [filter], [partition] and [slice] over the store *)

Lemma length_write (a : Containor.address) (c : Containor.containor)
    (s : Containor.store) :
  (a < List.length s)%nat -> List.length (Containor.write a c s) = List.length s.
Proof.
  intros H. unfold Containor.write.
  rewrite length_app, length_firstn. cbn [List.length]. rewrite length_skipn. lia.
Qed.

Lemma load_write_other (a b : Containor.address) (c : Containor.containor)
    (s : Containor.store) :
  (b < List.length s)%nat -> a <> b ->
  Containor.load a (Containor.write b c s) = Containor.load a s.
Proof.
  intros Hb Hne. unfold Containor.load, Containor.write.
  assert (Hlen : List.length (firstn b s) = b) by (rewrite length_firstn; lia).
  destruct (Nat.lt_ge_cases a b) as [Hlt | Hge].
  - rewrite app_nth1 by lia. rewrite nth_firstn.
    destruct (a <? b)%nat eqn:E; [ reflexivity | apply Nat.ltb_ge in E; lia ].
  - rewrite app_nth2 by lia. rewrite Hlen.
    destruct (a - b)%nat as [ | i ] eqn:E; [ lia | ].
    cbn [nth]. rewrite nth_skipn. f_equal. lia.
Qed.

Lemma load_write_same (a : Containor.address) (c : Containor.containor)
    (s : Containor.store) :
  (a < List.length s)%nat -> Containor.load a (Containor.write a c s) = c.
Proof.
  intros H. unfold Containor.load, Containor.write.
  assert (Hlen : List.length (firstn a s) = a) by (rewrite length_firstn; lia).
  rewrite <- Hlen at 1. apply nth_middle.
Qed.

Lemma keeps_on {A : Type} (n m : nat) (r : Containor.address)
    (method : Containor.containor -> Containor.containor * result A)
    (s s' : Containor.store) :
  (n <= r < m)%nat -> Spec.keeps n m s s' ->
  Spec.keeps n m s (fst (Containor.on r method s')).
Proof.
  intros Hr [Hlen Hload]. unfold Containor.on.
  destruct (method (Containor.load r s')) as [c res]. cbn [fst]. split.
  - rewrite length_write by lia. exact Hlen.
  - intros a Ha. rewrite load_write_other by lia. apply Hload, Ha.
Qed.

Lemma keeps_for_each {A : Type} (n m : nat)
    (body : A -> Containor.store -> Containor.store * result unit)
    (l : list A) (s : Containor.store) :
  (forall x s', Spec.keeps n m s s' -> Spec.keeps n m s (fst (body x s'))) ->
  forall s',
    Spec.keeps n m s s' -> Spec.keeps n m s (fst (Containor.for_each body l s')).
Proof.
  intros Hbody. induction l as [ | x l IH ]; intros s' H; simpl; [ exact H | ].
  pose proof (Hbody x s' H) as Hx.
  destruct (body x s') as [s'' [ [] | e ]]; cbn [fst] in *; [ apply IH, Hx | exact Hx ].
Qed.

Lemma keeps_alloc (s : Containor.store) :
  Spec.keeps (List.length s) (S (List.length s)) s (snd (Containor.alloc s)).
Proof.
  unfold Containor.alloc. cbn [snd]. split.
  - rewrite length_app. simpl. lia.
  - intros a Ha. unfold Containor.load. apply app_nth1, Ha.
Qed.

(** C10.  [filter], [partition] and [slice] leave the store as it was below
    the addresses they allocate: the receiver, and every other container
    that was alive, holds the same entries in the same order afterwards,
    also when the call throws; the containers they return are at new
    addresses. *)
Theorem builders_leave_receiver (this : Containor.address) (s : Containor.store) :
  (this < List.length s)%nat ->
  (forall func,
     let after := fst (Containor.filter func this s) in
     Containor.load this after = Containor.load this s /\
     (forall a, (a < List.length s)%nat ->
                Containor.load a after = Containor.load a s) /\
     (forall results,
        snd (Containor.filter func this s) = Returns results ->
        (List.length s <= results < List.length after)%nat)) /\
  (forall func,
     let after := fst (Containor.partition func this s) in
     Containor.load this after = Containor.load this s /\
     (forall a, (a < List.length s)%nat ->
                Containor.load a after = Containor.load a s) /\
     (forall results0 results1,
        snd (Containor.partition func this s) = Returns (results0, results1) ->
        (List.length s <= results0 < List.length after)%nat /\
        (List.length s <= results1 < List.length after)%nat /\
        results0 <> results1)) /\
  (forall start end_,
     let after := fst (Containor.slice start end_ this s) in
     Containor.load this after = Containor.load this s /\
     (forall a, (a < List.length s)%nat ->
                Containor.load a after = Containor.load a s) /\
     (forall results,
        snd (Containor.slice start end_ this s) = Returns results ->
        (List.length s <= results < List.length after)%nat)).
Proof.
  intros Hthis. split; [ | split ].
  - intros [ func | ] after; subst after; unfold Containor.filter.
    2: { cbn [fst snd]. split; [ reflexivity | ].
         split; [ reflexivity | discriminate ]. }
    pose proof (keeps_alloc s) as Halloc.
    unfold Containor.alloc in *. cbn [snd] in Halloc.
    match goal with
    | |- context [Containor.for_each ?body ?l ?s1] =>
        assert (K : Spec.keeps (List.length s) (S (List.length s)) s
                      (fst (Containor.for_each body l s1)));
        [ apply keeps_for_each; [ | exact Halloc ] | ];
        [ | destruct (Containor.for_each body l s1) as [s' [ [] | e ]] ]
    end.
    + intros e s' Hs'. destruct (func (snd e) (fst e) (Containor.load this s')).
      * apply keeps_on; [ lia | exact Hs' ].
      * exact Hs'.
    + cbn [fst snd] in *. destruct K as [Hlen Hload].
      split; [ apply Hload, Hthis | ]. split; [ exact Hload | ].
      intros results [= <-]. lia.
    + cbn [fst snd] in *. destruct K as [Hlen Hload].
      split; [ apply Hload, Hthis | ]. split; [ exact Hload | discriminate ].
  - intros [ func | ] after; subst after; unfold Containor.partition.
    2: { cbn [fst snd]. split; [ reflexivity | ].
         split; [ reflexivity | discriminate ]. }
    assert (Halloc : Spec.keeps (List.length s) (S (S (List.length s))) s
                       ((s ++ [[]]) ++ [[]])).
    { split.
      - rewrite !length_app. simpl. lia.
      - intros a Ha. unfold Containor.load.
        rewrite app_nth1 by (rewrite length_app; lia). apply app_nth1, Ha. }
    unfold Containor.alloc.
    match goal with
    | |- context [Containor.for_each ?body ?l ?s1] =>
        assert (K : Spec.keeps (List.length s) (S (S (List.length s))) s
                      (fst (Containor.for_each body l s1)));
        [ apply keeps_for_each; [ | exact Halloc ] | ];
        [ | destruct (Containor.for_each body l s1) as [s' [ [] | e ]] ]
    end.
    + intros e s' Hs'. rewrite length_app. cbn [List.length].
      destruct (func (snd e) (fst e) (Containor.load this s'));
        (apply keeps_on; [ lia | exact Hs' ]).
    + cbn [fst snd] in *. destruct K as [Hlen Hload].
      split; [ apply Hload, Hthis | ]. split; [ exact Hload | ].
      intros results0 results1 [= <- <-]. rewrite length_app. simpl. lia.
    + cbn [fst snd] in *. destruct K as [Hlen Hload].
      split; [ apply Hload, Hthis | ]. split; [ exact Hload | discriminate ].
  - intros start end_ after; subst after; unfold Containor.slice, Containor.from.
    pose proof (keeps_alloc s) as Halloc.
    unfold Containor.alloc in *. cbn [snd] in Halloc.
    match goal with
    | |- context [Containor.for_each ?body ?l ?s1] =>
        assert (K : Spec.keeps (List.length s) (S (List.length s)) s
                      (fst (Containor.for_each body l s1)));
        [ apply keeps_for_each; [ | exact Halloc ] | ];
        [ | destruct (Containor.for_each body l s1) as [s' [ [] | e ]] ]
    end.
    + intros e s' Hs'. apply keeps_on; [ lia | exact Hs' ].
    + cbn [fst snd] in *. destruct K as [Hlen Hload].
      split; [ apply Hload, Hthis | ]. split; [ exact Hload | ].
      intros results [= <-]. lia.
    + cbn [fst snd] in *. destruct K as [Hlen Hload].
      split; [ apply Hload, Hthis | ]. split; [ exact Hload | discriminate ].
Qed.

Lemma builders_leave_receiver_witness :
  let this := [(VString "a", VNum 1); (VString "b", VNum 2); (VString "c", VNum 3)] in
  let s := [this] in
  let odd : Containor.callback :=
    fun v _ _ => match v with VNum n => Z.odd n | _ => false end in
  (0 < List.length s)%nat /\
  Containor.load 0%nat (fst (Containor.filter (Some odd) 0%nat s)) = this /\
  Containor.load 0%nat (fst (Containor.partition (Some odd) 0%nat s)) = this /\
  Containor.load 0%nat (fst (Containor.slice (Some 1) None 0%nat s)) = this.
Proof.
  intros this s odd.
  assert (H : (0 < List.length s)%nat) by (simpl; lia).
  split; [ exact H | ].
  destruct (builders_leave_receiver 0%nat s H) as (Hfilter & Hpartition & Hslice).
  split; [ exact (proj1 (Hfilter (Some odd))) | ].
  split; [ exact (proj1 (Hpartition (Some odd))) | ].
  exact (proj1 (Hslice (Some 1) None)).
Defined.

(** What the three methods build, on an example. *)
Example builders_results :
  let this := [(VString "a", VNum 1); (VString "b", VNum 2); (VString "c", VNum 3)] in
  let odd : Containor.callback :=
    fun v _ _ => match v with VNum n => Z.odd n | _ => false end in
  Containor.filter (Some odd) 0%nat [this]
    = ([this; [(VString "a", VNum 1); (VString "c", VNum 3)]], Returns 1%nat) /\
  Containor.partition (Some odd) 0%nat [this]
    = ([this; [(VString "a", VNum 1); (VString "c", VNum 3)]; [(VString "b", VNum 2)]],
       Returns (1%nat, 2%nat)) /\
  Containor.slice (Some 1) (Some (-1)) 0%nat [this]
    = ([this; [(VString "b", VNum 2)]], Returns 1%nat).
Proof. repeat split. Qed.

(* ================================================================== *)
(** * Further properties of the container: the queries *)

Lemma find_from_spec (func : Containor.callback) (this : Containor.containor)
    (entries : list NativeMap.entry) :
  match Containor.find_from func this entries with
  | Containor.Nothing =>
      forall e, In e entries -> func (snd e) (fst e) this = false
  | Containor.Pair k v =>
      exists before after,
        entries = before ++ (k, v) :: after /\
        func v k this = true /\
        forall e, In e before -> func (snd e) (fst e) this = false
  | Containor.Several _ => False
  end.
Proof.
  induction entries as [ | [k v] rest IH ]; simpl.
  - intros e [].
  - destruct (func v k this) eqn:E.
    + exists [], rest. split; [ reflexivity | ]. split; [ exact E | intros e [] ].
    + destruct (Containor.find_from func this rest) as [ k' v' | | c ].
      * destruct IH as (before & after & -> & Hf & Hbefore).
        exists ((k, v) :: before), after. split; [ reflexivity | ].
        split; [ exact Hf | ]. intros e [<- | He]; [ exact E | apply Hbefore, He ].
      * intros e [<- | He]; [ exact E | apply IH, He ].
      * exact IH.
Qed.

(** X1.  [find] returns the pair of the first entry, in insertion order, for
    which the function holds, and [undefined] exactly when it holds for no
    entry; it never returns a container. *)
Theorem find_first_match (func : Containor.callback) (this : Containor.containor) :
  exists found,
    Containor.find (Some func) this = Returns found /\
    match found with
    | Containor.Nothing =>
        forall e, In e this -> func (snd e) (fst e) this = false
    | Containor.Pair k v =>
        exists before after,
          this = before ++ (k, v) :: after /\
          func v k this = true /\
          forall e, In e before -> func (snd e) (fst e) this = false
    | Containor.Several _ => False
    end.
Proof.
  exists (Containor.find_from func this this). split; [ reflexivity | ].
  apply find_from_spec.
Qed.

Lemma some_from_spec (func : Containor.callback) (this : Containor.containor)
    (entries : list NativeMap.entry) :
  Containor.some_from func this entries
  = existsb (fun e => func (snd e) (fst e) this) entries.
Proof.
  induction entries as [ | [k v] rest IH ]; simpl; [ reflexivity | ].
  rewrite IH. destruct (func v k this); reflexivity.
Qed.

Lemma every_from_spec (func : Containor.callback) (this : Containor.containor)
    (entries : list NativeMap.entry) :
  Containor.every_from func this entries
  = forallb (fun e => func (snd e) (fst e) this) entries.
Proof.
  induction entries as [ | [k v] rest IH ]; simpl; [ reflexivity | ].
  rewrite IH. destruct (func v k this); reflexivity.
Qed.

(** X2.  [some] and [every] are dual: [every(f)] is the negation of
    [some(not f)].  [some(f)] is [true] exactly when [find(f)] returns a
    pair, and [every(f)] exactly when [f] holds for each entry, so on an
    empty container [some] is [false] and [every] is [true]. *)
Theorem some_every_dual (func : Containor.callback) (this : Containor.containor) :
  let negated : Containor.callback := fun v k c => negb (func v k c) in
  exists s a,
    Containor.some (Some func) this = Returns s /\
    Containor.every (Some func) this = Returns a /\
    Containor.some (Some negated) this = Returns (negb a) /\
    (s = true <-> Containor.find (Some func) this <> Returns Containor.Nothing) /\
    (a = true <-> forall e, In e this -> func (snd e) (fst e) this = true) /\
    (this = [] -> s = false /\ a = true).
Proof.
  intros negated.
  exists (Containor.some_from func this this), (Containor.every_from func this this).
  split; [ reflexivity | ]. split; [ reflexivity | ].
  unfold Containor.some, Containor.find. rewrite !some_from_spec, every_from_spec.
  split; [ | split; [ | split ] ].
  - f_equal. unfold negated. generalize this at 1 3. intros c.
    induction this as [ | e rest IH ]; simpl; [ reflexivity | ].
    rewrite IH. destruct (func (snd e) (fst e) c); reflexivity.
  - pose proof (find_from_spec func this this) as H.
    destruct (Containor.find_from func this this) as [ k v | | c ].
    + destruct H as (before & after & Hthis & Hf & _). split; [ discriminate | ].
      intros _. apply existsb_exists. exists (k, v). split; [ | exact Hf ].
      rewrite Hthis. apply in_or_app. right. left. reflexivity.
    + split; [ | intros Hn; exfalso; apply Hn; reflexivity ].
      intros Hs. apply existsb_exists in Hs as [e [He Hf]].
      rewrite (H e He) in Hf. discriminate.
    + destruct H.
  - rewrite forallb_forall. reflexivity.
  - intros ->. split; reflexivity.
Qed.

Lemma some_every_dual_witness :
  let func : Containor.callback := fun v _ _ => value_eqb v (VNum 1) in
  Containor.some (Some func) [] = Returns false /\
  Containor.every (Some func) [] = Returns true.
Proof.
  intros func.
  destruct (some_every_dual func []) as (s & a & Hs & Ha & _ & _ & _ & Hempty).
  destruct (Hempty eq_refl) as [-> ->]. split; assumption.
Defined.

(** X3.  [at(index)] with a number returns the pair at the position the index
    stands for, capped into the container: an index from 0 on reads no
    further than the last entry, a negative one counts from the end and no
    further than the first; on an empty container it returns [undefined].
    [at(0)] is what [first()] returns and [at(-1)] what [last()] returns.
    With an index that is no finite number it throws; a fraction reads what
    the whole number below it does. *)
Theorem at_clamps (this : Containor.containor) :
  (forall index,
     Containor.at_ (VNum index) this
     = Containor.At
         (Spec.pair_of
            (nth_error this
               (Z.to_nat (Spec.at_position index (Containor.length this)))))) /\
  (exists s, Containor.at_ (VNum 0) this = Containor.At s /\
             Containor.first VUndefined this = Returns s) /\
  (exists s, Containor.at_ (VNum (-1)) this = Containor.At s /\
             Containor.last VUndefined this = Returns s) /\
  (forall index, is_number index = false ->
                 Containor.at_ index this = Containor.IndexNotANumber) /\
  (forall w p, Containor.at_ (VFraction w p) this = Containor.at_ (VNum w) this).
Proof.
  assert (Hat : forall index,
     Containor.at_ (VNum index) this
     = Containor.At
         (Spec.pair_of
            (nth_error this
               (Z.to_nat (Spec.at_position index (Containor.length this)))))).
  { intros index. unfold Containor.at_, Containor.array_at, Spec.at_position.
    cbn [as_finite Math.floor].
    fold (Containor.length this). set (size := Containor.length this).
    assert (Hsize : 0 <= size) by (unfold size, Containor.length; lia).
    set (idx := Z.max (- size) (Z.min (size - 1) index)).
    set (k := if 0 <=? idx then idx else size + idx).
    set (position := if 0 <=? index then Z.min index (size - 1)
                     else Z.max (size + index) 0).
    assert (Hk : size = 0 \/ (0 <= k < size /\ k = position)).
    { unfold k, position, idx.
      destruct (0 <=? index) eqn:Ei;
        destruct (0 <=? Z.max (- size) (Z.min (size - 1) index)) eqn:E1; lia. }
    destruct Hk as [Hzero | [Hrange ->]].
    - assert (Hnil : this = []).
      { destruct this; [ reflexivity | ].
        unfold size, Containor.length in Hzero. simpl in Hzero. lia. }
      rewrite Hzero.
      destruct (Z.ltb_spec k 0), (Z.leb_spec 0 k); cbn [orb]; try lia;
        rewrite Hnil; destruct (Z.to_nat position); reflexivity.
    - destruct (Z.ltb_spec position 0), (Z.leb_spec size position);
        cbn [orb]; try lia.
      destruct (nth_error this (Z.to_nat position)); reflexivity. }
  split; [ exact Hat | ].
  split; [ | split; [ | split ] ].
  - eexists. split; [ apply Hat | ].
    rewrite first_by_amount. cbv zeta. unfold Spec.requested, Spec.at_position.
    destruct this as [ | e rest ]; [ reflexivity | ].
    destruct (Z.min (Containor.length (e :: rest)) 1 <=? 1) eqn:E; [ | lia ].
    cbn [Z.leb Z.compare]. rewrite Z.min_l
      by (unfold Containor.length; cbn [List.length]; lia).
    reflexivity.
  - eexists. split; [ apply Hat | ].
    rewrite last_by_amount. cbv zeta. unfold Spec.requested, Spec.at_position.
    destruct (Z.min (Containor.length this) 1 <=? 1) eqn:E; [ | lia ].
    cbn [Z.leb Z.compare]. unfold Spec.single_last.
    destruct this as [ | e rest _ ] using rev_ind; [ reflexivity | ].
    rewrite rev_unit. unfold Containor.length. rewrite length_app. cbn [List.length].
    replace (Z.to_nat (Z.max (Z.of_nat (List.length rest + 1) + -1) 0))
      with (List.length rest) by lia.
    rewrite nth_error_app2 by lia. rewrite Nat.sub_diag. reflexivity.
  - intros index H. destruct index; try reflexivity; discriminate H.
  - reflexivity.
Qed.

Lemma at_clamps_witness :
  let this := [(VString "a", VNum 1); (VString "b", VNum 2); (VString "c", VNum 3)] in
  Containor.at_ (VNum 7) this = Containor.At (Containor.Pair (VString "c") (VNum 3)) /\
  Containor.at_ (VNum (-2)) this = Containor.At (Containor.Pair (VString "b") (VNum 2)) /\
  Containor.at_ (VNum (-9)) this = Containor.At (Containor.Pair (VString "a") (VNum 1)) /\
  Containor.at_ (VString "1") this = Containor.IndexNotANumber.
Proof.
  intros this. destruct (at_clamps this) as (Hat & _ & _ & Hthrows & _).
  split; [ exact (Hat 7) | ]. split; [ exact (Hat (-2)) | ].
  split; [ exact (Hat (-9)) | ]. exact (Hthrows (VString "1") eq_refl).
Defined.

(** X4.  [has] with two keys or more returns one boolean per key, in the order
    of the keys, each telling whether that key is in the container;
    [hasAll] is [true] exactly when every given key is in it, and [hasAny]
    exactly when one is. *)
Theorem has_several_keys (keys : list value) (this : Containor.containor) :
  (2 <= List.length keys)%nat ->
  exists results hasAll hasAny,
    Containor.has keys this = Containor.HasArray results hasAll hasAny /\
    List.length results = List.length keys /\
    (forall i k, nth_error keys i = Some k ->
                 exists b, nth_error results i = Some b /\
                           (b = true <-> In k (NativeMap.keys this))) /\
    (hasAll = true <-> forall k, In k keys -> In k (NativeMap.keys this)) /\
    (hasAny = true <-> exists k, In k keys /\ In k (NativeMap.keys this)).
Proof.
  intros Hlen.
  set (results := List.map (fun key => NativeMap.has key this) keys).
  exists results, (forallb (fun b => b) results), (existsb (fun b => b) results).
  split; [ | split; [ | split; [ | split ] ] ].
  - destruct keys as [ | k1 [ | k2 rest ] ]; simpl in Hlen; try lia. reflexivity.
  - unfold results. apply length_map.
  - intros i k Hk. exists (NativeMap.has k this). split.
    + unfold results. rewrite nth_error_map, Hk. reflexivity.
    + apply has_In.
  - unfold results. rewrite forallb_forall. split.
    + intros H k Hk. apply has_In, H. apply in_map_iff. exists k. auto.
    + intros H b Hb. apply in_map_iff in Hb as [k [<- Hk]]. apply has_In, H, Hk.
  - unfold results. rewrite existsb_exists. split.
    + intros [b [Hb ->]]. apply in_map_iff in Hb as [k [Hk Hin]].
      exists k. split; [ exact Hin | apply has_In, Hk ].
    + intros [k [Hk Hin]]. exists true. split; [ | reflexivity ].
      apply in_map_iff. exists k. split; [ apply has_In, Hin | exact Hk ].
Qed.

Lemma has_several_keys_witness :
  let this := [(VString "a", VNum 1); (VString "b", VNum 2)] in
  exists results hasAll hasAny,
    Containor.has [VString "a"; VString "z"] this
      = Containor.HasArray results hasAll hasAny /\
    (hasAll = true <->
     forall k, In k [VString "a"; VString "z"] -> In k (NativeMap.keys this)) /\
    (hasAny = true <->
     exists k, In k [VString "a"; VString "z"] /\ In k (NativeMap.keys this)).
Proof.
  intros this.
  destruct (has_several_keys [VString "a"; VString "z"] this)
    as (results & hasAll & hasAny & H1 & _ & _ & H2 & H3); [ simpl; lia | ].
  exists results, hasAll, hasAny. split; [ exact H1 | ]. split; assumption.
Defined.

(* ================================================================== *)
(** * Further properties of the container: [ensure], [addMap], [sort] *)

Lemma get_set_other (k k' v : value) (m : NativeMap.t) :
  k <> k' -> NativeMap.get k (NativeMap.set k' v m) = NativeMap.get k m.
Proof.
  intros Hne. unfold NativeMap.get.
  induction m as [ | e m IH ]; simpl.
  - destruct (NativeMap.key_is k (k', v)) eqn:E; [ | reflexivity ].
    apply key_is_true in E. simpl in E. congruence.
  - destruct (NativeMap.key_is k' e) eqn:E'; simpl.
    + apply key_is_true in E'.
      assert (H1 : NativeMap.key_is k (fst e, v) = false)
        by (apply key_is_false; simpl; congruence).
      assert (H2 : NativeMap.key_is k e = false)
        by (apply key_is_false; congruence).
      rewrite H1, H2. reflexivity.
    + destruct (NativeMap.key_is k e); [ reflexivity | exact IH ].
Qed.

Lemma has_set_other (k k' v : value) (m : NativeMap.t) :
  k <> k' -> NativeMap.has k (NativeMap.set k' v m) = NativeMap.has k m.
Proof.
  intros Hne. apply eq_true_iff_eq. rewrite !has_In, keys_set.
  destruct (NativeMap.has k' m); [ reflexivity | ].
  rewrite in_app_iff. simpl. split; [ | tauto ].
  intros [H | [H | []]]; [ exact H | congruence ].
Qed.

(** In a well-formed map an entry is what [get] reads at its key. *)
Lemma get_In (k v : value) (m : NativeMap.t) :
  NativeMap.wf m -> In (k, v) m -> NativeMap.get k m = v.
Proof.
  unfold NativeMap.wf, NativeMap.get. induction m as [ | e m IH ]; intros Hwf Hin.
  - destruct Hin.
  - simpl in Hwf. apply NoDup_cons_iff in Hwf as [Hfresh Hwf]. simpl.
    destruct Hin as [-> | Hin].
    + unfold NativeMap.key_is. simpl. rewrite value_eqb_refl. reflexivity.
    + destruct (NativeMap.key_is k e) eqn:E.
      * apply key_is_true in E. exfalso. apply Hfresh. rewrite E.
        apply (in_map fst) in Hin. exact Hin.
      * apply IH; assumption.
Qed.

Lemma has_get_In (k : value) (m : NativeMap.t) :
  NativeMap.has k m = true -> In (k, NativeMap.get k m) m.
Proof.
  unfold NativeMap.has, NativeMap.get. induction m as [ | e m IH ]; simpl.
  - discriminate.
  - destruct (NativeMap.key_is k e) eqn:E; simpl.
    + intros _. left. apply key_is_true in E. destruct e; simpl in *. congruence.
    + intros H. right. apply IH, H.
Qed.

(** Two well-formed maps with the same entries read the same at every
    key. *)
Lemma get_permutation (k : value) (m m' : NativeMap.t) :
  NativeMap.wf m -> NativeMap.wf m' -> Permutation m m' ->
  NativeMap.get k m = NativeMap.get k m' /\ NativeMap.has k m = NativeMap.has k m'.
Proof.
  intros Hwf Hwf' Hperm.
  assert (Hhas : NativeMap.has k m = NativeMap.has k m').
  { apply eq_true_iff_eq. rewrite !has_In. split; intros H.
    - eapply Permutation_in; [ apply Permutation_map, Hperm | exact H ].
    - eapply Permutation_in; [ apply Permutation_map, Permutation_sym, Hperm | exact H ]. }
  split; [ | exact Hhas ].
  destruct (NativeMap.has k m) eqn:E.
  - apply has_get_In in E. symmetry. apply get_In; [ exact Hwf' | ].
    eapply Permutation_in; eassumption.
  - rewrite !get_absent; congruence.
Qed.

(** X5.  [ensure] on a key that is present returns what [get] reads there and
    changes nothing, whatever the generator, also when it is no function.
    On an absent key it throws when the generator is no function, the
    container unchanged.  With a generator and an absent key:
    - when [setDefault] is true, or the key and the generated value are
      ones [set] writes as an entry, it appends the key with the generated
      value and returns what [get] then reads, the value itself or [null]
      for [undefined], and every later [ensure] of that key returns the
      same and changes nothing;
    - when [setDefault] is false and the key is [undefined], it throws and
      changes nothing;
    - when [setDefault] is false, the key is defined and no string or
      number and the generated value is [undefined], it merges the key as
      [addMap] does and returns what [get] reads at the key afterwards. *)
Theorem ensure_once (key : value) (setDefault : bool) (this : Containor.containor) :
  (In key (NativeMap.keys this) ->
   forall valueGenerator,
     Containor.ensure key valueGenerator setDefault this
     = (this, Returns (Containor.get key this))) /\
  (~ In key (NativeMap.keys this) ->
   Containor.ensure key None setDefault this = (this, Throws GeneratorNotAFunction) /\
   forall valueGenerator,
     let generated := valueGenerator key this in
     (setDefault = true \/ Spec.writes_entry (key, generated) = true ->
      let this' := this ++ [(key, generated)] in
      Containor.ensure key (Some valueGenerator) setDefault this
      = (this', Returns (Containor.get key this')) /\
      Containor.get key this'
      = match generated with VUndefined => VNull | _ => generated end /\
      forall again setDefault',
        Containor.ensure key again setDefault' this'
        = (this', Returns (Containor.get key this'))) /\
     (setDefault = false -> key = VUndefined ->
      Containor.ensure key (Some valueGenerator) setDefault this
      = (this, Throws KeyUndefined)) /\
     (setDefault = false -> key <> VUndefined ->
      Spec.writes_entry (key, generated) = false ->
      Containor.ensure key (Some valueGenerator) setDefault this
      = match Containor.addMap key None this with
        | (merged, Returns _) => (merged, Returns (Containor.get key merged))
        | (merged, Throws e) => (merged, Throws e)
        end)).
Proof.
  assert (Hpresent : forall c d g,
     In key (NativeMap.keys c) ->
     Containor.ensure key g d c = (c, Returns (Containor.get key c))).
  { intros c d g Hin. apply has_In in Hin. unfold Containor.ensure.
    cbn [Containor.has]. rewrite Hin. reflexivity. }
  split; [ intros Hin g; apply Hpresent, Hin | ].
  intros Hout. apply has_not_In in Hout. split.
  - unfold Containor.ensure. cbn [Containor.has]. rewrite Hout. reflexivity.
  - intros g generated. split; [ | split ].
    + intros Hwrites this'.
      assert (Hset : NativeMap.set key generated this = this')
        by (apply set_absent, Hout).
      split; [ | split ].
      * unfold Containor.ensure. cbn [Containor.has]. rewrite Hout.
        fold generated. destruct setDefault.
        -- rewrite Hset. reflexivity.
        -- destruct Hwrites as [Hd | Hw]; [ discriminate Hd | ].
           rewrite (set_writes_entry key generated this Hw), Hset. reflexivity.
      * unfold Containor.get. rewrite <- Hset, get_set_same.
        destruct generated; reflexivity.
      * intros again d. apply Hpresent. unfold NativeMap.keys, this'.
        rewrite map_app. apply in_or_app. right. left. reflexivity.
    + intros -> ->. unfold Containor.ensure. cbn [Containor.has]. rewrite Hout.
      reflexivity.
    + intros -> Hkey Hwrites. unfold Containor.ensure. cbn [Containor.has].
      rewrite Hout. fold generated. rewrite set_unfold.
      unfold Spec.writes_entry in Hwrites. cbn [fst snd] in Hwrites.
      destruct (is_undefined key) eqn:Eu;
        [ destruct key; try discriminate Eu; contradiction Hkey; reflexivity | ].
      cbn [negb andb] in Hwrites.
      apply orb_false_iff in Hwrites as [Hwrites Hval].
      apply orb_false_iff in Hwrites as [Hstring Hnumber].
      apply negb_false_iff in Hval.
      rewrite Hstring, Hnumber, Hval. cbn [negb andb].
      destruct (Containor.addMap key None this) as [merged [ [] | e ]]; reflexivity.
Qed.

Lemma ensure_once_witness :
  let this := [(VString "a", VNum 1)] in
  let generator : Containor.generator := fun _ c => VNum (Containor.length c) in
  Containor.ensure (VString "a") None false this = (this, Returns (VNum 1)) /\
  Containor.ensure (VString "b") None false this
    = (this, Throws GeneratorNotAFunction) /\
  Containor.ensure (VString "b") (Some generator) false this
    = ([(VString "a", VNum 1); (VString "b", VNum 1)], Returns (VNum 1)).
Proof.
  intros this generator.
  destruct (ensure_once (VString "a") false this) as [Hin _].
  destruct (ensure_once (VString "b") false this) as [_ Hout].
  assert (Ha : In (VString "a") (NativeMap.keys this)) by (left; reflexivity).
  assert (Hb : ~ In (VString "b") (NativeMap.keys this)).
  { simpl. intros [H | []]. discriminate H. }
  split; [ exact (Hin Ha None) | ].
  destruct (Hout Hb) as [Hthrows Hgen].
  split; [ exact Hthrows | ].
  exact (proj1 (proj1 (Hgen generator) (or_intror eq_refl))).
Defined.

(** X6.  Setting a key that was not there and deleting it again gives back the
    container, entry for entry, when the key is no function and the key and
    the value are ones [set] writes as an entry: [set] succeeds and makes
    [has(key)] true and [get(key)] the value, [null] for [undefined], and
    [delete(key)] then returns [true]. *)
Theorem set_then_delete (behaviour : nat -> Containor.predicate)
    (key val : value) (this : Containor.containor) :
  NativeMap.wf this ->
  ~ In key (NativeMap.keys this) ->
  Spec.writes_entry (key, val) = true ->
  is_function key = false ->
  exists this',
    Containor.set key val this = (this', Returns tt) /\
    Containor.has [key] this' = Containor.HasBool true /\
    Containor.get key this' = match val with VUndefined => VNull | _ => val end /\
    Containor.delete behaviour [key] this' = (this, VBool true).
Proof.
  intros Hwf Hout Hwrites Hfun. apply has_not_In in Hout.
  exists (NativeMap.set key val this).
  split; [ apply set_writes_entry, Hwrites | ].
  split; [ simpl; rewrite has_set_same; reflexivity | ].
  split.
  - unfold Containor.get. rewrite get_set_same. destruct val; reflexivity.
  - unfold Containor.delete. cbn [List.length nth Nat.eqb]. rewrite Hfun.
    cbn [negb andb]. rewrite set_absent by exact Hout.
    assert (Hwf' : NativeMap.wf (this ++ (key, val) :: [])).
    { rewrite <- (set_absent key val this Hout). apply wf_set, Hwf. }
    pose proof (delete_middle this [] key val Hwf') as Hdel.
    rewrite app_nil_r in Hdel.
    assert (Hd : NativeMap.delete key (this ++ [(key, val)]) = (this, true)).
    { apply injective_projections; [ exact Hdel | ].
      unfold NativeMap.delete. cbn [snd].
      apply has_In. rewrite map_app. apply in_or_app. right. left. reflexivity. }
    rewrite Hd. reflexivity.
Qed.

Lemma set_then_delete_witness :
  let this := [(VString "a", VNum 1)] in
  let behaviour : nat -> Containor.predicate := fun _ _ _ _ _ => false in
  exists this',
    Containor.set (VString "b") VNull this = (this', Returns tt) /\
    Containor.delete behaviour [VString "b"] this' = (this, VBool true).
Proof.
  intros this behaviour.
  destruct (set_then_delete behaviour (VString "b") VNull this)
    as (this' & Hset & _ & _ & Hdelete).
  - solve_wf.
  - simpl. intros [H | []]. discriminate H.
  - reflexivity.
  - reflexivity.
  - exists this'. split; assumption.
Defined.

(** X7.  Whatever the comparator, consistent or not, and whatever order the
    engine's [Array.prototype.sort] puts the entries in, as long as it
    returns the entries it was given, [sort] returns normally and only
    re-orders: the container holds the same entries afterwards, in the
    order the engine left them in, so its length is the same and [has] and
    [get] answer the same for every key.  Without a function it throws and
    changes nothing. *)
Theorem sort_keeps_entries
    (arrange : (NativeMap.entry -> NativeMap.entry -> Z) ->
               list NativeMap.entry -> list NativeMap.entry)
    (func : Containor.comparator) (this : Containor.containor) :
  (forall compare entries, Permutation (arrange compare entries) entries) ->
  NativeMap.wf this ->
  Containor.sort_with arrange None this = (this, Throws NotAFunction) /\
  exists sorted,
    Containor.sort_with arrange (Some func) this = (sorted, Returns tt) /\
    sorted = arrange (Containor.compare_entries func) this /\
    Permutation sorted this /\
    NativeMap.wf sorted /\
    Containor.length sorted = Containor.length this /\
    forall k,
      Containor.get k sorted = Containor.get k this /\
      Containor.has [k] sorted = Containor.has [k] this.
Proof.
  intros Hengine Hwf. split; [ reflexivity | ].
  set (compare := Containor.compare_entries func).
  pose proof (Hengine compare this) as Hperm.
  assert (Hwf' : NativeMap.wf (arrange compare this))
    by (eapply wf_permutation; eassumption).
  exists (arrange compare this).
  split; [ | split; [ reflexivity
                    | split; [ exact Hperm | split; [ exact Hwf' | split ] ] ] ].
  - unfold Containor.sort_with. fold compare.
    rewrite (rebuild_app _ []) by exact Hwf'. reflexivity.
  - unfold Containor.length. rewrite (Permutation_length Hperm). reflexivity.
  - intros k. destruct (get_permutation k _ _ Hwf' Hwf Hperm) as [Hget Hhas].
    unfold Containor.get. cbn [Containor.has]. rewrite Hget, Hhas. split; reflexivity.
Qed.

Lemma sort_keeps_entries_witness :
  let func : Containor.comparator := fun _ _ _ _ => -1 in
  let this := [(VString "a", VNum 1); (VString "b", VNum 2)] in
  exists sorted,
    Containor.sort (Some func) this = (sorted, Returns tt) /\
    Permutation sorted this /\
    (forall k, Containor.get k sorted = Containor.get k this /\
               Containor.has [k] sorted = Containor.has [k] this).
Proof.
  intros func this.
  destruct (sort_keeps_entries (@NativeArray.sort NativeMap.entry) func this)
    as (_ & sorted & H1 & _ & H2 & _ & _ & H3).
  - intros compare entries. apply sort_permutation.
  - solve_wf.
  - exists sorted. split; [ exact H1 | ]. split; assumption.
Defined.

Lemma get_rebuild_other (k : value) (entries : list NativeMap.entry) :
  forall this : Containor.containor,
    ~ In k (map fst entries) ->
    NativeMap.get k (Containor.rebuild entries this) = NativeMap.get k this.
Proof.
  unfold Containor.rebuild.
  induction entries as [ | [k' v'] entries IH ]; intros this Hout; simpl.
  - reflexivity.
  - simpl in Hout. rewrite IH by tauto. apply get_set_other. intros ->. tauto.
Qed.

Lemma get_rebuild_In (k v : value) (entries : list NativeMap.entry) :
  forall this : Containor.containor,
    NoDup (map fst entries) -> In (k, v) entries ->
    NativeMap.get k (Containor.rebuild entries this) = v.
Proof.
  induction entries as [ | [k' v'] entries IH ]; intros this Hnd Hin.
  - destruct Hin.
  - simpl in Hnd. apply NoDup_cons_iff in Hnd as [Hfresh Hnd].
    change (Containor.rebuild ((k', v') :: entries) this)
      with (Containor.rebuild entries (NativeMap.set k' v' this)).
    destruct Hin as [[= -> ->] | Hin].
    + rewrite get_rebuild_other by exact Hfresh. apply get_set_same.
    + apply IH; assumption.
Qed.

Lemma rebuild_map {A : Type} (f : A -> NativeMap.entry) (items : list A) :
  forall this : Containor.containor,
    Containor.rebuild (map f items) this
    = fold_left (fun m x => NativeMap.set (fst (f x)) (snd (f x)) m) items this.
Proof.
  unfold Containor.rebuild.
  induction items as [ | x items IH ]; intros this; simpl; [ reflexivity | apply IH ].
Qed.

(** The keys after a run of native writes, whatever values are written. *)
Lemma keys_for_each_native {A : Type} (key_of : A -> value)
    (value_of : A -> Containor.containor -> value) (items : list A) :
  forall this : Containor.containor,
    exists this',
      Containor.for_each
        (fun x c => (NativeMap.set (key_of x) (value_of x c) c, Returns tt))
        items this = (this', Returns tt) /\
      NativeMap.keys this'
      = NativeMap.keys this
          ++ Spec.first_occurrences (NativeMap.keys this) (map key_of items).
Proof.
  unfold NativeMap.keys.
  induction items as [ | x items IH ]; intros this; simpl.
  - exists this. rewrite app_nil_r. split; reflexivity.
  - destruct (IH (NativeMap.set (key_of x) (value_of x this) this))
      as (this' & Hrun & Hkeys).
    exists this'. split; [ exact Hrun | ].
    rewrite Hkeys, keys_set, existsb_keys.
    destruct (NativeMap.has (key_of x) this); [ reflexivity | ].
    rewrite <- app_assoc. simpl. do 2 f_equal.
    apply first_occurrences_ext. intros y. rewrite in_app_iff. simpl. tauto.
Qed.

(** X8.  [addMap] of a plain object, one whose constructor is [Object], never
    throws, with or without a reducer.  The keys that were there keep their
    places and the new property names follow, each at its first occurrence.
    Without a reducer [get] reads every property back at its name, [null]
    for [undefined], and a key that is no property of the source reads what
    it did.  An object whose constructor is not [Object] is left out: the
    container stays as it is. *)
Theorem addMap_object (id : nat) (props : list (string * value))
    (func : option Containor.reducer) (this : Containor.containor) :
  (is_plainObject (VObject id props) = false ->
   Containor.addMap (VObject id props) func this = (this, Returns tt)) /\
  (is_plainObject (VObject id props) = true ->
   exists this',
     Containor.addMap (VObject id props) func this = (this', Returns tt) /\
     NativeMap.keys this'
     = NativeMap.keys this
         ++ Spec.first_occurrences (NativeMap.keys this)
              (map (fun p => VString (fst p)) props) /\
     (func = None ->
      (NoDup (map fst props) ->
       forall name v,
         In (name, v) props ->
         Containor.get (VString name) this'
         = match v with VUndefined => VNull | _ => v end) /\
      (forall k, ~ In k (map (fun p => VString (fst p)) props) ->
                 Containor.get k this' = Containor.get k this))).
Proof.
  split.
  { intros Hplain. unfold Containor.addMap. rewrite Hplain. reflexivity. }
  intros Hplain.
  set (transform := match func with Some f => f | None => fun v _ _ _ => v end).
  destruct (keys_for_each_native
              (fun p : string * value => VString (fst p))
              (fun p c => transform (snd p) (Containor.get (VString (fst p)) c)
                            (VString (fst p)) c)
              props this) as (this' & Hrun & Hkeys).
  assert (Hadd : Containor.addMap (VObject id props) func this = (this', Returns tt)).
  { rewrite <- Hrun. unfold Containor.addMap. rewrite Hplain. fold transform.
    apply for_each_ext. intros p c _. cbv zeta. apply set_writes_entry. reflexivity. }
  exists this'. split; [ exact Hadd | ]. split; [ exact Hkeys | ].
  intros ->.
  assert (Hthis' : this'
    = Containor.rebuild (map (fun p => (VString (fst p), snd p)) props) this).
  { rewrite rebuild_map. cbn [fst snd].
    rewrite for_each_total in Hrun. injection Hrun as <-. reflexivity. }
  split.
  - intros Hnd name v Hin. unfold Containor.get. rewrite Hthis'.
    rewrite (get_rebuild_In (VString name) v).
    + destruct v; reflexivity.
    + rewrite map_map. cbn [fst]. rewrite <- (map_map fst VString).
      apply Finite.Injective_map_NoDup; [ | exact Hnd ].
      intros x y [= H]. exact H.
    + apply in_map_iff. exists (name, v). split; [ reflexivity | exact Hin ].
  - intros k Hout. unfold Containor.get. rewrite Hthis'.
    rewrite get_rebuild_other; [ reflexivity | ].
    rewrite map_map. exact Hout.
Qed.

Lemma addMap_object_witness :
  let this := [(VString "a", VNum 1); (VString "b", VNum 2)] in
  let props := [("c"%string, VNum 3); ("a"%string, VNum 9)] in
  exists this',
    Containor.addMap (VObject 1 props) None this = (this', Returns tt) /\
    NativeMap.keys this' = [VString "a"; VString "b"; VString "c"] /\
    Containor.get (VString "a") this' = VNum 9 /\
    Containor.get (VString "b") this' = VNum 2.
Proof.
  intros this props.
  destruct (proj2 (addMap_object 1 props None this) eq_refl)
    as (this' & Hrun & Hkeys & Hget).
  destruct (Hget eq_refl) as [Hin Hother].
  exists this'. split; [ exact Hrun | ]. split; [ exact Hkeys | ]. split.
  - apply (Hin ltac:(repeat constructor; simpl; intuition discriminate)
             "a"%string (VNum 9)).
    right. left. reflexivity.
  - rewrite Hother; [ reflexivity | ]. simpl. intuition discriminate.
Defined.

(* ================================================================== *)
(** * Further properties of the container: copies and sequences *)

(** X9.  [clone()] and [Containor.from(container)] return a container with the
    same entries in the same order, when each entry is one [set] writes as
    it is. *)
Theorem clone_copies (id : nat) (this : Containor.containor) :
  NativeMap.wf this ->
  forallb Spec.writes_entry this = true ->
  Containor.clone id this = Returns this /\
  Containor.from_source (VMap id this) = Returns this.
Proof.
  intros Hwf Hwrites.
  pose proof (set_all_writes this [] Hwrites) as Hrun.
  rewrite (rebuild_app this []) in Hrun by exact Hwf.
  unfold Spec.set_all in Hrun. cbn [app] in Hrun. split.
  - unfold Containor.clone, Containor.construct. cbn [Containor.truthy negb].
    unfold Containor.addMap. cbv zeta.
    rewrite (for_each_ext _ (fun call => Containor.set (fst call) (snd call)))
      by reflexivity.
    rewrite Hrun. reflexivity.
  - unfold Containor.from_source. rewrite Hrun. reflexivity.
Qed.

Lemma clone_copies_witness :
  let this := [(VString "a", VNum 1); (VNum 7, VNull); (VBool true, VString "x")] in
  Containor.clone 0 this = Returns this /\
  Containor.from_source (VMap 0 this) = Returns this.
Proof.
  intros this. apply clone_copies; [ solve_wf | reflexivity ].
Defined.

Lemma from_elements (items : list value) :
  (2 <= List.length items)%nat ->
  ContainorArray.from items = Returns (ContainorArray.Elements items).
Proof.
  intros H. destruct items as [ | x [ | y rest ] ]; simpl in H; try lia.
  unfold ContainorArray.from, ContainorArray.construct.
  destruct x; reflexivity.
Qed.

(** X10.  [map] calls the function once per entry, in insertion order.  On a
    container of two entries or more it returns the sequence of what the
    function returned, as long as the container; on an empty one the empty
    sequence.  On a container of one entry it returns the one result unless
    that is a number: a number [n] that is an array length gives a sequence
    of length [n] that holds no element. *)
Theorem map_in_order (func : Containor.transform) (this : Containor.containor) :
  let results := List.map (fun e => func (snd e) (fst e) this) this in
  List.length results = List.length this /\
  (List.length this <> 1%nat ->
   Containor.map (Some func) this = Returns (ContainorArray.Elements results)) /\
  (forall k v,
     this = [(k, v)] ->
     match func v k this with
     | VNum n =>
         Containor.map (Some func) this
         = if (0 <=? n) && (n <? 2 ^ 32)
           then Returns (ContainorArray.EmptySlots n)
           else Throws RangeError
     | VFraction _ _ | VNonFinite _ =>
         Containor.map (Some func) this = Throws RangeError
     | result =>
         Containor.map (Some func) this
         = Returns (ContainorArray.Elements [result])
     end) /\
  Containor.map None this = Throws NotAFunction.
Proof.
  intros results. split; [ apply length_map | ]. split; [ | split ].
  - intros Hlen. unfold Containor.map. fold results.
    destruct this as [ | e1 [ | e2 rest ] ];
      [ reflexivity | exfalso; apply Hlen; reflexivity | ].
    apply from_elements. unfold results. simpl. lia.
  - intros k v ->. unfold Containor.map, ContainorArray.from, ContainorArray.construct.
    cbn [List.map fst snd]. destruct (func v k [(k, v)]); reflexivity.
  - reflexivity.
Qed.

Lemma map_in_order_witness :
  let double : Containor.transform :=
    fun v _ _ => match v with VNum n => VNum (2 * n) | _ => v end in
  Containor.map (Some double) [(VString "a", VNum 1); (VString "b", VNum 2)]
    = Returns (ContainorArray.Elements [VNum 2; VNum 4]) /\
  Containor.map (Some double) [(VString "a", VNum 1)]
    = Returns (ContainorArray.EmptySlots 2).
Proof.
  intros double. split.
  - refine (proj1 (proj2 (map_in_order double
      [(VString "a", VNum 1); (VString "b", VNum 2)])) _). simpl. lia.
  - exact (proj1 (proj2 (proj2 (map_in_order double [(VString "a", VNum 1)])))
             (VString "a") (VNum 1) eq_refl).
Defined.

Lemma slice_first_map {A B : Type} (f : A -> B) (n : Z) (l : list A) :
  0 <= n <= Z.of_nat (List.length l) ->
  NativeArray.slice (Some 0) (Some n) (List.map f l)
  = List.map f (firstn (Z.to_nat n) l).
Proof.
  intros H. rewrite slice_first by (rewrite length_map; exact H).
  apply firstn_map.
Qed.

Lemma slice_last_map {A B : Type} (f : A -> B) (n : Z) (l : list A) :
  1 <= n <= Z.of_nat (List.length l) ->
  NativeArray.slice (Some (- n)) None (List.map f l)
  = List.map f (skipn (Z.to_nat (Z.of_nat (List.length l) - n)) l).
Proof.
  intros H. rewrite slice_last by (rewrite length_map; exact H).
  rewrite length_map. apply skipn_map.
Qed.

(** The amount the four methods end up with, for a whole number from 1. *)
Lemma amount_whole (n size : Z) :
  1 <= n ->
  Math.min (Whole size)
    match as_finite (VNum n) with
    | Some amount => if Number.leb amount (Whole 0) then Whole 1 else amount
    | None => Whole 1
    end
  = Whole (Z.min size n).
Proof.
  intros Hn. cbn [as_finite]. rewrite leb_whole.
  destruct (Z.leb_spec n 0); [ lia | ].
  unfold Math.min. rewrite ltb_whole.
  destruct (Z.ltb_spec n size); f_equal; lia.
Qed.

(** X11.  With a whole amount of 2 or more on a container of two entries or
    more, [firstKeys] and [firstValues] return the keys and the values of
    the first entries, as many as the amount says and the container has, in
    their order, and [lastKeys] and [lastValues] those of the last ones.
    They are the keys and the values of the container [first], respectively
    [last], returns, when [Containor.from] copies each of these entries as
    it is. *)
Theorem first_keys_values (n : Z) (this : Containor.containor) :
  2 <= n -> 2 <= Containor.length this ->
  let size := Containor.length this in
  let first_entries := firstn (Z.to_nat (Z.min n size)) this in
  let last_entries := skipn (Z.to_nat (size - Z.min n size)) this in
  Containor.firstKeys (VNum n) this
    = Returns (ContainorArray.Elements (NativeMap.keys first_entries)) /\
  Containor.firstValues (VNum n) this
    = Returns (ContainorArray.Elements (NativeMap.values first_entries)) /\
  Containor.lastKeys (VNum n) this
    = Returns (ContainorArray.Elements (NativeMap.keys last_entries)) /\
  Containor.lastValues (VNum n) this
    = Returns (ContainorArray.Elements (NativeMap.values last_entries)) /\
  (NativeMap.wf this ->
   forallb Spec.copied_as_is first_entries = true ->
   Containor.first (VNum n) this = Returns (Containor.Several first_entries)) /\
  (NativeMap.wf this ->
   forallb Spec.copied_as_is last_entries = true ->
   Containor.last (VNum n) this = Returns (Containor.Several last_entries)).
Proof.
  intros Hn Hsize size first_entries last_entries.
  unfold first_entries, last_entries. rewrite (Z.min_comm n size).
  remember (Z.min size n) as m eqn:Em.
  assert (Hm : 2 <= m <= Z.of_nat (List.length this))
    by (unfold size, Containor.length in *; lia).
  assert (Hfirst : (2 <= List.length (firstn (Z.to_nat m) this))%nat)
    by (rewrite length_firstn; lia).
  assert (Hlast : (2 <= List.length (skipn (Z.to_nat (size - m)) this))%nat)
    by (rewrite length_skipn; unfold size, Containor.length; lia).
  assert (Hreq : Spec.requested (VNum n) = Whole n).
  { unfold Spec.requested. destruct (Z.leb_spec n 0); [ lia | reflexivity ]. }
  split; [ | split; [ | split; [ | split; [ | split ] ] ] ].
  - unfold Containor.firstKeys, NativeMap.keys. cbv zeta.
    rewrite amount_whole by lia. fold size. rewrite <- Em. cbn [Number.trunc].
    rewrite slice_first_map by (split; [ lia | exact (proj2 Hm) ]).
    apply from_elements.
    rewrite length_map. exact Hfirst.
  - unfold Containor.firstValues, NativeMap.values. cbv zeta.
    rewrite amount_whole by lia. fold size. rewrite <- Em. cbn [Number.trunc].
    rewrite slice_first_map by (split; [ lia | exact (proj2 Hm) ]).
    apply from_elements.
    rewrite length_map. exact Hfirst.
  - unfold Containor.lastKeys, NativeMap.keys. cbv zeta.
    rewrite amount_whole by lia. fold size. rewrite <- Em.
    cbn [Number.trunc Number.opp].
    rewrite slice_last_map by (split; [ lia | exact (proj2 Hm) ]).
    apply from_elements.
    rewrite length_map. exact Hlast.
  - unfold Containor.lastValues, NativeMap.values. cbv zeta.
    rewrite amount_whole by lia. fold size. rewrite <- Em.
    cbn [Number.trunc Number.opp].
    rewrite slice_last_map by (split; [ lia | exact (proj2 Hm) ]).
    apply from_elements.
    rewrite length_map. exact Hlast.
  - intros Hwf Hcopied. rewrite first_by_amount. cbv zeta. rewrite Hreq.
    fold size. rewrite <- Em.
    destruct (Z.leb_spec m 1); [ lia | ].
    apply built_from_copied; auto using wf_firstn.
  - intros Hwf Hcopied. rewrite last_by_amount. cbv zeta. rewrite Hreq.
    fold size. rewrite <- Em.
    destruct (Z.leb_spec m 1); [ lia | ].
    apply built_from_copied; auto using wf_skipn.
Qed.

Lemma first_keys_values_witness :
  let this := [(VString "a", VNum 1); (VString "b", VNum 2); (VString "c", VNum 3)] in
  Containor.firstKeys (VNum 2) this
    = Returns (ContainorArray.Elements [VString "a"; VString "b"]) /\
  Containor.firstValues (VNum 2) this
    = Returns (ContainorArray.Elements [VNum 1; VNum 2]) /\
  Containor.lastKeys (VNum 2) this
    = Returns (ContainorArray.Elements [VString "b"; VString "c"]) /\
  Containor.lastValues (VNum 2) this
    = Returns (ContainorArray.Elements [VNum 2; VNum 3]) /\
  Containor.first (VNum 2) this
    = Returns (Containor.Several [(VString "a", VNum 1); (VString "b", VNum 2)]) /\
  Containor.last (VNum 2) this
    = Returns (Containor.Several [(VString "b", VNum 2); (VString "c", VNum 3)]).
Proof.
  intros this.
  assert (Hn : 2 <= 2) by lia.
  assert (Hsize : 2 <= Containor.length this)
    by (unfold Containor.length; simpl; lia).
  destruct (first_keys_values 2 this Hn Hsize)
    as (H1 & H2 & H3 & H4 & H5 & H6).
  split; [ exact H1 | ]. split; [ exact H2 | ]. split; [ exact H3 | ].
  split; [ exact H4 | ]. split.
  - apply H5; [ solve_wf | reflexivity ].
  - apply H6; [ solve_wf | reflexivity ].
Defined.

Lemma indexed_combine (items : list value) (n : nat) :
  Containor.indexed (Z.of_nat n) items
  = combine (map VNum (map Z.of_nat (seq n (List.length items)))) items.
Proof.
  revert n. induction items as [ | v rest IH ]; intros n; simpl; [ reflexivity | ].
  f_equal. replace (Z.of_nat n + 1) with (Z.of_nat (S n)) by lia. apply IH.
Qed.

Lemma keys_indexed (items : list value) (n : nat) :
  map fst (Containor.indexed (Z.of_nat n) items)
  = map (fun j => VNum (Z.of_nat j)) (seq n (List.length items)).
Proof.
  revert n. induction items as [ | v rest IH ]; intros n; simpl; [ reflexivity | ].
  f_equal. replace (Z.of_nat n + 1) with (Z.of_nat (S n)) by lia. apply IH.
Qed.

Lemma NoDup_numbers (n len : nat) :
  NoDup (map (fun j => VNum (Z.of_nat j)) (seq n len)).
Proof.
  apply Finite.Injective_map_NoDup; [ | apply seq_NoDup ].
  intros x y [= H]. lia.
Qed.

Lemma copied_indexed (items : list value) (i : Z) :
  forallb (fun v => negb (Spec.names_entry v)) items = true ->
  forallb Spec.copied_as_is (Containor.indexed i items) = true.
Proof.
  revert i. induction items as [ | v rest IH ]; intros i H; simpl; [ reflexivity | ].
  simpl in H. apply andb_true_iff in H as [Hv Hrest].
  rewrite IH by exact Hrest. rewrite andb_true_r.
  unfold Spec.copied_as_is, Spec.writes_entry. cbn [fst snd is_undefined is_number
    is_string negb orb andb].
  unfold Spec.names_entry in Hv. exact Hv.
Qed.

(** The loop of lines 759-764 without [mapFn]: each index under itself. *)
Lemma from_indices (count : Z) :
  Containor.built_by
    (Containor.for_each (fun i => Containor.set (VNum i) (VNum i))
       (map Z.of_nat (seq 0 (Z.to_nat count))) [])
  = Returns (map (fun i => (VNum (Z.of_nat i), VNum (Z.of_nat i)))
               (seq 0 (Z.to_nat count))).
Proof.
  set (indices := seq 0 (Z.to_nat count)).
  rewrite (for_each_ext _
             (fun i m => (NativeMap.set (VNum i) (VNum i) m, Returns tt)))
    by reflexivity.
  rewrite for_each_total. cbn [Containor.built_by]. f_equal.
  pose proof (rebuild_map (fun i => (VNum i, VNum i)) (map Z.of_nat indices) [])
    as Hmap.
  cbn [fst snd] in Hmap. rewrite <- Hmap. rewrite map_map.
  apply (rebuild_app _ []). unfold NativeMap.wf. cbn [app].
  rewrite map_map. cbn [fst]. apply NoDup_numbers.
Qed.

(** X12.  [Containor.from] of an array of bare values, not all of them arrays and
    none a plain object with [key] and [value], keys each value by its
    index: the new container holds the values in order under 0, 1, 2, ...
    Of a plain object, one whose constructor is [Object], with a [length]
    that is a finite number it holds each whole number from 0 that is below
    the length under itself.  An object whose constructor is not [Object]
    is refused with a [TypeError]. *)
Theorem from_bare_values (id : nat) :
  (forall items,
     existsb (fun v => negb (is_array v)) items = true ->
     forallb (fun v => negb (Spec.names_entry v)) items = true ->
     Containor.from_source (VArray id items)
     = Returns (combine (map VNum (Spec.positions items)) items)) /\
  (forall props n,
     is_plainObject (VObject id props) = true ->
     get_prop "length" props = VNum n ->
     Containor.from_source (VObject id props)
     = Returns (map (fun i => (VNum (Z.of_nat i), VNum (Z.of_nat i)))
                  (seq 0 (Z.to_nat n)))) /\
  (forall props w p,
     is_plainObject (VObject id props) = true ->
     get_prop "length" props = VFraction w p ->
     Containor.from_source (VObject id props)
     = Returns (map (fun i => (VNum (Z.of_nat i), VNum (Z.of_nat i)))
                  (seq 0 (Z.to_nat (w + 1))))) /\
  (forall props,
     is_plainObject (VObject id props) = false ->
     Containor.from_source (VObject id props) = Throws TypeError).
Proof.
  split; [ | split; [ | split ] ].
  - intros items Hbare Hplain. unfold Containor.from_source.
    assert (Hall : forallb is_array items = false).
    { apply existsb_exists in Hbare as [v [Hin Hv]].
      destruct (forallb is_array items) eqn:E; [ | reflexivity ].
      rewrite forallb_forall in E. rewrite (E v Hin) in Hv. discriminate. }
    rewrite Hall. cbn [negb].
    rewrite from_entries_copied.
    + f_equal. apply (indexed_combine items 0).
    + unfold NativeMap.wf. pose proof (keys_indexed items 0) as Hkeys.
      cbn [Z.of_nat] in Hkeys. rewrite Hkeys. apply NoDup_numbers.
    + apply copied_indexed, Hplain.
  - intros props n Hplain Hlen. unfold Containor.from_source.
    rewrite Hplain, Hlen. cbn [as_finite Math.ceil]. apply from_indices.
  - intros props w p Hplain Hlen. unfold Containor.from_source.
    rewrite Hplain, Hlen. cbn [as_finite Math.ceil]. apply from_indices.
  - intros props Hplain. unfold Containor.from_source. rewrite Hplain.
    reflexivity.
Qed.

Lemma from_bare_values_witness :
  Containor.from_source (VArray 0 [VString "x"; VArray 1 []; VNull])
    = Returns [(VNum 0, VString "x"); (VNum 1, VArray 1 []); (VNum 2, VNull)] /\
  Containor.from_source (VObject 1 [("length"%string, VNum 3)])
    = Returns [(VNum 0, VNum 0); (VNum 1, VNum 1); (VNum 2, VNum 2)] /\
  Containor.from_source (VObject 1 [("length"%string, VFraction 1 1)])
    = Returns [(VNum 0, VNum 0); (VNum 1, VNum 1)] /\
  Containor.from_source
    (VObject 1 [("length"%string, VNum 2); ("constructor"%string, VNum 5)])
    = Throws TypeError.
Proof.
  split; [ | split; [ | split ] ].
  - exact (proj1 (from_bare_values 0) [VString "x"; VArray 1 []; VNull]
             eq_refl eq_refl).
  - exact (proj1 (proj2 (from_bare_values 1)) [("length"%string, VNum 3)] 3
             eq_refl eq_refl).
  - exact (proj1 (proj2 (proj2 (from_bare_values 1)))
             [("length"%string, VFraction 1 1)] 1 1%positive eq_refl eq_refl).
  - exact (proj2 (proj2 (proj2 (from_bare_values 1)))
             [("length"%string, VNum 2); ("constructor"%string, VNum 5)] eq_refl).
Defined.

(* ================================================================== *)
(** * What [filter], [partition] and [slice] build *)

Lemma on_set_append (r : Containor.address) (e : NativeMap.entry)
    (s : Containor.store) :
  Spec.writes_entry e = true ->
  ~ In (fst e) (NativeMap.keys (Containor.load r s)) ->
  Containor.on r (Containor.set (fst e) (snd e)) s
  = (Containor.write r (Containor.load r s ++ [e]) s, Returns tt).
Proof.
  intros Hw Hfresh. unfold Containor.on. destruct e as [k v]. cbn [fst snd] in *.
  rewrite (set_writes_entry k v _ Hw). apply has_not_In in Hfresh.
  rewrite set_absent by exact Hfresh. reflexivity.
Qed.

(** A loop that writes each entry to the container [dest] names, or to
    none: every container ends with the entries sent to it behind those it
    had, in the order of the loop. *)
Lemma distribute (this : Containor.address) (T : Containor.containor)
    (dest : NativeMap.entry -> option Containor.address)
    (body : NativeMap.entry -> Containor.store -> Containor.store * result unit)
    (todo : list NativeMap.entry) :
  forall s : Containor.store,
    Containor.load this s = T ->
    (forall e s', In e todo -> Containor.load this s' = T ->
       body e s' = match dest e with
                   | Some r => Containor.on r (Containor.set (fst e) (snd e)) s'
                   | None => (s', Returns tt)
                   end) ->
    (forall e r, In e todo -> dest e = Some r ->
       (r < List.length s)%nat /\ r <> this /\
       ~ In (fst e) (NativeMap.keys (Containor.load r s))) ->
    (forall e, In e todo -> dest e <> None -> Spec.writes_entry e = true) ->
    NoDup (map fst todo) ->
    exists s',
      Containor.for_each body todo s = (s', Returns tt) /\
      List.length s' = List.length s /\
      forall r, Containor.load r s'
                = Containor.load r s ++ List.filter (Spec.goes_to dest r) todo.
Proof.
  induction todo as [ | e rest IH ]; intros s HT Hbody Hdest Hwrites Hnd.
  - exists s. split; [ reflexivity | ]. split; [ reflexivity | ].
    intros r. rewrite app_nil_r. reflexivity.
  - assert (Hwrites' : forall e', In e' rest -> dest e' <> None ->
                                    Spec.writes_entry e' = true).
    { intros e' Hin. apply Hwrites. right. exact Hin. }
    cbn [map] in Hnd. apply NoDup_cons_iff in Hnd as [Hfresh Hnd].
    cbn [Containor.for_each].
    rewrite (Hbody e s (or_introl eq_refl) HT).
    assert (Hbody' : forall e' s', In e' rest -> Containor.load this s' = T ->
       body e' s' = match dest e' with
                    | Some r => Containor.on r (Containor.set (fst e') (snd e')) s'
                    | None => (s', Returns tt)
                    end).
    { intros e' s' Hin. apply Hbody. right. exact Hin. }
    destruct (dest e) as [ r0 | ] eqn:Edest.
    + destruct (Hdest e r0 (or_introl eq_refl) Edest) as (Hr0 & Hne & Hout).
      assert (Hw : Spec.writes_entry e = true).
      { apply Hwrites; [ left; reflexivity | rewrite Edest; discriminate ]. }
      rewrite (on_set_append r0 e s Hw Hout).
      set (s1 := Containor.write r0 (Containor.load r0 s ++ [e]) s).
      assert (Hlen1 : List.length s1 = List.length s) by (apply length_write, Hr0).
      destruct (IH s1) as (s' & Hrun & Hlen & Hload); try assumption.
      * unfold s1. rewrite load_write_other by auto. exact HT.
      * intros e' r Hin Hr. destruct (Hdest e' r (or_intror Hin) Hr) as (H1 & H2 & H3).
        split; [ lia | ]. split; [ exact H2 | ].
        destruct (Nat.eq_dec r r0) as [-> | Hother].
        -- unfold s1. rewrite load_write_same by exact Hr0.
           unfold NativeMap.keys. rewrite map_app, in_app_iff. cbn [map In].
           intros [Hin' | [Heq | []]]; [ exact (H3 Hin') | ].
           apply Hfresh. rewrite Heq. apply in_map, Hin.
        -- unfold s1. rewrite load_write_other by auto. exact H3.
      * exists s'. split; [ exact Hrun | ]. split; [ lia | ].
        intros r. rewrite Hload. cbn [List.filter]. unfold Spec.goes_to at 2.
        rewrite Edest. destruct (Nat.eqb_spec r0 r) as [<- | Hother].
        -- unfold s1. rewrite load_write_same by exact Hr0.
           rewrite <- app_assoc. reflexivity.
        -- unfold s1. rewrite load_write_other by auto. reflexivity.
    + destruct (IH s) as (s' & Hrun & Hlen & Hload); try assumption.
      * intros e' r Hin Hr. apply (Hdest e' r); [ right; exact Hin | exact Hr ].
      * exists s'. split; [ exact Hrun | ]. split; [ exact Hlen | ].
        intros r. rewrite Hload. cbn [List.filter]. unfold Spec.goes_to at 2.
        rewrite Edest. reflexivity.
Qed.

Lemma load_alloc (s : Containor.store) :
  Containor.load (List.length s) (s ++ [[]]) = [] /\
  forall a, (a < List.length s)%nat ->
            Containor.load a (s ++ [[]]) = Containor.load a s.
Proof.
  unfold Containor.load. split.
  - apply nth_middle.
  - intros a Ha. apply app_nth1, Ha.
Qed.

Lemma length_filter_count {A : Type} (f : A -> bool) (l : list A) :
  List.length (List.filter f l) = count_occ Bool.bool_dec (map f l) true.
Proof.
  induction l as [ | x l IH ]; simpl; [ reflexivity | ].
  destruct (f x); simpl; [ f_equal; exact IH | ].
  destruct (bool_dec false true); [ discriminate | exact IH ].
Qed.

(** X13.  When each entry of the receiver for which the function holds is one
    [set] writes as an entry (the key is defined, and it is a string or a
    number or the value is defined), [filter] returns a new container that
    holds the entries of the receiver for which the function holds, in the
    receiver's order, and no other, so its length is the number of entries
    that satisfy the function. *)
Theorem filter_holds_matches (func : Containor.callback)
    (this : Containor.address) (s : Containor.store) :
  let matches e := func (snd e) (fst e) (Containor.load this s) in
  (this < List.length s)%nat ->
  NativeMap.wf (Containor.load this s) ->
  forallb Spec.writes_entry (List.filter matches (Containor.load this s)) = true ->
  exists s',
    Containor.filter (Some func) this s = (s', Returns (List.length s)) /\
    Containor.load (List.length s) s' = List.filter matches (Containor.load this s) /\
    Containor.length (Containor.load (List.length s) s')
    = Z.of_nat (count_occ Bool.bool_dec
                  (map matches (Containor.load this s)) true).
Proof.
  intros matches Hthis Hwf Hwrites.
  set (T := Containor.load this s).
  set (results := List.length s).
  set (dest := fun e : NativeMap.entry => if matches e then Some results else None).
  destruct (load_alloc s) as [Hnew Hold].
  destruct (distribute this T dest
              (fun e s0 =>
                 if func (snd e) (fst e) (Containor.load this s0)
                 then Containor.on results (Containor.set (fst e) (snd e)) s0
                 else (s0, Returns tt))
              T (s ++ [[]]))
    as (s' & Hrun & _ & Hload).
  - apply Hold, Hthis.
  - intros e s0 _ ->. unfold dest, matches. fold T.
    destruct (func (snd e) (fst e) T); reflexivity.
  - intros e r _ Hr. unfold dest in Hr. destruct (matches e); [ | discriminate ].
    injection Hr as <-. unfold results. rewrite length_app. cbn [List.length].
    split; [ lia | ]. split; [ lia | ]. rewrite Hnew. intros [].
  - intros e Hin Hdest. rewrite forallb_forall in Hwrites. apply Hwrites.
    apply filter_In. split; [ exact Hin | ].
    unfold dest in Hdest. destruct (matches e); [ reflexivity | ].
    contradiction Hdest. reflexivity.
  - exact Hwf.
  - assert (Hresult : Containor.load results s' = List.filter matches T).
    { rewrite Hload. unfold results at 1. rewrite Hnew. cbn [app].
      apply filter_ext. intros e. unfold Spec.goes_to, dest.
      destruct (matches e); [ apply Nat.eqb_refl | reflexivity ]. }
    exists s'. split; [ | split ].
    + unfold Containor.filter, Containor.alloc.
      rewrite (Hold this Hthis). fold T.
      match goal with
      | |- context [Containor.for_each ?b ?l ?st] =>
          replace (Containor.for_each b l st) with (s', @Returns unit tt)
            by (symmetry; exact Hrun)
      end.
      reflexivity.
    + exact Hresult.
    + rewrite Hresult. unfold Containor.length. f_equal.
      apply length_filter_count.
Qed.

Lemma filter_holds_matches_witness :
  let this := [(VString "a", VNum 1); (VString "b", VNum 2); (VString "c", VNum 3)] in
  let odd : Containor.callback :=
    fun v _ _ => match v with VNum n => Z.odd n | _ => false end in
  exists s',
    Containor.filter (Some odd) 0%nat [this] = (s', Returns 1%nat) /\
    Containor.load 1%nat s' = [(VString "a", VNum 1); (VString "c", VNum 3)].
Proof.
  intros this odd.
  destruct (filter_holds_matches odd 0%nat [this]) as (s' & Hrun & Hload & _).
  - simpl. lia.
  - solve_wf.
  - reflexivity.
  - exists s'. split; [ exact Hrun | exact Hload ].
Defined.

(** X14.  When each entry of the receiver is one [set] writes as an entry (the
    key is defined, and it is a string or a number or the value is
    defined), [partition] returns two new containers: the first holds the
    entries of the receiver for which the function holds and the second the
    others, each in the receiver's order.  No entry is in both, and their
    lengths add up to the length of the receiver. *)
Theorem partition_splits (func : Containor.callback)
    (this : Containor.address) (s : Containor.store) :
  (this < List.length s)%nat ->
  NativeMap.wf (Containor.load this s) ->
  forallb Spec.writes_entry (Containor.load this s) = true ->
  let matches e := func (snd e) (fst e) (Containor.load this s) in
  let results0 := List.length s in
  let results1 := S (List.length s) in
  exists s',
    Containor.partition (Some func) this s = (s', Returns (results0, results1)) /\
    Containor.load results0 s' = List.filter matches (Containor.load this s) /\
    Containor.load results1 s'
    = List.filter (fun e => negb (matches e)) (Containor.load this s) /\
    (forall e, In e (Containor.load results0 s') ->
               ~ In e (Containor.load results1 s')) /\
    Containor.length (Containor.load results0 s')
    + Containor.length (Containor.load results1 s')
    = Containor.length (Containor.load this s).
Proof.
  intros Hthis Hwf Hwrites matches results0 results1.
  set (T := Containor.load this s).
  set (dest := fun e : NativeMap.entry =>
                 Some (if matches e then results0 else results1)).
  assert (Hold : forall a, (a < List.length s)%nat ->
                 Containor.load a ((s ++ [[]]) ++ [[]]) = Containor.load a s).
  { intros a Ha. unfold Containor.load.
    rewrite app_nth1 by (rewrite length_app; lia). apply app_nth1, Ha. }
  assert (Hnew0 : Containor.load results0 ((s ++ [[]]) ++ [[]]) = []).
  { unfold Containor.load, results0.
    rewrite app_nth1 by (rewrite length_app; simpl; lia). apply nth_middle. }
  assert (Hnew1 : Containor.load results1 ((s ++ [[]]) ++ [[]]) = []).
  { unfold Containor.load, results1.
    replace (S (List.length s)) with (List.length (s ++ [[]]))
      by (rewrite length_app; simpl; lia).
    apply nth_middle. }
  destruct (distribute this T dest
              (fun e s0 =>
                 if func (snd e) (fst e) (Containor.load this s0)
                 then Containor.on results0 (Containor.set (fst e) (snd e)) s0
                 else Containor.on results1 (Containor.set (fst e) (snd e)) s0)
              T ((s ++ [[]]) ++ [[]]))
    as (s' & Hrun & _ & Hload).
  - apply Hold, Hthis.
  - intros e s0 _ ->. unfold dest, matches. fold T.
    destruct (func (snd e) (fst e) T); reflexivity.
  - intros e r _ Hr. unfold dest in Hr. injection Hr as <-.
    rewrite !length_app. cbn [List.length]. unfold results0, results1.
    destruct (matches e).
    + split; [ lia | ]. split; [ lia | ]. fold results0. rewrite Hnew0. intros [].
    + split; [ lia | ]. split; [ lia | ]. fold results1. rewrite Hnew1. intros [].
  - intros e Hin _. rewrite forallb_forall in Hwrites. apply Hwrites, Hin.
  - exact Hwf.
  - assert (H0 : Containor.load results0 s' = List.filter matches T).
    { rewrite Hload, Hnew0. cbn [app]. apply filter_ext. intros e.
      unfold Spec.goes_to, dest, results0, results1.
      destruct (matches e); [ apply Nat.eqb_refl | ].
      apply Nat.eqb_neq. lia. }
    assert (H1 : Containor.load results1 s'
                 = List.filter (fun e => negb (matches e)) T).
    { rewrite Hload, Hnew1. cbn [app]. apply filter_ext. intros e.
      unfold Spec.goes_to, dest, results0, results1.
      destruct (matches e); [ apply Nat.eqb_neq; lia | apply Nat.eqb_refl ]. }
    exists s'. split; [ | split; [ exact H0 | split; [ exact H1 | split ] ] ].
    + unfold Containor.partition, Containor.alloc.
      rewrite length_app. cbn [List.length].
      replace (List.length s + 1)%nat with results1 by (unfold results1; lia).
      rewrite (Hold this Hthis). fold T.
      match goal with
      | |- context [Containor.for_each ?b ?l ?st] =>
          replace (Containor.for_each b l st) with (s', @Returns unit tt)
            by (symmetry; exact Hrun)
      end.
      reflexivity.
    + intros e He0 He1. rewrite H0 in He0. rewrite H1 in He1.
      apply filter_In in He0 as [_ He0]. apply filter_In in He1 as [_ He1].
      rewrite He0 in He1. discriminate.
    + rewrite H0, H1. unfold Containor.length.
      rewrite <- Nat2Z.inj_add. f_equal. exact (filter_length matches T).
Qed.

Lemma partition_splits_witness :
  let this := [(VString "a", VNum 1); (VString "b", VNum 2); (VString "c", VNum 3)] in
  let odd : Containor.callback :=
    fun v _ _ => match v with VNum n => Z.odd n | _ => false end in
  exists s',
    Containor.partition (Some odd) 0%nat [this] = (s', Returns (1%nat, 2%nat)) /\
    Containor.load 1%nat s' = [(VString "a", VNum 1); (VString "c", VNum 3)] /\
    Containor.load 2%nat s' = [(VString "b", VNum 2)].
Proof.
  intros this odd.
  destruct (partition_splits odd 0%nat [this]) as (s' & Hrun & H0 & H1 & _).
  - simpl. lia.
  - solve_wf.
  - reflexivity.
  - exists s'. split; [ exact Hrun | ]. split; [ exact H0 | exact H1 ].
Defined.

Lemma subsequence_nil_l {A : Type} (l : list A) : Spec.subsequence [] l.
Proof. induction l; constructor; assumption. Qed.

Lemma subsequence_range {A : Type} (a b : nat) (l : list A) :
  Spec.subsequence (firstn a (skipn b l)) l.
Proof.
  revert a l. induction b as [ | b IH ]; intros a l.
  - cbn [skipn]. revert a. induction l as [ | x l IHl ]; intros [ | a ]; simpl.
    + constructor.
    + constructor.
    + apply subsequence_nil_l.
    + constructor. apply IHl.
  - destruct l as [ | x l ]; cbn [skipn].
    + rewrite firstn_nil. constructor.
    + constructor. apply IH.
Qed.

(** X15.  [slice] returns a new container that holds the entries of the receiver
    in the range [Array.prototype.slice] selects, negative bounds counting
    from the end, in the receiver's order, when [Containor.from] copies
    each entry of that range as it is. *)
Theorem slice_holds_range (start end_ : option Z)
    (this : Containor.address) (s : Containor.store) :
  (this < List.length s)%nat ->
  NativeMap.wf (Containor.load this s) ->
  forallb Spec.copied_as_is
    (NativeArray.slice start end_ (Containor.load this s)) = true ->
  exists s',
    Containor.slice start end_ this s = (s', Returns (List.length s)) /\
    Containor.load (List.length s) s'
    = NativeArray.slice start end_ (Containor.load this s) /\
    Spec.subsequence (Containor.load (List.length s) s') (Containor.load this s).
Proof.
  intros Hthis Hwf Hcopied.
  set (T := Containor.load this s).
  set (target := List.length s).
  set (range := NativeArray.slice start end_ T).
  destruct (load_alloc s) as [Hnew Hold].
  assert (Hrange : exists a b, range = firstn a (skipn b T)).
  { unfold range, NativeArray.slice. eexists. eexists. reflexivity. }
  destruct Hrange as (a & b & Hrange).
  assert (Hsub : Spec.subsequence range T).
  { rewrite Hrange. apply subsequence_range. }
  assert (Hcopied' : forallb Spec.copied_as_is range = true)
    by exact Hcopied.
  destruct (distribute this T (fun _ => Some target)
              (fun e s0 => Containor.on target (Containor.from_entry e) s0)
              range (s ++ [[]]))
    as (s' & Hrun & _ & Hload).
  - apply Hold, Hthis.
  - intros e s0 Hin _. unfold Containor.on.
    rewrite forallb_forall in Hcopied'. pose proof (Hcopied' e Hin) as He.
    rewrite (from_entry_copied e _ He).
    unfold Spec.copied_as_is in He. apply andb_true_iff in He as [He _].
    destruct e as [k v]. rewrite (set_writes_entry k v _ He). reflexivity.
  - intros e r _ [= <-]. unfold target. rewrite length_app. cbn [List.length].
    split; [ lia | ]. split; [ lia | ]. rewrite Hnew. intros [].
  - rewrite forallb_forall in Hcopied'. intros e He _.
    specialize (Hcopied' e He). unfold Spec.copied_as_is in Hcopied'.
    apply andb_true_iff in Hcopied' as [H _]. exact H.
  - rewrite Hrange. apply wf_firstn, wf_skipn, Hwf.
  - assert (Hresult : Containor.load target s' = range).
    { rewrite Hload. unfold target at 1. rewrite Hnew. cbn [app].
      apply filter_id. intros e _. unfold Spec.goes_to. apply Nat.eqb_refl. }
    exists s'. split; [ | split ].
    + unfold Containor.slice, Containor.from, Containor.alloc.
      fold T. fold range.
      match goal with
      | |- context [Containor.for_each ?b ?l ?st] =>
          replace (Containor.for_each b l st) with (s', @Returns unit tt)
            by (symmetry; exact Hrun)
      end.
      reflexivity.
    + exact Hresult.
    + rewrite Hresult. exact Hsub.
Qed.

Lemma slice_holds_range_witness :
  let this := [(VString "a", VNum 1); (VString "b", VNum 2); (VString "c", VNum 3)] in
  exists s',
    Containor.slice (Some (-2)) None 0%nat [this] = (s', Returns 1%nat) /\
    Containor.load 1%nat s' = [(VString "b", VNum 2); (VString "c", VNum 3)].
Proof.
  intros this.
  destruct (slice_holds_range (Some (-2)) None 0%nat [this]) as (s' & Hrun & Hload & _).
  - simpl. lia.
  - solve_wf.
  - reflexivity.
  - exists s'. split; [ exact Hrun | exact Hload ].
Defined.

(* ================================================================== *)
(** * Further properties of the sequence *)

Lemma value_has_In (x : value) (s : list value) :
  NativeSet.has value_eqb x s = true <-> In x s.
Proof.
  unfold NativeSet.has. rewrite existsb_exists. split.
  - intros [y [Hy E]]. apply value_eqb_eq in E. subst. exact Hy.
  - intros H. exists x. split; [ exact H | apply value_eqb_refl ].
Qed.

Lemma value_of_list_from (l acc : list value) (x : value) :
  In x (fold_left (fun s y => if NativeSet.has value_eqb y s then s else s ++ [y]) l acc)
  <-> In x acc \/ In x l.
Proof.
  revert acc. induction l as [ | y l IH ]; intros acc; simpl; [ tauto | ].
  rewrite IH. destruct (NativeSet.has value_eqb y acc) eqn:E.
  - apply value_has_In in E. split; [ tauto | ].
    intros [H | [<- | H]]; auto.
  - rewrite in_app_iff. simpl. tauto.
Qed.

Lemma value_of_list_In (l : list value) (x : value) :
  In x (NativeSet.of_list value_eqb l) <-> In x l.
Proof.
  unfold NativeSet.of_list. rewrite value_of_list_from. simpl. tauto.
Qed.

Lemma count_occ_filter (f : value -> bool) (l : list value) (x : value) :
  count_occ value_eq_dec (List.filter f l) x
  = if f x then count_occ value_eq_dec l x else 0%nat.
Proof.
  induction l as [ | y l IH ]; simpl.
  - destruct (f x); reflexivity.
  - destruct (f y) eqn:Ey; simpl; destruct (value_eq_dec y x) as [-> | Hne].
    + rewrite IH, Ey. reflexivity.
    + exact IH.
    + rewrite IH, Ey. reflexivity.
    + exact IH.
Qed.

(** X16.  The sequence's [delete] removes every occurrence of each given value and
    nothing else: what is left is the elements that are none of the given
    values, in the order they were in and as often as they occurred.
    Deleting the same values again changes nothing, and with no value given
    the sequence is left as it is. *)
Theorem array_delete_removes (removeArr : list value)
    (this : ContainorArray.containorArray) :
  let after := ContainorArray.delete removeArr this in
  (forall x, In x after <-> In x this /\ ~ In x removeArr) /\
  Spec.subsequence after this /\
  (forall x, ~ In x removeArr ->
             count_occ value_eq_dec after x = count_occ value_eq_dec this x) /\
  ContainorArray.delete removeArr after = after /\
  ContainorArray.delete [] this = this.
Proof.
  intros after.
  set (keep := fun item =>
                 negb (NativeSet.has value_eqb item
                         (NativeSet.of_list value_eqb removeArr))).
  assert (Hkeep : forall x, keep x = true <-> ~ In x removeArr).
  { intros x. unfold keep. rewrite negb_true_iff, <- value_of_list_In.
    rewrite <- value_has_In.
    destruct (NativeSet.has value_eqb x (NativeSet.of_list value_eqb removeArr));
      split; congruence. }
  assert (Hafter : forall l, ContainorArray.delete removeArr l
                             = match removeArr with
                               | [] => l
                               | _ => List.filter keep l
                               end).
  { intros l. unfold ContainorArray.delete. destruct removeArr; reflexivity. }
  assert (Hfilter : after = List.filter keep this).
  { unfold after. rewrite Hafter. destruct removeArr; [ | reflexivity ].
    symmetry. apply filter_id. intros x _. apply Hkeep. intros []. }
  split; [ | split; [ | split; [ | split ] ] ].
  - intros x. rewrite Hfilter, filter_In, Hkeep. reflexivity.
  - rewrite Hfilter. apply subsequence_filter.
  - intros x Hx. rewrite Hfilter, count_occ_filter.
    apply Hkeep in Hx. rewrite Hx. reflexivity.
  - rewrite Hafter. destruct removeArr; [ reflexivity | ].
    rewrite Hfilter. apply filter_id. intros x Hx.
    apply filter_In in Hx as [_ Hx]. exact Hx.
  - reflexivity.
Qed.

Lemma keep_first_spec (ignore items : list value) :
  forall acc seen : list value,
    exists kept,
      fst (ContainorArray.keep_first ignore items (acc, seen)) = acc ++ kept /\
      Spec.subsequence kept items /\
      forall x,
        count_occ value_eq_dec kept x
        = if NativeSet.has value_eqb x ignore then count_occ value_eq_dec items x
          else if NativeSet.has value_eqb x seen then 0%nat
               else Nat.min 1 (count_occ value_eq_dec items x).
Proof.
  induction items as [ | item rest IH ]; intros acc seen.
  - exists []. cbn [ContainorArray.keep_first fst]. rewrite app_nil_r.
    split; [ reflexivity | ]. split; [ constructor | ].
    intros x. cbn [count_occ].
    destruct (NativeSet.has value_eqb x ignore),
             (NativeSet.has value_eqb x seen); reflexivity.
  - cbn [ContainorArray.keep_first].
    destruct (NativeSet.has value_eqb item ignore) eqn:Ei;
      destruct (NativeSet.has value_eqb item seen) eqn:Es; cbn [negb orb].
    + (* ignored, seen before: kept again *)
      destruct (IH (acc ++ [item]) seen) as (kept & Hrun & Hsub & Hcount).
      exists (item :: kept). rewrite Hrun, <- app_assoc.
      split; [ reflexivity | ]. split; [ constructor; exact Hsub | ].
      intros x. cbn [count_occ]. rewrite Hcount.
      destruct (value_eq_dec item x) as [<- | Hne].
      * rewrite Ei. reflexivity.
      * reflexivity.
    + (* ignored, new *)
      destruct (IH (acc ++ [item]) (seen ++ [item])) as (kept & Hrun & Hsub & Hcount).
      exists (item :: kept). rewrite Hrun, <- app_assoc.
      split; [ reflexivity | ]. split; [ constructor; exact Hsub | ].
      intros x. cbn [count_occ]. rewrite Hcount.
      destruct (value_eq_dec item x) as [<- | Hne].
      * rewrite Ei. reflexivity.
      * assert (Hseen : NativeSet.has value_eqb x (seen ++ [item])
                        = NativeSet.has value_eqb x seen).
        { unfold NativeSet.has. rewrite existsb_app. cbn [existsb].
          assert (E : value_eqb x item = false)
            by (apply value_eqb_neq; congruence).
          rewrite E, !orb_false_r. reflexivity. }
        rewrite Hseen. reflexivity.
    + (* not ignored, seen before: dropped *)
      destruct (IH acc seen) as (kept & Hrun & Hsub & Hcount).
      exists kept. split; [ exact Hrun | ]. split; [ constructor; exact Hsub | ].
      intros x. cbn [count_occ]. rewrite Hcount.
      destruct (value_eq_dec item x) as [<- | Hne]; [ | reflexivity ].
      rewrite Ei, Es. reflexivity.
    + (* not ignored, new: kept once *)
      destruct (IH (acc ++ [item]) (seen ++ [item])) as (kept & Hrun & Hsub & Hcount).
      exists (item :: kept). rewrite Hrun, <- app_assoc.
      split; [ reflexivity | ]. split; [ constructor; exact Hsub | ].
      intros x. cbn [count_occ]. rewrite Hcount.
      destruct (value_eq_dec item x) as [<- | Hne].
      * rewrite Ei, Es.
        assert (Hseen : NativeSet.has value_eqb item (seen ++ [item]) = true).
        { apply value_has_In, in_or_app. right. left. reflexivity. }
        rewrite Hseen. reflexivity.
      * assert (Hseen : NativeSet.has value_eqb x (seen ++ [item])
                        = NativeSet.has value_eqb x seen).
        { unfold NativeSet.has. rewrite existsb_app. cbn [existsb].
          assert (E : value_eqb x item = false)
            by (apply value_eqb_neq; congruence).
          rewrite E, !orb_false_r. reflexivity. }
        rewrite Hseen. reflexivity.
Qed.

(** The loop of [removeDuplicates] keeps the elements by their place: one to
    ignore, or one that occurs nowhere before. *)
Lemma keep_first_positions (ignore rest : list value) :
  forall acc seen before whole : list value,
    whole = before ++ rest ->
    (forall x, In x seen <-> In x before) ->
    fst (ContainorArray.keep_first ignore rest (acc, seen))
    = acc ++ map snd
               (List.filter
                  (fun p =>
                     existsb (value_eqb (snd p)) ignore
                     || negb (existsb (value_eqb (snd p)) (firstn (fst p) whole)))
                  (combine (seq (List.length before) (List.length rest)) rest)).
Proof.
  induction rest as [ | item rest IH ]; intros acc seen before whole Hwhole Hseen.
  - cbn. rewrite app_nil_r. reflexivity.
  - assert (Hprefix : firstn (List.length before) whole = before).
    { rewrite Hwhole, firstn_app, firstn_all, Nat.sub_diag. cbn [firstn].
      apply app_nil_r. }
    assert (Hmem : NativeSet.has value_eqb item seen
                   = existsb (value_eqb item) before).
    { apply eq_true_iff_eq. rewrite value_has_In, existsb_exists. split.
      - intros H. exists item. split; [ apply Hseen, H | apply value_eqb_refl ].
      - intros [y [Hy E]]. apply value_eqb_eq in E. subst y. apply Hseen, Hy. }
    assert (Hnext : whole = (before ++ [item]) ++ rest)
      by (rewrite <- app_assoc; exact Hwhole).
    assert (Hlen : List.length (before ++ [item]) = S (List.length before))
      by (rewrite length_app; simpl; lia).
    cbn [ContainorArray.keep_first List.length seq combine List.filter fst snd].
    rewrite Hprefix, Hmem. unfold NativeSet.has.
    destruct (existsb (value_eqb item) ignore) eqn:Ei;
      destruct (existsb (value_eqb item) before) eqn:Eb; cbn [negb orb map].
    + rewrite (IH (acc ++ [item]) seen (before ++ [item]) whole Hnext), Hlen,
        <- app_assoc; [ reflexivity | ].
      intros x. rewrite in_app_iff, Hseen. split; [ tauto | ].
      intros [H | [<- | []]]; [ exact H | ].
      apply existsb_exists in Eb as [y [Hy E]]. apply value_eqb_eq in E.
      subst y. exact Hy.
    + rewrite (IH (acc ++ [item]) (seen ++ [item]) (before ++ [item]) whole Hnext),
        Hlen, <- app_assoc; [ reflexivity | ].
      intros x. rewrite !in_app_iff, Hseen. tauto.
    + assert (Hside : forall x, In x seen <-> In x (before ++ [item])).
      { intros x. rewrite in_app_iff, Hseen. split; [ tauto | ].
        intros [H | [<- | []]]; [ exact H | ].
        apply existsb_exists in Eb as [y [Hy E]]. apply value_eqb_eq in E.
        subst y. exact Hy. }
      etransitivity; [ exact (IH acc seen (before ++ [item]) whole Hnext Hside) | ].
      rewrite Hlen. reflexivity.
    + rewrite (IH (acc ++ [item]) (seen ++ [item]) (before ++ [item]) whole Hnext),
        Hlen, <- app_assoc; [ reflexivity | ].
      intros x. rewrite !in_app_iff, Hseen. tauto.
Qed.

(** X17.  [removeDuplicates] on a receiver of two elements or more, given another
    array as its source: the receiver becomes the source without its
    repeats, an element of the source staying where it is when it is one to
    ignore or occurs nowhere before.  So it has the elements of the source
    and no other, in the order of the source; a value that is not to be
    ignored occurs once, at its first occurrence, and a value to ignore
    occurs as often as in the source.  A receiver of one element or none is
    left as it is, whatever the source. *)
Theorem removeDuplicates_of_another (items ignore : list value)
    (this : ContainorArray.containorArray) :
  ((List.length this <= 1)%nat ->
   forall arrayDefault,
     ContainorArray.removeDuplicates arrayDefault ignore this = this) /\
  ((2 <= List.length this)%nat ->
   let after :=
     ContainorArray.removeDuplicates (ContainorArray.Another items) ignore this in
   after = Spec.without_repeats ignore items /\
   Spec.subsequence after items /\
   (forall x, In x after <-> In x items) /\
   (forall x, In x ignore ->
              count_occ value_eq_dec after x = count_occ value_eq_dec items x) /\
   (forall x, ~ In x ignore -> In x items ->
              count_occ value_eq_dec after x = 1%nat) /\
   (ignore = [] -> NoDup after)).
Proof.
  split.
  - intros Hlen arrayDefault. unfold ContainorArray.removeDuplicates.
    destruct (Z.of_nat (List.length this) <=? 1) eqn:E; [ reflexivity | lia ].
  - intros Hlen after.
    destruct (keep_first_spec ignore items [] []) as (kept & Hrun & Hsub & Hcount).
    assert (Hafter : after = kept).
    { unfold after, ContainorArray.removeDuplicates.
      destruct (Z.of_nat (List.length this) <=? 1) eqn:E; [ lia | exact Hrun ]. }
    rewrite Hafter. cbn [NativeSet.has existsb] in Hcount.
    assert (Hone : forall x, ~ In x ignore -> In x items ->
                             count_occ value_eq_dec kept x = 1%nat).
    { intros x Hx Hin. rewrite Hcount.
      destruct (NativeSet.has value_eqb x ignore) eqn:E.
      - exfalso. apply Hx. apply (value_has_In x ignore). exact E.
      - apply (count_occ_In value_eq_dec) in Hin. lia. }
    split.
    { etransitivity; [ symmetry; exact Hrun | ].
      exact (keep_first_positions ignore items [] [] [] items eq_refl
               (fun x => conj (fun H => H) (fun H => H))). }
    split; [ exact Hsub | ]. split; [ | split; [ | split; [ exact Hone | ] ] ].
    + intros x. rewrite !(count_occ_In value_eq_dec), Hcount.
      destruct (NativeSet.has value_eqb x ignore); [ reflexivity | lia ].
    + intros x Hx. rewrite Hcount.
      apply (value_has_In x ignore) in Hx. rewrite Hx. reflexivity.
    + intros ->. apply (NoDup_count_occ value_eq_dec). intros x.
      rewrite Hcount. cbn [NativeSet.has existsb]. lia.
Qed.

Lemma removeDuplicates_of_another_witness :
  let items := [VNum 1; VNum 2; VNum 2; VNum 3; VNum 1] in
  let after :=
    ContainorArray.removeDuplicates (ContainorArray.Another items) [VNum 2]
      [VNum 0; VNum 0] in
  after = [VNum 1; VNum 2; VNum 2; VNum 3] /\
  Spec.subsequence after items /\
  (forall x, In x after <-> In x items) /\
  count_occ value_eq_dec after (VNum 2) = 2%nat /\
  count_occ value_eq_dec after (VNum 1) = 1%nat.
Proof.
  intros items after.
  destruct (proj2 (removeDuplicates_of_another items [VNum 2] [VNum 0; VNum 0]))
    as (Hafter & Hsub & Hmem & Hignored & Hother & _); [ simpl; lia | ].
  split; [ exact Hafter | ].
  split; [ exact Hsub | ]. split; [ exact Hmem | ]. split.
  - exact (Hignored (VNum 2) (or_introl eq_refl)).
  - apply Hother.
    + simpl. intros [H | []]. discriminate H.
    + left. reflexivity.
Defined.








(** * Keys and values side by side, and the ends of a sequence *)

Lemma combine_fst_snd {A B : Type} (l : list (A * B)) :
  combine (map fst l) (map snd l) = l.
Proof.
  induction l as [ | [a b] l IH ]; simpl; [ reflexivity | ].
  f_equal. exact IH.
Qed.

Lemma nth_error_fst_snd {A B : Type} (l : list (A * B)) (i : nat) (a : A) (b : B) :
  nth_error (map fst l) i = Some a ->
  nth_error (map snd l) i = Some b ->
  nth_error l i = Some (a, b).
Proof.
  revert i. induction l as [ | [a' b'] l IH ]; intros [ | i ]; simpl;
    try discriminate.
  - intros Ha Hb. injection Ha as ->. injection Hb as ->. reflexivity.
  - apply IH.
Qed.

(** X19.  [keys()] and [values()] without a function, on a container that does
    not hold exactly one entry, return the keys and the values in insertion
    order; the two sequences are as long as the container and line up: put
    side by side they are the entries, and the value at a position is what
    [get] reads at the key of that position, [null] standing for
    [undefined]. *)
Theorem keys_values_line_up (this : Containor.containor) :
  NativeMap.wf this ->
  List.length this <> 1%nat ->
  exists ks vs,
    Containor.keys this = Returns (ContainorArray.Elements ks) /\
    Containor.values this = Returns (ContainorArray.Elements vs) /\
    combine ks vs = this /\
    List.length ks = List.length this /\
    List.length vs = List.length this /\
    forall i k v,
      nth_error ks i = Some k -> nth_error vs i = Some v ->
      Containor.get k this = match v with VUndefined => VNull | _ => v end.
Proof.
  intros Hwf Hlen.
  exists (NativeMap.keys this), (NativeMap.values this).
  assert (Hfrom : forall items : list value,
             List.length items = List.length this ->
             ContainorArray.from items = Returns (ContainorArray.Elements items)).
  { intros items Hitems. destruct items as [ | x [ | y rest ] ].
    - reflexivity.
    - exfalso. apply Hlen. symmetry. exact Hitems.
    - apply from_elements. simpl. lia. }
  assert (Hk : List.length (NativeMap.keys this) = List.length this)
    by apply length_map.
  assert (Hv : List.length (NativeMap.values this) = List.length this)
    by apply length_map.
  split; [ apply Hfrom; exact Hk | ].
  split; [ apply Hfrom; exact Hv | ].
  split; [ apply combine_fst_snd | ].
  split; [ exact Hk | ].
  split; [ exact Hv | ].
  intros i k v Hki Hvi.
  pose proof (nth_error_fst_snd this i k v Hki Hvi) as Hentry.
  apply nth_error_In in Hentry.
  unfold Containor.get. rewrite (get_In k v this Hwf Hentry).
  destruct v; reflexivity.
Qed.

Lemma keys_values_line_up_witness :
  Containor.keys [(VString "a", VNum 1); (VNum 7, VUndefined)]
    = Returns (ContainorArray.Elements [VString "a"; VNum 7]) /\
  Containor.values [(VString "a", VNum 1); (VNum 7, VUndefined)]
    = Returns (ContainorArray.Elements [VNum 1; VUndefined]) /\
  Containor.get (VNum 7) [(VString "a", VNum 1); (VNum 7, VUndefined)] = VNull.
Proof.
  assert (Hwf : NativeMap.wf [(VString "a", VNum 1); (VNum 7, VUndefined)])
    by solve_wf.
  assert (Hlen : List.length [(VString "a", VNum 1); (VNum 7, VUndefined)] <> 1%nat)
    by (simpl; lia).
  destruct (keys_values_line_up _ Hwf Hlen)
    as (ks & vs & Hks & Hvs & _ & _ & _ & Hget).
  cbv in Hks, Hvs. injection Hks as <-. injection Hvs as <-.
  split; [ reflexivity | split; [ reflexivity | ] ].
  exact (Hget 1%nat (VNum 7) VUndefined eq_refl eq_refl).
Defined.

(** X20.  The sequence's [first()] returns the element at index 0 and [last()]
    the one at the last index, both of them elements of a sequence that is
    not empty and [undefined] on an empty one.  [last] is [first] of the
    sequence read backwards, and on a sequence of one element the two
    agree. *)
Theorem first_last_ends (this : ContainorArray.containorArray) :
  (forall x rest, this = x :: rest -> ContainorArray.first this = x) /\
  (forall init x, this = init ++ [x] -> ContainorArray.last this = x) /\
  ContainorArray.last this = ContainorArray.first (rev this) /\
  ContainorArray.first this = ContainorArray.last (rev this) /\
  (this <> [] ->
   In (ContainorArray.first this) this /\ In (ContainorArray.last this) this) /\
  (this = [] ->
   ContainorArray.first this = VUndefined /\ ContainorArray.last this = VUndefined).
Proof.
  assert (Hlast : forall init x, ContainorArray.last (init ++ [x]) = x).
  { intros init x. unfold ContainorArray.last.
    rewrite length_app. cbn [List.length].
    replace (0 <? List.length init + 1)%nat with true
      by (symmetry; apply Nat.ltb_lt; lia).
    replace (List.length init + 1 - 1)%nat with (List.length init) by lia.
    rewrite app_nth2 by lia. rewrite Nat.sub_diag. reflexivity. }
  assert (Hrev : forall l, ContainorArray.last l = ContainorArray.first (rev l)).
  { intros l. destruct l as [ | x l ] using rev_ind.
    - reflexivity.
    - rewrite Hlast. rewrite rev_app_distr. reflexivity. }
  split; [ intros x rest ->; reflexivity | ].
  split; [ intros init x ->; apply Hlast | ].
  split; [ apply Hrev | ].
  split; [ rewrite Hrev, rev_involutive; reflexivity | ].
  split.
  - intros Hne. split.
    + destruct this as [ | x rest ]; [ contradiction | left; reflexivity ].
    + destruct this as [ | x init _ ] using rev_ind; [ contradiction | ].
      rewrite Hlast. apply in_or_app. right. left. reflexivity.
  - intros ->. split; reflexivity.
Qed.
